(** * GoM-Rename: the text rewriting content script (content.js)

    A shallow embedding of [content.js] and of the parts of the host
    platform it calls (ECMAScript strings and regular expressions, DOM nodes,
    [TreeWalker], mutation records), followed by the properties of the
    rewrite engine, the eligibility filter and the mutation coordinator. *)

From Stdlib Require Import NArith List String Ascii Lia.
From stdpp Require Import gmap.
From Equations Require Import Equations.
Import ListNotations.

Local Open Scope N_scope.

(** ** ECMAScript strings

    A JavaScript string is a finite sequence of UTF-16 code units. *)

Definition jsstring := list N.

(** An ASCII literal as a sequence of code units. *)
Definition str (s : string) : jsstring :=
  map N_of_ascii (list_ascii_of_string s).

Fixpoint jsstring_eqb (a b : jsstring) : bool :=
  match a, b with
  | [], [] => true
  | x :: a', y :: b' => (x =? y) && jsstring_eqb a' b'
  | _, _ => false
  end.

(** [Array.prototype.includes] on an array of strings. *)
Fixpoint includes (arr : list jsstring) (x : jsstring) : bool :=
  match arr with
  | [] => false
  | y :: arr' => jsstring_eqb y x || includes arr' x
  end.

Definition is_lead_surrogate (u : N) : bool := (0xD800 <=? u) && (u <=? 0xDBFF).
Definition is_trail_surrogate (u : N) : bool := (0xDC00 <=? u) && (u <=? 0xDFFF).

(** [StringToCodePoints]: a lead surrogate followed by a trail surrogate is
    one supplementary code point, every other code unit stands for itself. *)
Fixpoint StringToCodePoints (s : jsstring) : list N :=
  match s with
  | [] => []
  | u :: rest =>
      match rest with
      | t :: rest' =>
          if is_lead_surrogate u && is_trail_surrogate t
          then (0x10000 + (u - 0xD800) * 0x400 + (t - 0xDC00)) :: StringToCodePoints rest'
          else u :: StringToCodePoints rest
      | [] => [u]
      end
  end.

Definition UTF16EncodeCodePoint (cp : N) : jsstring :=
  if cp <=? 0xFFFF then [cp]
  else [(cp - 0x10000) / 0x400 + 0xD800; (cp - 0x10000) mod 0x400 + 0xDC00].

Definition CodePointsToString (cps : list N) : jsstring :=
  flat_map UTF16EncodeCodePoint cps.

(** Upper-casing of an ASCII code point: a-z go to A-Z. *)
Definition ascii_upper (cp : N) : N :=
  if (97 <=? cp) && (cp <=? 122) then cp - 32 else cp.

(** ** The document

    Nodes are objects of the page's heap, named by their address.  A node
    carries the properties the script and [TreeWalker] read. *)

Definition NodeId := nat.

Definition ELEMENT_NODE : N := 1.
Definition TEXT_NODE : N := 3.
Definition SHOW_TEXT : N := 4.

Record Node := mkNode {
  nodeType : N;
  tagName : jsstring;               (* read on elements only *)
  isContentEditable : bool;
  nodeValue : option jsstring;      (* [None] is null: the node has no character data *)
  parentNode : option NodeId;
  firstChild : option NodeId;
  nextSibling : option NodeId;
  attrs : list (jsstring * jsstring)   (* the attributes; never read by the script *)
}.

Definition withValue (n : Node) (v : jsstring) : Node :=
  mkNode (nodeType n) (tagName n) (isContentEditable n) (Some v)
         (parentNode n) (firstChild n) (nextSibling n) (attrs n).

(** The page: the heap of nodes and the trace of the assignments to
    [nodeValue] made so far (each one reaches the observer as a
    [characterData] record). *)
Record Page := mkPage {
  nodes : gmap NodeId Node;
  assigned : list (NodeId * jsstring)
}.

(** The fault of the script's own code: a property read on [null] or
    [undefined]. *)
Inductive Fault := TypeError.

(** How a computation ends: with a value, with a fault, or not within the
    fuel given to its loops. *)
Inductive Outcome (A : Type) :=
| Ok (a : A)
| Throw (f : Fault)
| OutOfFuel.
Arguments Ok {A} a.
Arguments Throw {A} f.
Arguments OutOfFuel {A}.

(** Computations on the page: the page is threaded through, and it stays as
    it is when a fault is thrown. *)
Definition M (A : Type) := Page -> Outcome A * Page.

Definition ret {A} (a : A) : M A := fun p => (Ok a, p).
Definition throw {A} (f : Fault) : M A := fun p => (Throw f, p).
Definition outOfFuel {A} : M A := fun p => (OutOfFuel, p).
Definition bind {A B} (m : M A) (k : A -> M B) : M B :=
  fun p => match m p with
           | (Ok a, p') => k a p'
           | (Throw f, p') => (Throw f, p')
           | (OutOfFuel, p') => (OutOfFuel, p')
           end.

Notation "x <- m ;; k" := (bind m (fun x => k))
  (at level 100, m at next level, right associativity).

(** Reading a property of the node at [id]; an address that holds no node
    stands for [undefined]. *)
Definition getNode (id : NodeId) : M Node :=
  fun p => match nodes p !! id with
           | Some n => (Ok n, p)
           | None => (Throw TypeError, p)
           end.

(** [node.nodeValue = v] *)
Definition setNodeValue (id : NodeId) (v : jsstring) : M unit :=
  fun p => match nodes p !! id with
           | Some n => (Ok tt, mkPage (<[id := withValue n v]> (nodes p))
                                      (assigned p ++ [(id, v)]))
           | None => (Throw TypeError, p)
           end.

(** [Array.prototype.forEach] and [for ... of] with an effectful body. *)
Fixpoint forEach {A} (f : A -> M unit) (l : list A) : M unit :=
  match l with
  | [] => ret tt
  | x :: l' => _ <- f x ;; forEach f l'
  end.

(** ** TreeWalker (DOM standard, traversal) *)

Record TreeWalker := mkTreeWalker {
  root : NodeId;
  whatToShow : N;
  currentNode : NodeId
}.

(** [document.createTreeWalker(root, whatToShow, null, false)] *)
Definition createTreeWalker (rootNode : NodeId) (show : N) : TreeWalker :=
  mkTreeWalker rootNode show rootNode.

Inductive FilterResult := FILTER_ACCEPT | FILTER_REJECT | FILTER_SKIP.

(** Filtering a node with a null filter: bit [nodeType - 1] of [whatToShow]. *)
Definition filterNode (tw : TreeWalker) (n : Node) : FilterResult :=
  if N.testbit (whatToShow tw) (nodeType n - 1) then FILTER_ACCEPT else FILTER_SKIP.

Inductive Climb :=
| FoundSibling (sibling : NodeId)
| AtRoot
| NoParent.

(** The inner loop of [nextNode] that looks for the next sibling of
    [temporary] or of its nearest ancestor below the root. *)
Fixpoint climb (fuel : nat) (rootNode : NodeId) (temporary : option NodeId) : M Climb :=
  match temporary with
  | None => ret NoParent
  | Some t =>
      if (t =? rootNode)%nat then ret AtRoot
      else
        n <- getNode t ;;
        match nextSibling n with
        | Some sibling => ret (FoundSibling sibling)
        | None =>
            match fuel with
            | O => outOfFuel
            | S fuel' => climb fuel' rootNode (parentNode n)
            end
        end
  end.

Definition setCurrent (tw : TreeWalker) (node : NodeId) : TreeWalker :=
  mkTreeWalker (root tw) (whatToShow tw) node.

(** The main loop of [treeWalker.nextNode()], one step of the walk per
    turn: to the first child, or else to the sibling found by [climb]; the
    node reached is filtered and returned when accepted.  When [climb] runs
    out of ancestors without meeting the root, the standard filters [node]
    again and goes on. *)
Fixpoint nextNodeLoop (fuel : nat) (tw : TreeWalker) (node : NodeId) (result : FilterResult)
  : M (option NodeId * TreeWalker) :=
  match fuel with
  | O => outOfFuel
  | S fuel' =>
      n <- getNode node ;;
      match (match result with FILTER_REJECT => None | _ => firstChild n end) with
      | Some child =>
          c <- getNode child ;;
          match filterNode tw c with
          | FILTER_ACCEPT => ret (Some child, setCurrent tw child)
          | r => nextNodeLoop fuel' tw child r
          end
      | None =>
          up <- climb fuel' (root tw) (Some node) ;;
          match up with
          | AtRoot => ret (None, tw)
          | FoundSibling sibling =>
              s <- getNode sibling ;;
              match filterNode tw s with
              | FILTER_ACCEPT => ret (Some sibling, setCurrent tw sibling)
              | r => nextNodeLoop fuel' tw sibling r
              end
          | NoParent =>
              match filterNode tw n with
              | FILTER_ACCEPT => ret (Some node, setCurrent tw node)
              | r => nextNodeLoop fuel' tw node r
              end
          end
      end
  end.

Definition nextNode (fuel : nat) (tw : TreeWalker) : M (option NodeId * TreeWalker) :=
  nextNodeLoop fuel tw (currentNode tw) FILTER_ACCEPT.

Section Unicode.

(** The Unicode upper-case mapping of the code points from 128 on (one code
    point may map to several, as U+00DF does).  The script never names it;
    every definition below takes it as it comes from the platform. *)
Variable nonascii_upper : N -> list N.

(** [toUppercase] of the Unicode Default Case Conversion, code point by
    code point. *)
Definition toUppercase (cps : list N) : list N :=
  flat_map (fun cp => if cp <? 128 then [ascii_upper cp] else nonascii_upper cp) cps.

(** [String.prototype.toUpperCase]. *)
Definition toUpperCase (s : jsstring) : jsstring :=
  CodePointsToString (toUppercase (StringToCodePoints s)).

(** ** Regular expressions

    Only the fragment the script uses: a pattern that is a sequence of
    literal characters, with the flags [g] and [i] and no [u]. *)

Record RegExp := mkRegExp {
  pattern : list N;      (* the literal characters, in order *)
  global : bool;
  ignoreCase : bool
}.

(** The characters of the class [[.*+?^${}()|[\]\\]], which are also the
    pattern grammar's SyntaxCharacter. *)
Definition isSyntaxCharacter (c : N) : bool :=
  includes [str "."; str "*"; str "+"; str "?"; str "^"; str "$"; str "{"; str "}";
            str "("; str ")"; str "|"; str "["; str "]"; [92]] [c].

(** [s.replace(/[.*+?^${}()|[\]\\]/g, '\\$&')]: a backslash goes before
    every character of the class. *)
Definition escapeRegExp (s : jsstring) : jsstring :=
  flat_map (fun c => if isSyntaxCharacter c then [92; c] else [c]) s.

(** Parsing of a pattern source made of plain characters and escaped syntax
    characters; [None] is the [SyntaxError] of [new RegExp] and any pattern
    outside this fragment. *)
Fixpoint parsePattern (src : jsstring) : option (list N) :=
  match src with
  | [] => Some []
  | c :: rest =>
      if c =? 92 then
        match rest with
        | e :: rest' =>
            if isSyntaxCharacter e then option_map (cons e) (parsePattern rest') else None
        | [] => None
        end
      else if isSyntaxCharacter c then None
      else option_map (cons c) (parsePattern rest)
  end.

Definition RegExp_new (src : jsstring) (g i : bool) : option RegExp :=
  option_map (fun cs => mkRegExp cs g i) (parsePattern src).

(** [Canonicalize] of the pattern semantics, without the [u] flag. *)
Definition Canonicalize (rer : RegExp) (ch : N) : N :=
  if ignoreCase rer then
    match CodePointsToString (toUppercase [ch]) with
    | [cu] => if (128 <=? ch) && (cu <? 128) then ch else cu
    | _ => ch
    end
  else ch.

(** The matcher of a sequence of pattern characters, run at the start of
    [input]: each character of the input must canonicalize to the same code
    unit as the pattern character. *)
Fixpoint matcher (rer : RegExp) (pat : list N) (input : jsstring) : bool :=
  match pat with
  | [] => true
  | a :: pat' =>
      match input with
      | [] => false
      | ch :: input' =>
          (Canonicalize rer a =? Canonicalize rer ch) && matcher rer pat' input'
      end
  end.

(** The search loop of [RegExpBuiltinExec]: [rest] is the input from
    [lastIndex] on; on a failure [lastIndex] advances by one, and past the
    end of the input the result is [null]. *)
Fixpoint execScan (rer : RegExp) (rest : jsstring) (lastIndex : nat) : option (nat * nat) :=
  if matcher rer (pattern rer) rest
  then Some (lastIndex, (lastIndex + length (pattern rer))%nat)
  else match rest with
       | [] => None
       | _ :: rest' => execScan rer rest' (S lastIndex)
       end.

(** [RegExpBuiltinExec] on a pattern whose [lastIndex] property holds
    [lastIndex]: the index and the end index of the first match at or after
    the index where the search starts.  A pattern that is not global (sticky
    patterns are outside the fragment) starts at 0, whatever [lastIndex]
    holds. *)
Definition RegExpBuiltinExec (rer : RegExp) (input : jsstring) (lastIndex : nat)
  : option (nat * nat) :=
  let lastIndex := if global rer then lastIndex else 0%nat in
  if (length input <? lastIndex)%nat then None
  else execScan rer (skipn lastIndex input) lastIndex.

Definition inspect {A : Type} (a : A) : {b : A | a = b} := exist _ a eq_refl.

(** The loop of [RegExp.prototype[Symbol.replace]]: [exec] is called until
    it answers [null]; for a global pattern it leaves [lastIndex] at the end
    of the match, and after an empty match [lastIndex] advances by one; for a
    pattern that is not global the loop is done after the first result. *)
Equations? matchLoop (rer : RegExp) (input : jsstring) (lastIndex : nat)
  : list (nat * nat) by wf (S (length input) - lastIndex)%nat lt :=
  matchLoop rer input lastIndex with inspect (RegExpBuiltinExec rer input lastIndex) := {
    | exist _ None _ => [];
    | exist _ (Some (position, e)) Hexec with inspect (global rer) := {
        | exist _ true Hglobal =>
            (position, e) :: matchLoop rer input (if (e =? position)%nat then S e else e);
        | exist _ false _ => [(position, e)] } }.
Proof.
  assert (Hscan : forall rest k i e', execScan rer rest k = Some (i, e') ->
            (k <= i /\ i <= e' /\ i <= k + length rest)%nat).
  { induction rest as [|c rest IH]; intros k i e'; simpl;
      destruct (matcher rer (pattern rer) _); intros Hs; try discriminate.
    - injection Hs as <- <-. lia.
    - injection Hs as <- <-. lia.
    - apply IH in Hs. simpl. lia. }
  unfold RegExpBuiltinExec in Hexec. rewrite Hglobal in Hexec. cbv zeta in Hexec.
  destruct (length input <? lastIndex)%nat eqn:Hlt; [discriminate|].
  apply Nat.ltb_ge in Hlt. apply Hscan in Hexec.
  rewrite length_skipn in Hexec.
  destruct (e =? position)%nat eqn:He; [apply Nat.eqb_eq in He|apply Nat.eqb_neq in He]; lia.
Qed.

(** The second half of [RegExp.prototype[Symbol.replace]]: the pieces of the
    input between the matches, each followed by the replacement. *)
Fixpoint buildResult (input replacement : jsstring) (results : list (nat * nat))
    (nextSourcePosition : nat) (accumulatedResult : jsstring) : jsstring :=
  match results with
  | [] =>
      if (length input <=? nextSourcePosition)%nat then accumulatedResult
      else accumulatedResult ++ skipn nextSourcePosition input
  | (position, e) :: results' =>
      if (nextSourcePosition <=? position)%nat
      then buildResult input replacement results' e
             (accumulatedResult
                ++ firstn (position - nextSourcePosition) (skipn nextSourcePosition input)
                ++ replacement)
      else buildResult input replacement results' nextSourcePosition accumulatedResult
  end.

(** [input.replace(rx, replaceValue)] for a replacement text without [$]
    (a [$] would start a substitution pattern, which is not modelled).  For a
    global pattern the search starts at [lastIndex] 0, whatever an earlier use
    of the same pattern object left there. *)
Definition String_replace (input : jsstring) (rx : RegExp) (replaceValue : jsstring)
  : jsstring :=
  let results :=
    if global rx then matchLoop rx input 0
    else match RegExpBuiltinExec rx input 0 with
         | Some r => [r]
         | None => []
         end in
  buildResult input replaceValue results 0 [].

(** ** content.js: the constants *)

Definition TEXT_TO_FIND : jsstring := str "Gulf of America".
Definition TEXT_TO_REPLACE_WITH : jsstring := str "Gulf of Mexico".

(** [new RegExp(TEXT_TO_FIND.replace(/[.*+?^${}()|[\]\\]/g, '\\$&'), 'gi')] *)
Definition SEARCH_REGEX_compiled : option RegExp :=
  RegExp_new (escapeRegExp TEXT_TO_FIND) true true.

Definition SEARCH_REGEX : RegExp :=
  match SEARCH_REGEX_compiled with
  | Some rx => rx
  | None => mkRegExp [] true true
  end.

Definition EXCLUDED_TAGS : list jsstring :=
  [str "SCRIPT"; str "STYLE"; str "NOSCRIPT"; str "TEXTAREA"; str "INPUT";
   str "IFRAME"; str "CANVAS"; str "CODE"; str "SVG"; str "MATH"].

(** The rewrite engine: [originalValue.replace(SEARCH_REGEX, TEXT_TO_REPLACE_WITH)]. *)
Definition rewrite_text (originalValue : jsstring) : jsstring :=
  String_replace originalValue SEARCH_REGEX TEXT_TO_REPLACE_WITH.

(** ** content.js: the functions *)

(** The [while] loop of [shouldSkipNode]. *)
Fixpoint ancestorLoop (fuel : nat) (currentElement : option NodeId) : M bool :=
  match currentElement with
  | None => ret false
  | Some e =>
      n <- getNode e ;;
      if nodeType n =? ELEMENT_NODE then
        if includes EXCLUDED_TAGS (toUpperCase (tagName n)) then ret true
        else if isContentEditable n then ret true
        else match fuel with
             | O => outOfFuel
             | S fuel' => ancestorLoop fuel' (parentNode n)
             end
      else ret false
  end.

Definition shouldSkipNode (fuel : nat) (textNode : NodeId) : M bool :=
  n <- getNode textNode ;;
  ancestorLoop fuel (parentNode n).

Definition checkAndReplaceInTextNode (fuel : nat) (textNode : NodeId) : M unit :=
  skip <- shouldSkipNode fuel textNode ;;
  if skip then ret tt
  else
    n <- getNode textNode ;;
    match nodeValue n with
    | None => throw TypeError
    | Some originalValue =>
        let newValue := rewrite_text originalValue in
        if negb (jsstring_eqb newValue originalValue)
        then setNodeValue textNode newValue
        else ret tt
    end.

(** [while (currentNode = treeWalker.nextNode()) nodesToModify.push(currentNode)] *)
Fixpoint collectLoop (fuel : nat) (treeWalker : TreeWalker) (nodesToModify : list NodeId)
  : M (list NodeId) :=
  match fuel with
  | O => outOfFuel
  | S fuel' =>
      r <- nextNode fuel' treeWalker ;;
      match fst r with
      | None => ret nodesToModify
      | Some node => collectLoop fuel' (snd r) (nodesToModify ++ [node])
      end
  end.

Definition processNodes (fuel : nat) (rootNode : option NodeId) : M unit :=
  match rootNode with
  | None => ret tt
  | Some r =>
      n <- getNode r ;;
      if (nodeType n =? ELEMENT_NODE)
         && (includes EXCLUDED_TAGS (toUpperCase (tagName n)) || isContentEditable n)
      then ret tt
      else
        let treeWalker := createTreeWalker r SHOW_TEXT in
        nodesToModify <- collectLoop fuel treeWalker [] ;;
        forEach (checkAndReplaceInTextNode fuel) nodesToModify
  end.

Inductive MutationType := childList | characterData | attributes.

Record MutationRecord := mkMutationRecord {
  type : MutationType;
  target : NodeId;
  addedNodes : list NodeId
}.

(** The callback given to [new MutationObserver]. *)
Definition observer (fuel : nat) (mutationsList : list MutationRecord) : M unit :=
  forEach (fun mutation =>
             match type mutation with
             | childList =>
                 forEach (fun newNode => processNodes fuel (Some newNode))
                         (addedNodes mutation)
             | characterData => checkAndReplaceInTextNode fuel (target mutation)
             | attributes => ret tt
             end) mutationsList.

(** The initial run: [if (document.body) processNodes(document.body)];
    without a body the script only registers a listener for the time the
    document is ready. *)
Definition initialRun (fuel : nat) (body : option NodeId) : M unit :=
  match body with
  | Some b => processNodes fuel (Some b)
  | None => ret tt
  end.

End Unicode.

(** ** The words of the specification: occurrences of the phrase *)

(** Two code units are the same letter up to the case of the ASCII letters. *)
Definition same_letter (a b : N) : bool := ascii_upper a =? ascii_upper b.

(** [s] starts with [phrase], case-insensitively. *)
Fixpoint ci_prefix (phrase s : jsstring) : bool :=
  match phrase with
  | [] => true
  | a :: phrase' =>
      match s with
      | [] => false
      | c :: s' => same_letter a c && ci_prefix phrase' s'
      end
  end.

(** A case-insensitive occurrence of "Gulf of America" starts at index [i]. *)
Definition occurs_at (s : jsstring) (i : nat) : Prop :=
  ci_prefix TEXT_TO_FIND (skipn i s) = true.

(** The index of the leftmost occurrence. *)
Fixpoint first_occurrence (s : jsstring) : option nat :=
  if ci_prefix TEXT_TO_FIND s then Some O
  else match s with
       | [] => None
       | _ :: s' => option_map S (first_occurrence s')
       end.

(** [Rewritten s t]: [t] is [s] with every non-overlapping occurrence of the
    phrase, taken from the left, replaced by "Gulf of Mexico". *)
Inductive Rewritten : jsstring -> jsstring -> Prop :=
| Rewritten_none s :
    (forall i, ~ occurs_at s i) -> Rewritten s s
| Rewritten_hit s i t :
    occurs_at s i ->
    (forall j, (j < i)%nat -> ~ occurs_at s j) ->
    Rewritten (skipn (i + length TEXT_TO_FIND) s) t ->
    Rewritten s (firstn i s ++ TEXT_TO_REPLACE_WITH ++ t).

(** ** The words of the specification: the document tree *)

(** Two states of a node that differ at most in the text value. *)
Definition same_shape (n n' : Node) : Prop :=
  nodeType n' = nodeType n /\ tagName n' = tagName n
  /\ isContentEditable n' = isContentEditable n
  /\ parentNode n' = parentNode n /\ firstChild n' = firstChild n
  /\ nextSibling n' = nextSibling n /\ attrs n' = attrs n.

(** The structure of the document is the same in [d] and [d']: the same
    nodes, with the same categories, editability flags, links and attributes. *)
Definition structure_preserved (d d' : gmap NodeId Node) : Prop :=
  forall id, option_Forall2 same_shape (d !! id) (d' !! id).

(** Only the text values of the nodes in [Q] differ between [d] and [d']. *)
Definition writes_within (Q : NodeId -> Prop) (d d' : gmap NodeId Node) : Prop :=
  structure_preserved d d' /\ forall id, ~ Q id -> d' !! id = d !! id.

(** The chain of ancestors that starts at [cur] ends after finitely many
    parent links. *)
Inductive FiniteChain (d : gmap NodeId Node) : option NodeId -> Prop :=
| FiniteChain_end : FiniteChain d None
| FiniteChain_step e n :
    d !! e = Some n -> FiniteChain d (parentNode n) -> FiniteChain d (Some e).

Section Exclusion.

Variable nonascii_upper : N -> list N.

(** The element [n] is in the exclusion set or is editable. *)
Definition excluding (n : Node) : bool :=
  includes EXCLUDED_TAGS (toUpperCase nonascii_upper (tagName n)) || isContentEditable n.

(** Some element of the chain of ancestor elements that starts at [cur]
    excludes the text below it. *)
Inductive ExcludedAbove (d : gmap NodeId Node) : option NodeId -> Prop :=
| ExcludedAbove_here e n :
    d !! e = Some n -> nodeType n = ELEMENT_NODE -> excluding n = true ->
    ExcludedAbove d (Some e)
| ExcludedAbove_up e n :
    d !! e = Some n -> nodeType n = ELEMENT_NODE ->
    ExcludedAbove d (parentNode n) -> ExcludedAbove d (Some e).

(** The node [a] is on the chain of ancestors that starts at [cur]. *)
Inductive OnChain (d : gmap NodeId Node) : option NodeId -> NodeId -> Prop :=
| OnChain_here a : OnChain d (Some a) a
| OnChain_up e n a :
    d !! e = Some n -> OnChain d (parentNode n) a -> OnChain d (Some e) a.

(** The text unit [t] has an excluding ancestor element. *)
Definition Excluded (d : gmap NodeId Node) (t : NodeId) : Prop :=
  exists n, d !! t = Some n /\ ExcludedAbove d (parentNode n).

End Exclusion.

(** A forest of nodes in the first-child / next-sibling form of the DOM: a
    node, the forest of its children, and the forest of the siblings after it. *)
Inductive forest :=
| Leafless
| Tree (id : NodeId) (children : forest) (siblings : forest).

(** The first node of a forest, or [k] when the forest is empty. *)
Definition entry (f : forest) (k : option NodeId) : option NodeId :=
  match f with
  | Leafless => k
  | Tree id _ _ => Some id
  end.

(** The nodes of a forest in document order. *)
Fixpoint preorder (f : forest) : list NodeId :=
  match f with
  | Leafless => []
  | Tree id children siblings => id :: preorder children ++ preorder siblings
  end.

(** The heap [d] holds the forest [f] as the children of [parent], from some
    child on: the links of every node are those of the forest. *)
Fixpoint Shape (d : gmap NodeId Node) (parent : NodeId) (f : forest) : Prop :=
  match f with
  | Leafless => True
  | Tree id children siblings =>
      (exists n, d !! id = Some n
                 /\ parentNode n = Some parent
                 /\ firstChild n = entry children None
                 /\ nextSibling n = entry siblings None)
      /\ Shape d id children /\ Shape d parent siblings
  end.

(** The subtree below [r] is the forest [children]. *)
Definition Subtree (d : gmap NodeId Node) (r : NodeId) (children : forest) : Prop :=
  (exists n, d !! r = Some n /\ firstChild n = entry children None)
  /\ Shape d r children /\ ~ In r (preorder children).

(** The node at [id] is a text node. *)
Definition isTextNode (d : gmap NodeId Node) (id : NodeId) : bool :=
  match d !! id with
  | Some n => nodeType n =? TEXT_NODE
  | None => false
  end.

(** A computation that leaves the page as it found it. *)
Definition ReadOnly {A} (m : M A) : Prop := forall p, snd (m p) = p.

Section Traces.

Variable nonascii_upper : N -> list N.

(** The page after the value of [t], which was [n], is rewritten. *)
Definition rewritten_at (p : Page) (t : NodeId) (n : Node) (v : jsstring) : Page :=
  mkPage (<[t := withValue n (rewrite_text nonascii_upper v)]> (nodes p))
         (assigned p ++ [(t, rewrite_text nonascii_upper v)]).

(** [Rewrites Q p p']: the page [p'] comes from [p] by rewriting, one after
    the other, the values of units of [Q] that have no excluding ancestor and
    whose rewritten value differs from the value they hold. *)
Inductive Rewrites (Q : NodeId -> Prop) : Page -> Page -> Prop :=
| Rewrites_done p : Rewrites Q p p
| Rewrites_step p t n v p' :
    Q t -> nodes p !! t = Some n -> nodeValue n = Some v ->
    ~ Excluded nonascii_upper (nodes p) t ->
    rewrite_text nonascii_upper v <> v ->
    Rewrites Q (rewritten_at p t n v) p' ->
    Rewrites Q p p'.

(** A unit of the page [p] holds in [q] its value of [p] or the rewriting
    of that value. *)
Definition settled (p q : Page) : Prop :=
  forall t m v, nodes p !! t = Some m -> nodeValue m = Some v ->
    nodes q !! t = Some m
    \/ nodes q !! t = Some (withValue m (rewrite_text nonascii_upper v)).

(** The unit [t] holds in [q] the rewriting of its value of [p]. *)
Definition rewritten_in (p q : Page) (t : NodeId) : Prop :=
  exists m v, nodes p !! t = Some m /\ nodeValue m = Some v
              /\ nodes q !! t = Some (withValue m (rewrite_text nonascii_upper v)).

(** The unit [t] holds a string that the engine leaves as it is. *)
Definition fixed_at (p : Page) (t : NodeId) : Prop :=
  exists n w, nodes p !! t = Some n /\ nodeValue n = Some w
              /\ rewrite_text nonascii_upper w = w.

End Traces.

(** The records by which the platform reports assignments to [nodeValue]. *)
Definition notifications (writes : list (NodeId * jsstring)) : list MutationRecord :=
  map (fun w => mkMutationRecord characterData (fst w) []) writes.

(** A walker with the mask [show] shows the node at [x]. *)
Definition showsb (show : N) (d : gmap NodeId Node) (x : NodeId) : bool :=
  match d !! x with
  | Some n => N.testbit show (nodeType n - 1)
  | None => false
  end.

(** The units a batch of records may rewrite: the text nodes, and the targets
    of its [characterData] records. *)
Definition batch_units (p : Page) (mutationsList : list MutationRecord) (x : NodeId) : Prop :=
  isTextNode (nodes p) x = true
  \/ exists mutation, In mutation mutationsList
                      /\ type mutation = characterData /\ target mutation = x.

(** ** The words of the specification: document order *)

Section Order.

Variable d : gmap NodeId Node.
Variable r : NodeId.

(** [After x k]: the node that follows the whole subtree of [x] in document
    order, below the root [r], is [k]; there is none after the subtree of [r]. *)
Inductive After : NodeId -> option NodeId -> Prop :=
| After_root : After r None
| After_sibling x n s :
    x <> r -> d !! x = Some n -> nextSibling n = Some s -> After x (Some s)
| After_parent x n par k :
    x <> r -> d !! x = Some n -> nextSibling n = None -> parentNode n = Some par ->
    After par k -> After x k.

(** [Next x k]: the node that follows [x] itself: its first child, or else
    what follows its subtree. *)
Definition Next (x : NodeId) (k : option NodeId) : Prop :=
  exists n, d !! x = Some n
            /\ match firstChild n with
               | Some c => k = Some c
               | None => After x k
               end.

(** [Visit k l]: [l] lists, in document order, the nodes from [k] on. *)
Inductive Visit : option NodeId -> list NodeId -> Prop :=
| Visit_end : Visit None []
| Visit_node x k l : Next x k -> Visit k l -> Visit (Some x) (x :: l).

End Order.

(** A well-formed document: every chain of ancestors is finite, below every
    node hangs a tree, and every text node carries a string. *)
Definition WellFormed (d : gmap NodeId Node) : Prop :=
  forall id n, d !! id = Some n ->
    FiniteChain d (parentNode n)
    /\ (exists children, Subtree d id children)
    /\ (nodeType n = TEXT_NODE -> nodeValue n <> None).

(** A batch as the platform delivers it: the records name nodes of the
    document, and the target of a [characterData] record carries a string. *)
Definition WellFormedBatch (d : gmap NodeId Node) (mutationsList : list MutationRecord) : Prop :=
  forall mutation, In mutation mutationsList ->
    (forall x, In x (addedNodes mutation) -> d !! x <> None)
    /\ (type mutation = characterData ->
        exists n, d !! target mutation = Some n /\ nodeValue n <> None).

(** The structure is kept and no unit loses its string. *)
Definition keeps_text (d d' : gmap NodeId Node) : Prop :=
  structure_preserved d d'
  /\ forall id n n', d !! id = Some n -> d' !! id = Some n' ->
                     nodeValue n <> None -> nodeValue n' <> None.

(** ** The host: the document, its listeners and the observer *)

(** The options of [observer.observe]. *)
Record MutationObserverInit := mkMutationObserverInit {
  init_childList : bool;
  init_subtree : bool;
  init_characterData : bool
}.

(** The two arrow functions that the script registers for
    [DOMContentLoaded]: the one of the initial run and the one of
    [startObserver]. *)
Inductive Listener := sweepWhenLoaded | observeWhenLoaded.

(** The state of the host that the top level of the script reads and
    writes: the page, [document.body], the [DOMContentLoaded] listeners that
    the script has registered, in the order of registration, and the nodes on
    which the observer is registered, with their options. *)
Record Host := mkHost {
  page : Page;
  body : option NodeId;
  listeners : list Listener;
  observed : list (NodeId * MutationObserverInit)
}.

(** A computation on the page, run in the host. *)
Definition onPage {A} (m : M A) (h : Host) : Outcome A * Host :=
  (fst (m (page h)), mkHost (snd (m (page h))) (body h) (listeners h) (observed h)).

(** [document.addEventListener('DOMContentLoaded', listener, { once: true })] *)
Definition addEventListener (l : Listener) (h : Host) : Outcome unit * Host :=
  (Ok tt, mkHost (page h) (body h) (listeners h ++ [l]) (observed h)).

(** The registration list after [observe]: the options of a node that is
    observed already are replaced, another node is appended. *)
Fixpoint registered (target : NodeId) (options : MutationObserverInit)
    (l : list (NodeId * MutationObserverInit)) : list (NodeId * MutationObserverInit) :=
  match l with
  | [] => [(target, options)]
  | (t, o) :: l' =>
      if (t =? target)%nat then (target, options) :: l'
      else (t, o) :: registered target options l'
  end.

(** [observer.observe(target, options)] *)
Definition observe (target : NodeId) (options : MutationObserverInit) (h : Host)
  : Outcome unit * Host :=
  (Ok tt, mkHost (page h) (body h) (listeners h) (registered target options (observed h))).

(** [{ childList: true, subtree: true, characterData: true }] *)
Definition observerOptions : MutationObserverInit :=
  mkMutationObserverInit true true true.

Definition startObserver (h : Host) : Outcome unit * Host :=
  match body h with
  | Some b => observe b observerOptions h
  | None => addEventListener observeWhenLoaded h
  end.

Section Script.

Variable nonascii_upper : N -> list N.

(** The top level of the script: the initial run, then [startObserver()].
    A fault of the initial run ends the script. *)
Definition contentScript (fuel : nat) (h : Host) : Outcome unit * Host :=
  match (match body h with
         | Some b => onPage (processNodes nonascii_upper fuel (Some b)) h
         | None => addEventListener sweepWhenLoaded h
         end) with
  | (Ok _, h') => startObserver h'
  | (Throw f, h') => (Throw f, h')
  | (OutOfFuel, h') => (OutOfFuel, h')
  end.

(** The bodies of the two listeners. *)
Definition runListener (fuel : nat) (l : Listener) (h : Host) : Outcome unit * Host :=
  match l with
  | sweepWhenLoaded =>
      match body h with
      | Some b => onPage (processNodes nonascii_upper fuel (Some b)) h
      | None => (Ok tt, h)
      end
  | observeWhenLoaded =>
      match body h with
      | Some b => observe b observerOptions h
      | None => (Ok tt, h)
      end
  end.

(** The host invokes the listeners in the order of registration; it reports
    a fault of a listener and goes on with the next one. *)
Fixpoint invokeListeners (fuel : nat) (ls : list Listener) (h : Host)
  : Outcome unit * Host :=
  match ls with
  | [] => (Ok tt, h)
  | l :: ls' =>
      match runListener fuel l h with
      | (OutOfFuel, h') => (OutOfFuel, h')
      | (_, h') => invokeListeners fuel ls' h'
      end
  end.

(** The dispatch of [DOMContentLoaded]: the listeners were registered with
    [once], so they leave the list when they are invoked. *)
Definition DOMContentLoaded (fuel : nat) (h : Host) : Outcome unit * Host :=
  invokeListeners fuel (listeners h) (mkHost (page h) (body h) [] (observed h)).

End Script.

(** The document as the parser left it when the script ran without a body:
    the page has grown to [p] and the body is now [b]. *)
Definition parsed (h : Host) (p : Page) (b : option NodeId) : Host :=
  mkHost p b (listeners h) (observed h).

(** ** Example documents *)

(** A table that leaves every code point from 128 on as it is. *)
Definition identity_table (cp : N) : list N := [cp].

Definition element (tag : string) (editable : bool) (parent first next : option NodeId)
  : Node :=
  mkNode ELEMENT_NODE (str tag) editable None parent first next [].

Definition text (value : string) (parent next : option NodeId) : Node :=
  mkNode TEXT_NODE [] false (Some (str value)) parent None next [].

(** [<body><p>The <b>Gulf of America</b> is large.</p>
     <script>var x = "Gulf of America";</script></body>] *)
Definition gulf_nodes : gmap NodeId Node :=
  <[1%nat := element "BODY" false None (Some 2%nat) None]>
  (<[2%nat := element "P" false (Some 1%nat) (Some 3%nat) (Some 7%nat)]>
  (<[3%nat := text "The " (Some 2%nat) (Some 4%nat)]>
  (<[4%nat := element "B" false (Some 2%nat) (Some 5%nat) (Some 6%nat)]>
  (<[5%nat := text "Gulf of America" (Some 4%nat) None]>
  (<[6%nat := text " is large." (Some 2%nat) None]>
  (<[7%nat := element "script" false (Some 1%nat) (Some 8%nat) None]>
  (<[8%nat := text "var x = 'Gulf of America';" (Some 7%nat) None]> ∅))))))).

Definition gulf_page : Page := mkPage gulf_nodes [].

Definition gulf_children : forest :=
  Tree 2%nat
       (Tree 3%nat Leafless
          (Tree 4%nat (Tree 5%nat Leafless Leafless) (Tree 6%nat Leafless Leafless)))
       (Tree 7%nat (Tree 8%nat Leafless Leafless) Leafless).

(** [<body><p>Gulf of America</p></body>] *)
Definition small_nodes : gmap NodeId Node :=
  <[1%nat := element "BODY" false None (Some 2%nat) None]>
  (<[2%nat := element "P" false (Some 1%nat) (Some 3%nat) None]>
  (<[3%nat := text "Gulf of America" (Some 2%nat) None]> ∅)).

Definition small_page : Page := mkPage small_nodes [].

(** [<body><code><span><b>Gulf of America</b></span></code></body>] *)
Definition code_nodes : gmap NodeId Node :=
  <[1%nat := element "BODY" false None (Some 2%nat) None]>
  (<[2%nat := element "code" false (Some 1%nat) (Some 3%nat) None]>
  (<[3%nat := element "SPAN" false (Some 2%nat) (Some 4%nat) None]>
  (<[4%nat := element "B" false (Some 3%nat) (Some 5%nat) None]>
  (<[5%nat := text "Gulf of America" (Some 4%nat) None]> ∅)))).

Definition code_page : Page := mkPage code_nodes [].

(** [<body>Gulf of America</body>], the text node just appended to the body. *)
Definition bare_text_nodes : gmap NodeId Node :=
  <[1%nat := element "BODY" false None (Some 2%nat) None]>
  (<[2%nat := text "Gulf of America" (Some 1%nat) None]> ∅).

Definition bare_text_page : Page := mkPage bare_text_nodes [].

(** [Node.COMMENT_NODE]: a comment carries character data, as a text node
    does, and the platform reports a change of it by a [characterData]
    record. *)
Definition COMMENT_NODE : N := 8.

Definition comment (value : string) (parent next : option NodeId) : Node :=
  mkNode COMMENT_NODE [] false (Some (str value)) parent None next [].

(** [<body><!--Gulf of America--></body>], the data of the comment just set. *)
Definition comment_nodes : gmap NodeId Node :=
  <[1%nat := element "BODY" false None (Some 2%nat) None]>
  (<[2%nat := comment "Gulf of America" (Some 1%nat) None]> ∅).

Definition comment_page : Page := mkPage comment_nodes [].

(** A table that doubles every code point from 128 on. *)
Definition doubling_table (cp : N) : list N := [cp; cp].

(** * Properties of the rewrite engine *)

Lemma jsstring_eqb_eq (a b : jsstring) : jsstring_eqb a b = true <-> a = b.
Proof.
  revert b. induction a as [|x a IH]; intros [|y b]; simpl; split; intros H;
    try discriminate; try reflexivity.
  - apply andb_true_iff in H as [Hx Hab]. apply N.eqb_eq in Hx. apply IH in Hab.
    congruence.
  - injection H as -> ->. rewrite N.eqb_refl. simpl. apply IH. reflexivity.
Qed.

Lemma jsstring_eqb_refl (a : jsstring) : jsstring_eqb a a = true.
Proof. apply jsstring_eqb_eq. reflexivity. Qed.

Lemma ascii_upper_lt (a : N) : a < 128 -> ascii_upper a < 128.
Proof.
  unfold ascii_upper. intros H.
  destruct ((97 <=? a) && (a <=? 122)) eqn:E; [|exact H].
  apply andb_true_iff in E as [E1 E2]. apply N.leb_le in E1, E2. lia.
Qed.

Lemma ascii_upper_ge (a : N) : 128 <= a -> ascii_upper a = a.
Proof.
  unfold ascii_upper. intros H.
  destruct ((97 <=? a) && (a <=? 122)) eqn:E; [|reflexivity].
  apply andb_true_iff in E as [E1 E2]. apply N.leb_le in E1, E2. lia.
Qed.

Lemma SEARCH_REGEX_compiles :
  SEARCH_REGEX_compiled = Some SEARCH_REGEX
  /\ SEARCH_REGEX = mkRegExp TEXT_TO_FIND true true.
Proof. split; reflexivity. Qed.

Lemma replacement_is_literal : existsb (N.eqb 36) TEXT_TO_REPLACE_WITH = false.
Proof. reflexivity. Qed.

Section EngineFacts.

Variable up : N -> list N.

Lemma Canonicalize_ascii (a : N) :
  a < 128 -> Canonicalize up SEARCH_REGEX a = ascii_upper a.
Proof.
  intros Ha. unfold Canonicalize, toUppercase. simpl.
  apply N.ltb_lt in Ha as Ha'. rewrite Ha'. simpl.
  pose proof (ascii_upper_lt a Ha) as Hu.
  unfold UTF16EncodeCodePoint.
  replace (ascii_upper a <=? 65535) with true by (symmetry; apply N.leb_le; lia).
  simpl. replace (128 <=? a) with false by (symmetry; apply N.leb_gt; lia).
  reflexivity.
Qed.

Lemma Canonicalize_nonascii (ch : N) :
  128 <= ch -> 128 <= Canonicalize up SEARCH_REGEX ch.
Proof.
  intros Hc. unfold Canonicalize. simpl ignoreCase. cbv iota.
  destruct (CodePointsToString (toUppercase up [ch])) as [|cu [|? ?]]; try exact Hc.
  replace (128 <=? ch) with true by (symmetry; apply N.leb_le; lia). simpl.
  destruct (cu <? 128) eqn:E; [exact Hc|]. apply N.ltb_ge in E. exact E.
Qed.

(** Against an ASCII pattern character the pattern semantics compares
    letters up to ASCII case, whatever the table says. *)
Lemma Canonicalize_same_letter (a ch : N) :
  a < 128 ->
  (Canonicalize up SEARCH_REGEX a =? Canonicalize up SEARCH_REGEX ch) = same_letter a ch.
Proof.
  intros Ha. unfold same_letter. rewrite (Canonicalize_ascii a Ha).
  destruct (N.lt_ge_cases ch 128) as [Hc|Hc].
  - rewrite (Canonicalize_ascii ch Hc). reflexivity.
  - pose proof (Canonicalize_nonascii ch Hc) as Hn.
    pose proof (ascii_upper_lt a Ha) as Hu.
    rewrite (ascii_upper_ge ch Hc).
    transitivity false; [|symmetry]; apply N.eqb_neq; lia.
Qed.

Lemma matcher_ci_prefix (pat s : jsstring) :
  Forall (fun a => a < 128) pat ->
  matcher up SEARCH_REGEX pat s = ci_prefix pat s.
Proof.
  intros Hp. revert s. induction Hp as [|a pat Ha Hp IH]; intros s; simpl; [reflexivity|].
  destruct s as [|c s]; [reflexivity|].
  rewrite (Canonicalize_same_letter a c Ha), IH. reflexivity.
Qed.

Lemma TEXT_TO_FIND_ascii : Forall (fun a => a < 128) TEXT_TO_FIND.
Proof. repeat constructor. Qed.

Lemma execScan_first_occurrence (rest : jsstring) (k : nat) :
  execScan up SEARCH_REGEX rest k
  = option_map (fun i => ((k + i)%nat, (k + i + length TEXT_TO_FIND)%nat))
               (first_occurrence rest).
Proof.
  revert k. induction rest as [|c rest IH]; intros k.
  - cbn [execScan first_occurrence].
    change (pattern SEARCH_REGEX) with TEXT_TO_FIND.
    rewrite (matcher_ci_prefix _ _ TEXT_TO_FIND_ascii).
    destruct (ci_prefix TEXT_TO_FIND []); simpl; [|reflexivity].
    do 2 f_equal; lia.
  - cbn [execScan first_occurrence].
    change (pattern SEARCH_REGEX) with TEXT_TO_FIND.
    rewrite (matcher_ci_prefix _ _ TEXT_TO_FIND_ascii).
    destruct (ci_prefix TEXT_TO_FIND (c :: rest)).
    + simpl. do 2 f_equal; lia.
    + rewrite IH. destruct (first_occurrence rest) as [i|]; simpl; [|reflexivity].
      do 2 f_equal; lia.
Qed.

Lemma first_occurrence_Some (s : jsstring) (i : nat) :
  first_occurrence s = Some i ->
  occurs_at s i /\ (forall j, (j < i)%nat -> ~ occurs_at s j).
Proof.
  revert i. induction s as [|c s IH]; intros i; cbn [first_occurrence].
  - destruct (ci_prefix TEXT_TO_FIND []) eqn:E; [|discriminate].
    intros [= <-]. split; [exact E|]. intros j Hj. lia.
  - destruct (ci_prefix TEXT_TO_FIND (c :: s)) eqn:E.
    + intros [= <-]. split; [exact E|]. intros j Hj. lia.
    + destruct (first_occurrence s) as [i'|]; [|discriminate].
      intros [= <-]. destruct (IH i' eq_refl) as [Ho Hm]. split; [exact Ho|].
      intros [|j] Hj; unfold occurs_at; cbn [skipn].
      * rewrite E. discriminate.
      * apply Hm. lia.
Qed.

Lemma first_occurrence_None (s : jsstring) :
  first_occurrence s = None -> forall i, ~ occurs_at s i.
Proof.
  induction s as [|c s IH]; cbn [first_occurrence].
  - destruct (ci_prefix TEXT_TO_FIND []) eqn:E; [discriminate|].
    intros _ i. unfold occurs_at. rewrite skipn_nil, E. discriminate.
  - destruct (ci_prefix TEXT_TO_FIND (c :: s)) eqn:E; [discriminate|].
    destruct (first_occurrence s) as [i'|]; [discriminate|].
    intros _ [|i]; unfold occurs_at; cbn [skipn].
    + rewrite E. discriminate.
    + apply IH. reflexivity.
Qed.

Lemma first_occurrence_complete (s : jsstring) (i : nat) :
  occurs_at s i -> (forall j, (j < i)%nat -> ~ occurs_at s j) ->
  first_occurrence s = Some i.
Proof.
  intros Ho Hm. destruct (first_occurrence s) as [i'|] eqn:E.
  - destruct (first_occurrence_Some s i' E) as [Ho' Hm'].
    destruct (Nat.lt_trichotomy i i') as [H|[H|H]].
    + exfalso. exact (Hm' i H Ho).
    + congruence.
    + exfalso. exact (Hm i' H Ho').
  - exfalso. exact (first_occurrence_None s E i Ho).
Qed.

Lemma matchLoop_step (rer : RegExp) (input : jsstring) (k : nat) :
  global rer = true ->
  matchLoop up rer input k =
  match RegExpBuiltinExec up rer input k with
  | None => []
  | Some (p, e) => (p, e) :: matchLoop up rer input (if (e =? p)%nat then S e else e)
  end.
Proof.
  intros Hg. rewrite matchLoop_equation_1.
  destruct (inspect (RegExpBuiltinExec up rer input k)) as [[[p e]|] Heq];
    unfold matchLoop_unfold_clause_1.
  - unfold matchLoop_unfold_clause_1_clause_2.
    destruct (inspect (global rer)) as [[] Hg']; [|congruence].
    rewrite Heq. reflexivity.
  - rewrite Heq. reflexivity.
Qed.

(** For a pattern that is not global the loop is done after one call of
    [exec], which searches from the start. *)
Lemma matchLoop_not_global (rer : RegExp) (input : jsstring) (k : nat) :
  global rer = false ->
  matchLoop up rer input k =
  match RegExpBuiltinExec up rer input 0 with
  | None => []
  | Some r => [r]
  end.
Proof.
  intros Hg.
  assert (Hexec : RegExpBuiltinExec up rer input k = RegExpBuiltinExec up rer input 0).
  { unfold RegExpBuiltinExec. rewrite Hg. reflexivity. }
  rewrite <- Hexec, matchLoop_equation_1.
  destruct (inspect (RegExpBuiltinExec up rer input k)) as [[[p e]|] Heq];
    unfold matchLoop_unfold_clause_1.
  - unfold matchLoop_unfold_clause_1_clause_2.
    destruct (inspect (global rer)) as [[] Hg']; [congruence|].
    rewrite Heq. reflexivity.
  - rewrite Heq. reflexivity.
Qed.

(** [replace] is the loop followed by the building of the result, for a
    global pattern and for one that is not. *)
Lemma String_replace_matchLoop (input : jsstring) (rx : RegExp) (replaceValue : jsstring) :
  String_replace up input rx replaceValue
  = buildResult input replaceValue (matchLoop up rx input 0) 0 [].
Proof.
  unfold String_replace. destruct (global rx) eqn:Hg; [reflexivity|].
  rewrite (matchLoop_not_global rx input 0 Hg).
  destruct (RegExpBuiltinExec up rx input 0); reflexivity.
Qed.

Lemma ci_prefix_length (p s : jsstring) :
  ci_prefix p s = true -> (length p <= length s)%nat.
Proof.
  revert s. induction p as [|a p IH]; intros s; simpl; [lia|].
  destruct s as [|c s]; [discriminate|].
  intros H. apply andb_true_iff in H as [_ H]. apply IH in H. simpl. lia.
Qed.

Lemma occurs_at_bound (s : jsstring) (i : nat) :
  occurs_at s i -> (i + length TEXT_TO_FIND <= length s)%nat.
Proof.
  unfold occurs_at. intros H. apply ci_prefix_length in H.
  rewrite length_skipn in H.
  assert (0 < length TEXT_TO_FIND)%nat by (simpl; lia). lia.
Qed.

Lemma RegExpBuiltinExec_first_occurrence (s : jsstring) (k : nat) :
  (k <= length s)%nat ->
  RegExpBuiltinExec up SEARCH_REGEX s k
  = option_map (fun i => ((k + i)%nat, (k + i + length TEXT_TO_FIND)%nat))
               (first_occurrence (skipn k s)).
Proof.
  intros Hk. unfold RegExpBuiltinExec. change (global SEARCH_REGEX) with true. cbv iota zeta.
  replace (length s <? k)%nat with false by (symmetry; apply Nat.ltb_ge; exact Hk).
  apply execScan_first_occurrence.
Qed.

(** The two halves of [replace] together, started at [k] with [acc] built
    so far, add the rewritten rest of the input. *)
Lemma engine_loop (s' t : jsstring) :
  Rewritten s' t ->
  forall (s : jsstring) (k : nat) (acc : jsstring),
    s' = skipn k s -> (k <= length s)%nat ->
    buildResult s TEXT_TO_REPLACE_WITH (matchLoop up SEARCH_REGEX s k) k acc = acc ++ t.
Proof.
  induction 1 as [s' Hno|s' i t Hocc Hmin Hrest IH]; intros s k acc Hs Hk.
  - rewrite (matchLoop_step SEARCH_REGEX _ _ eq_refl), (RegExpBuiltinExec_first_occurrence s k Hk), <- Hs.
    destruct (first_occurrence s') as [i|] eqn:E.
    { exfalso. apply first_occurrence_Some in E as [E _]. exact (Hno i E). }
    cbn [option_map buildResult].
    destruct (length s <=? k)%nat eqn:El; [|rewrite Hs; reflexivity].
    apply Nat.leb_le in El. rewrite Hs, skipn_all2 by exact El.
    rewrite app_nil_r. reflexivity.
  - rewrite (matchLoop_step SEARCH_REGEX _ _ eq_refl), (RegExpBuiltinExec_first_occurrence s k Hk), <- Hs.
    rewrite (first_occurrence_complete s' i Hocc Hmin).
    cbn [option_map buildResult].
    pose proof (occurs_at_bound s' i Hocc) as Hb.
    rewrite Hs, length_skipn in Hb.
    assert (Hlen : (0 < length TEXT_TO_FIND)%nat) by (simpl; lia).
    replace (k + i + length TEXT_TO_FIND =? k + i)%nat with false
      by (symmetry; apply Nat.eqb_neq; lia).
    replace (k <=? k + i)%nat with true by (symmetry; apply Nat.leb_le; lia).
    replace (k + i - k)%nat with i by lia.
    rewrite (IH s (k + i + length TEXT_TO_FIND)%nat).
    + rewrite <- Hs, <- !app_assoc. reflexivity.
    + rewrite Hs, skipn_skipn. f_equal. lia.
    + lia.
Qed.

Lemma Rewritten_total (s : jsstring) : exists t, Rewritten s t.
Proof.
  remember (length s) as n eqn:Hn. revert s Hn.
  induction n as [n IH] using lt_wf_ind. intros s Hn.
  destruct (first_occurrence s) as [i|] eqn:E.
  - destruct (first_occurrence_Some s i E) as [Ho Hm].
    pose proof (occurs_at_bound s i Ho) as Hb.
    assert (Hlen : (0 < length TEXT_TO_FIND)%nat) by (simpl; lia).
    destruct (IH (length (skipn (i + length TEXT_TO_FIND) s))) with
        (s := skipn (i + length TEXT_TO_FIND) s) as [t Ht].
    { rewrite length_skipn. lia. }
    { reflexivity. }
    eexists. eapply Rewritten_hit; eassumption.
  - exists s. apply Rewritten_none. apply first_occurrence_None. exact E.
Qed.

Lemma Rewritten_functional (s t t' : jsstring) :
  Rewritten s t -> Rewritten s t' -> t = t'.
Proof.
  intros H. revert t'. induction H as [s Hno|s i t Hocc Hmin Hrest IH]; intros t' H'.
  - inversion H' as [s0 Hno'|s0 i' t0 Hocc' Hmin' Hrest']; subst; [reflexivity|].
    exfalso. exact (Hno i' Hocc').
  - inversion H' as [s0 Hno'|s0 i' t0 Hocc' Hmin' Hrest']; subst.
    + exfalso. exact (Hno' i Hocc).
    + assert (i' = i) as ->.
      { destruct (Nat.lt_trichotomy i i') as [Hl|[Hl|Hl]]; [|congruence|].
        - exfalso. exact (Hmin' i Hl Hocc).
        - exfalso. exact (Hmin i' Hl Hocc'). }
      rewrite (IH t0 Hrest'). reflexivity.
Qed.

(** The engine computes the rewriting of the specification. *)
Lemma rewrite_text_Rewritten (s : jsstring) : Rewritten s (rewrite_text up s).
Proof.
  destruct (Rewritten_total s) as [t Ht].
  replace (rewrite_text up s) with t; [exact Ht|].
  unfold rewrite_text, String_replace. change (global SEARCH_REGEX) with true. cbv iota.
  rewrite (engine_loop s t Ht s 0 []); [reflexivity|reflexivity|lia].
Qed.

Lemma Rewritten_length (s t : jsstring) :
  Rewritten s t -> (length t <= length s)%nat /\ (t = s \/ (length t < length s)%nat).
Proof.
  induction 1 as [s Hno|s i t Hocc Hmin Hrest [IH _]].
  - split; [lia|left; reflexivity].
  - pose proof (occurs_at_bound s i Hocc) as Hb.
    rewrite length_skipn in IH.
    assert (Hl : (length (firstn i s ++ TEXT_TO_REPLACE_WITH ++ t) < length s)%nat).
    { rewrite !length_app, length_firstn.
      change (length TEXT_TO_REPLACE_WITH) with 14%nat.
      change (length TEXT_TO_FIND) with 15%nat in *. lia. }
    split; [lia|right; exact Hl].
Qed.

Lemma Rewritten_shrinks (s t : jsstring) :
  Rewritten s t -> (exists i, occurs_at s i) -> (length t < length s)%nat.
Proof.
  intros H [i Hi]. destruct H as [s Hno|s j t Hocc Hmin Hrest].
  - exfalso. exact (Hno i Hi).
  - destruct (Rewritten_length _ _ Hrest) as [Hle _].
    pose proof (occurs_at_bound s j Hocc) as Hb.
    rewrite length_skipn in Hle.
    rewrite !length_app, length_firstn.
    change (length TEXT_TO_REPLACE_WITH) with 14%nat.
    change (length TEXT_TO_FIND) with 15%nat in *. lia.
Qed.

End EngineFacts.

(** ** The replacement never brings back the phrase *)

Lemma ci_prefix_app_short (p x y : jsstring) :
  ci_prefix p (x ++ y) = true -> (length x <= length p)%nat ->
  ci_prefix (skipn (length x) p) y = true.
Proof.
  revert p. induction x as [|c x IH]; intros p H Hl; [exact H|].
  destruct p as [|a p]; [simpl in Hl; lia|].
  simpl in H. apply andb_true_iff in H as [_ H].
  simpl. apply IH; [exact H|simpl in Hl; lia].
Qed.

Lemma ci_prefix_app_long (p x y y' : jsstring) :
  (length p <= length x)%nat -> ci_prefix p (x ++ y) = ci_prefix p (x ++ y').
Proof.
  revert x. induction p as [|a p IH]; intros x Hl; [reflexivity|].
  destruct x as [|c x]; [simpl in Hl; lia|].
  simpl. rewrite (IH x); [reflexivity|simpl in Hl; lia].
Qed.

(** No occurrence starts before a copy of the replacement and runs into it:
    the phrase has its only "G" in front. *)
Lemma no_match_into_replacement (k : nat) (y : jsstring) :
  (1 <= k <= 14)%nat ->
  ci_prefix (skipn k TEXT_TO_FIND) (TEXT_TO_REPLACE_WITH ++ y) = false.
Proof.
  intros Hk.
  do 15 (destruct k as [|k]; [try lia; reflexivity|]). lia.
Qed.

(** No occurrence starts inside a copy of the replacement: at its start the
    "M" of Mexico stands where the "A" of America should, later no "G" is left. *)
Lemma no_match_inside_replacement (j : nat) (y : jsstring) :
  (j < 14)%nat ->
  ci_prefix TEXT_TO_FIND (skipn j TEXT_TO_REPLACE_WITH ++ y) = false.
Proof.
  intros Hj.
  do 14 (destruct j as [|j]; [reflexivity|]). lia.
Qed.

Lemma Rewritten_no_occurrence (s t : jsstring) :
  Rewritten s t -> forall p, ~ occurs_at t p.
Proof.
  induction 1 as [s Hno|s i t Hocc Hmin Hrest IH]; intros p; [apply Hno|].
  pose proof (occurs_at_bound s i Hocc) as Hb.
  change (length TEXT_TO_FIND) with 15%nat in Hb.
  assert (Hu : length (firstn i s) = i) by (rewrite length_firstn; lia).
  unfold occurs_at. intros Hp.
  rewrite skipn_app, Hu in Hp.
  destruct (Nat.le_gt_cases i p) as [Hip|Hip].
  - (* the window starts at or after the replacement *)
    rewrite skipn_all2 in Hp by lia. cbn [app] in Hp.
    rewrite skipn_app in Hp. change (length TEXT_TO_REPLACE_WITH) with 14%nat in Hp.
    destruct (Nat.le_gt_cases 14 (p - i)) as [Hj|Hj].
    + rewrite skipn_all2 in Hp by (change (length TEXT_TO_REPLACE_WITH) with 14%nat; lia).
      cbn [app] in Hp. exact (IH _ Hp).
    + replace (p - i - 14)%nat with 0%nat in Hp by lia. rewrite skipn_O in Hp.
      rewrite no_match_inside_replacement in Hp by exact Hj. discriminate.
  - (* the window starts before the replacement *)
    replace (p - i)%nat with 0%nat in Hp by lia. rewrite skipn_O in Hp.
    destruct (Nat.le_gt_cases 15 (i - p)) as [Hw|Hw].
    + (* and ends before it: it is an occurrence of the input *)
      apply (Hmin p Hip). unfold occurs_at.
      rewrite <- (firstn_skipn i s) at 1. rewrite skipn_app, Hu.
      replace (p - i)%nat with 0%nat by lia. rewrite skipn_O.
      rewrite <- Hp. apply ci_prefix_app_long.
      rewrite length_skipn, Hu. change (length TEXT_TO_FIND) with 15%nat. lia.
    + apply ci_prefix_app_short in Hp.
      * rewrite length_skipn, Hu in Hp.
        rewrite no_match_into_replacement in Hp by lia. discriminate.
      * rewrite length_skipn, Hu. change (length TEXT_TO_FIND) with 15%nat. lia.
Qed.

(** The engine is idempotent. *)
Lemma engine_idempotent (up : N -> list N) (s : jsstring) :
  (forall i, ~ occurs_at (rewrite_text up s) i)
  /\ rewrite_text up (rewrite_text up s) = rewrite_text up s.
Proof.
  assert (Hno : forall i, ~ occurs_at (rewrite_text up s) i).
  { apply (Rewritten_no_occurrence s). apply rewrite_text_Rewritten. }
  split; [exact Hno|].
  eapply Rewritten_functional; [apply rewrite_text_Rewritten|].
  constructor. exact Hno.
Qed.

(** * Properties of the page computations *)

#[local] Arguments includes : simpl never.
#[local] Arguments toUpperCase : simpl never.
#[local] Arguments rewrite_text : simpl never.

Lemma ReadOnly_ret {A} (a : A) : ReadOnly (ret a).
Proof. intros p. reflexivity. Qed.

Lemma ReadOnly_throw {A} (f : Fault) : ReadOnly (@throw A f).
Proof. intros p. reflexivity. Qed.

Lemma ReadOnly_outOfFuel {A} : ReadOnly (@outOfFuel A).
Proof. intros p. reflexivity. Qed.

Lemma ReadOnly_getNode (id : NodeId) : ReadOnly (getNode id).
Proof. intros p. unfold getNode. destruct (nodes p !! id); reflexivity. Qed.

Lemma ReadOnly_bind {A B} (m : M A) (k : A -> M B) :
  ReadOnly m -> (forall a, ReadOnly (k a)) -> ReadOnly (bind m k).
Proof.
  intros Hm Hk p. unfold bind. specialize (Hm p).
  destruct (m p) as [[a|f|] p']; simpl in Hm; subst p'; [apply Hk|reflexivity|reflexivity].
Qed.

Create HintDb readonly.
#[local] Hint Resolve ReadOnly_ret ReadOnly_throw ReadOnly_outOfFuel ReadOnly_getNode
  ReadOnly_bind : readonly.

Lemma getNode_Some (id : NodeId) (p : Page) (n : Node) :
  nodes p !! id = Some n -> getNode id p = (Ok n, p).
Proof. intros H. unfold getNode. rewrite H. reflexivity. Qed.

Lemma getNode_None (id : NodeId) (p : Page) :
  nodes p !! id = None -> getNode id p = (Throw TypeError, p).
Proof. intros H. unfold getNode. rewrite H. reflexivity. Qed.

Lemma bind_getNode {B} (id : NodeId) (k : Node -> M B) (p : Page) :
  bind (getNode id) k p =
  match nodes p !! id with
  | Some n => k n p
  | None => (Throw TypeError, p)
  end.
Proof. unfold bind, getNode. destruct (nodes p !! id); reflexivity. Qed.

(** A read-only computation in front only contributes its result. *)
Lemma bind_ReadOnly {A B} (m : M A) (k : A -> M B) (p : Page) :
  ReadOnly m ->
  bind m k p =
  match fst (m p) with
  | Ok a => k a p
  | Throw f => (Throw f, p)
  | OutOfFuel => (OutOfFuel, p)
  end.
Proof.
  intros Hm. unfold bind. specialize (Hm p).
  destruct (m p) as [[a|f|] p']; simpl in *; subst p'; reflexivity.
Qed.

Lemma ReadOnly_climb (fuel : nat) (r : NodeId) (t : option NodeId) :
  ReadOnly (climb fuel r t).
Proof.
  revert t. induction fuel as [|fuel IH]; intros [t|]; simpl; auto with readonly;
    destruct (t =? r)%nat; auto with readonly;
    apply ReadOnly_bind; auto with readonly; intros n;
    destruct (nextSibling n); auto with readonly.
Qed.

Lemma ReadOnly_nextNodeLoop (fuel : nat) (tw : TreeWalker) (node : NodeId)
    (result : FilterResult) :
  ReadOnly (nextNodeLoop fuel tw node result).
Proof.
  revert node result. induction fuel as [|fuel IH]; intros node result; simpl;
    auto with readonly.
  apply ReadOnly_bind; auto with readonly. intros n.
  destruct (match result with FILTER_REJECT => None | _ => firstChild n end) as [child|].
  - apply ReadOnly_bind; auto with readonly. intros c.
    destruct (filterNode tw c); auto with readonly.
  - apply ReadOnly_bind; [apply ReadOnly_climb|]. intros [sibling| |].
    + apply ReadOnly_bind; auto with readonly. intros s.
      destruct (filterNode tw s); auto with readonly.
    + auto with readonly.
    + destruct (filterNode tw n); auto with readonly.
Qed.

Lemma ReadOnly_nextNode (fuel : nat) (tw : TreeWalker) : ReadOnly (nextNode fuel tw).
Proof. apply ReadOnly_nextNodeLoop. Qed.

Lemma ReadOnly_collectLoop (fuel : nat) (tw : TreeWalker) (acc : list NodeId) :
  ReadOnly (collectLoop fuel tw acc).
Proof.
  revert tw acc. induction fuel as [|fuel IH]; intros tw acc; simpl; auto with readonly.
  apply ReadOnly_bind; [apply ReadOnly_nextNode|]. intros [[node|] tw']; simpl;
    auto with readonly.
Qed.

Section FilterFacts.

Variable up : N -> list N.

Lemma ReadOnly_ancestorLoop (fuel : nat) (cur : option NodeId) :
  ReadOnly (ancestorLoop up fuel cur).
Proof.
  revert cur. induction fuel as [|fuel IH]; intros [e|]; simpl; auto with readonly;
    apply ReadOnly_bind; auto with readonly; intros n;
    destruct (nodeType n =? ELEMENT_NODE); auto with readonly;
    destruct (includes EXCLUDED_TAGS (toUpperCase up (tagName n))); auto with readonly;
    destruct (isContentEditable n); auto with readonly.
Qed.

Lemma ReadOnly_shouldSkipNode (fuel : nat) (t : NodeId) :
  ReadOnly (shouldSkipNode up fuel t).
Proof.
  unfold shouldSkipNode. apply ReadOnly_bind; auto with readonly.
  intros n. apply ReadOnly_ancestorLoop.
Qed.

(** What one call of [checkAndReplaceInTextNode] does to the page: nothing,
    or one assignment of the rewritten value, which differs from the old one,
    to a unit that the filter let through. *)
Lemma checkAndReplaceInTextNode_effect (fuel : nat) (t : NodeId) (p : Page) :
  snd (checkAndReplaceInTextNode up fuel t p) = p
  \/ exists n v,
       nodes p !! t = Some n /\ nodeValue n = Some v
       /\ fst (shouldSkipNode up fuel t p) = Ok false
       /\ rewrite_text up v <> v
       /\ checkAndReplaceInTextNode up fuel t p
          = (Ok tt, mkPage (<[t := withValue n (rewrite_text up v)]> (nodes p))
                           (assigned p ++ [(t, rewrite_text up v)])).
Proof.
  unfold checkAndReplaceInTextNode.
  rewrite (bind_ReadOnly _ _ p (ReadOnly_shouldSkipNode fuel t)).
  destruct (fst (shouldSkipNode up fuel t p)) as [[|]|f|] eqn:Hskip;
    try (left; reflexivity).
  rewrite bind_getNode.
  destruct (nodes p !! t) as [n|] eqn:Hn; [|left; reflexivity].
  destruct (nodeValue n) as [v|] eqn:Hv; [|left; reflexivity].
  destruct (jsstring_eqb (rewrite_text up v) v) eqn:E; simpl; [left; reflexivity|].
  right. exists n, v. repeat split; try assumption.
  - intros Heq. rewrite Heq, jsstring_eqb_refl in E. discriminate.
  - unfold setNodeValue. rewrite Hn. reflexivity.
Qed.

(** The handler on a unit that the filter lets through and whose value the
    engine changes: one assignment. *)
Lemma checkAndReplaceInTextNode_writes (fuel : nat) (t : NodeId) (p : Page) (n : Node)
    (v : jsstring) :
  nodes p !! t = Some n -> nodeValue n = Some v ->
  fst (shouldSkipNode up fuel t p) = Ok false -> rewrite_text up v <> v ->
  checkAndReplaceInTextNode up fuel t p = (Ok tt, rewritten_at up p t n v).
Proof.
  intros Hn Hv Hskip Hne. unfold checkAndReplaceInTextNode.
  rewrite (bind_ReadOnly _ _ p (ReadOnly_shouldSkipNode fuel t)), Hskip.
  rewrite bind_getNode, Hn, Hv.
  replace (jsstring_eqb (rewrite_text up v) v) with false.
  - cbn [negb]. unfold setNodeValue. rewrite Hn. reflexivity.
  - symmetry. destruct (jsstring_eqb (rewrite_text up v) v) eqn:E; [|reflexivity].
    apply jsstring_eqb_eq in E. contradiction.
Qed.

(** ** The structure of the document *)

Lemma same_shape_refl (n : Node) : same_shape n n.
Proof. repeat split. Qed.

Lemma same_shape_sym (n n' : Node) : same_shape n n' -> same_shape n' n.
Proof. unfold same_shape. intuition congruence. Qed.

Lemma same_shape_trans (n n' n'' : Node) :
  same_shape n n' -> same_shape n' n'' -> same_shape n n''.
Proof. unfold same_shape. intuition congruence. Qed.

Lemma same_shape_withValue (n : Node) (v : jsstring) : same_shape n (withValue n v).
Proof. repeat split. Qed.

Lemma structure_preserved_refl (d : gmap NodeId Node) : structure_preserved d d.
Proof. intros id. destruct (d !! id); constructor. apply same_shape_refl. Qed.

Lemma structure_preserved_sym (d d' : gmap NodeId Node) :
  structure_preserved d d' -> structure_preserved d' d.
Proof.
  intros H id. specialize (H id). inversion H; constructor.
  apply same_shape_sym. assumption.
Qed.

Lemma structure_preserved_trans (d d' d'' : gmap NodeId Node) :
  structure_preserved d d' -> structure_preserved d' d'' -> structure_preserved d d''.
Proof.
  intros H H' id. specialize (H id). specialize (H' id).
  inversion H as [n n' Hs Hn Hn'|Hn Hn']; rewrite <- Hn' in H';
    inversion H' as [m m' Hs' Hm Hm'|Hm Hm']; constructor.
  eapply same_shape_trans; eassumption.
Qed.

Lemma structure_preserved_insert (d : gmap NodeId Node) (t : NodeId) (n : Node)
    (v : jsstring) :
  d !! t = Some n -> structure_preserved d (<[t := withValue n v]> d).
Proof.
  intros Hn id. destruct (decide (t = id)) as [<-|Hne].
  - rewrite lookup_insert_eq, Hn. constructor. apply same_shape_withValue.
  - rewrite lookup_insert_ne by exact Hne. destruct (d !! id); constructor.
    apply same_shape_refl.
Qed.

Lemma structure_preserved_lookup (d d' : gmap NodeId Node) (id : NodeId) (n : Node) :
  structure_preserved d d' -> d !! id = Some n ->
  exists n', d' !! id = Some n' /\ same_shape n n'.
Proof.
  intros H Hn. specialize (H id). rewrite Hn in H. inversion H as [m m' Hs Hm Hm'|].
  exists m'. split; [reflexivity|exact Hs].
Qed.

Lemma structure_preserved_lookup_None (d d' : gmap NodeId Node) (id : NodeId) :
  structure_preserved d d' -> d !! id = None -> d' !! id = None.
Proof.
  intros H Hn. specialize (H id). rewrite Hn in H. inversion H. reflexivity.
Qed.

Lemma structure_preserved_dom (d d' : gmap NodeId Node) :
  structure_preserved d d' -> dom d' = dom d.
Proof.
  intros H. apply set_eq. intros id. rewrite !elem_of_dom.
  specialize (H id). inversion H as [n n' Hs Hn Hn'|Hn Hn']; split; intros [x Hx];
    try discriminate; eauto.
Qed.

Lemma isTextNode_structure (d d' : gmap NodeId Node) (id : NodeId) :
  structure_preserved d d' -> isTextNode d' id = isTextNode d id.
Proof.
  intros H. unfold isTextNode. specialize (H id).
  inversion H as [n n' Hs Hn Hn'|Hn Hn']; [|reflexivity].
  destruct Hs as [-> _]. reflexivity.
Qed.

Lemma excluding_same_shape (n n' : Node) :
  same_shape n n' -> excluding up n' = excluding up n.
Proof. intros (_ & Ht & He & _). unfold excluding. rewrite Ht, He. reflexivity. Qed.

Lemma ExcludedAbove_structure (d d' : gmap NodeId Node) (cur : option NodeId) :
  structure_preserved d d' -> ExcludedAbove up d cur -> ExcludedAbove up d' cur.
Proof.
  intros H. induction 1 as [e n Hn Ht Hx|e n Hn Ht Hup IH];
    destruct (structure_preserved_lookup d d' e n H Hn) as [n' [Hn' Hs]];
    pose proof (excluding_same_shape n n' Hs) as Hex;
    destruct Hs as (Hty & _ & _ & Hpar & _).
  - eapply ExcludedAbove_here; [exact Hn'|congruence|congruence].
  - eapply ExcludedAbove_up; [exact Hn'|congruence|]. rewrite Hpar. exact IH.
Qed.

Lemma Excluded_structure (d d' : gmap NodeId Node) (t : NodeId) :
  structure_preserved d d' -> Excluded up d t -> Excluded up d' t.
Proof.
  intros H [n [Hn Hx]].
  destruct (structure_preserved_lookup d d' t n H Hn) as [n' [Hn' Hs]].
  exists n'. split; [exact Hn'|].
  destruct Hs as (_ & _ & _ & -> & _). eapply ExcludedAbove_structure; eassumption.
Qed.

(** In a document tree the nodes of a chain of ancestors are elements, but
    for a document or a fragment that ends the chain; there every excluding
    element of the chain is reached through elements. *)
Lemma excluding_ancestor_ExcludedAbove (d : gmap NodeId Node) (cur : option NodeId)
    (a : NodeId) (na : Node) :
  OnChain d cur a ->
  d !! a = Some na -> nodeType na = ELEMENT_NODE -> excluding up na = true ->
  (forall e n, OnChain d cur e -> d !! e = Some n ->
               nodeType n <> ELEMENT_NODE -> parentNode n = None) ->
  ExcludedAbove up d cur.
Proof.
  induction 1 as [a|e n a Hn Hchain IH]; intros Ha Hty Hx Hroots.
  - eapply ExcludedAbove_here; eassumption.
  - destruct (N.eq_dec (nodeType n) ELEMENT_NODE) as [He|He].
    + eapply ExcludedAbove_up; [exact Hn|exact He|].
      apply IH; try assumption.
      intros e' n' Hon. apply Hroots. eapply OnChain_up; eassumption.
    + exfalso. rewrite (Hroots e n (OnChain_here d e) Hn He) in Hchain.
      inversion Hchain.
Qed.

(** ** The ancestor walk *)

Lemma ancestorLoop_unfold (fuel : nat) (e : NodeId) (p : Page) :
  ancestorLoop up fuel (Some e) p =
  match nodes p !! e with
  | None => (Throw TypeError, p)
  | Some n =>
      if nodeType n =? ELEMENT_NODE then
        if excluding up n then (Ok true, p)
        else match fuel with
             | O => (OutOfFuel, p)
             | S fuel' => ancestorLoop up fuel' (parentNode n) p
             end
      else (Ok false, p)
  end.
Proof.
  destruct fuel; cbn [ancestorLoop]; rewrite bind_getNode;
    destruct (nodes p !! e) as [n|]; try reflexivity;
    destruct (nodeType n =? ELEMENT_NODE); try reflexivity;
    unfold excluding;
    destruct (includes EXCLUDED_TAGS (toUpperCase up (tagName n))); try reflexivity;
    destruct (isContentEditable n); reflexivity.
Qed.

Lemma ancestorLoop_null (fuel : nat) (p : Page) :
  ancestorLoop up fuel None p = (Ok false, p).
Proof. destruct fuel; reflexivity. Qed.

Lemma shouldSkipNode_unfold (fuel : nat) (t : NodeId) (p : Page) :
  shouldSkipNode up fuel t p =
  match nodes p !! t with
  | None => (Throw TypeError, p)
  | Some n => ancestorLoop up fuel (parentNode n) p
  end.
Proof. unfold shouldSkipNode. rewrite bind_getNode. reflexivity. Qed.

(** The walk ends on every finite chain of ancestors. *)
Lemma ancestorLoop_terminates (p : Page) (cur : option NodeId) :
  FiniteChain (nodes p) cur ->
  exists fuel0 b, forall fuel, (fuel0 <= fuel)%nat ->
    ancestorLoop up fuel cur p = (Ok b, p).
Proof.
  induction 1 as [|e n Hn Hchain (fuel0 & b & IH)].
  - exists O, false. intros fuel _. apply ancestorLoop_null.
  - destruct (nodeType n =? ELEMENT_NODE) eqn:Ht.
    + destruct (excluding up n) eqn:Hx.
      * exists O, true. intros fuel _. rewrite ancestorLoop_unfold, Hn, Ht, Hx. reflexivity.
      * exists (S fuel0), b. intros [|fuel] Hf; [lia|].
        rewrite ancestorLoop_unfold, Hn, Ht, Hx. apply IH. lia.
    + exists O, false. intros fuel _. rewrite ancestorLoop_unfold, Hn, Ht. reflexivity.
Qed.

(** The walk answers [true] at the first excluding ancestor element. *)
Lemma ancestorLoop_excluded (p : Page) (cur : option NodeId) :
  ExcludedAbove up (nodes p) cur ->
  exists fuel0, forall fuel, (fuel0 <= fuel)%nat ->
    ancestorLoop up fuel cur p = (Ok true, p).
Proof.
  induction 1 as [e n Hn Ht Hx|e n Hn Ht Hup [fuel0 IH]];
    apply N.eqb_eq in Ht.
  - exists O. intros fuel _. rewrite ancestorLoop_unfold, Hn, Ht, Hx. reflexivity.
  - exists (S fuel0). intros [|fuel] Hf; [lia|].
    rewrite ancestorLoop_unfold, Hn, Ht.
    destruct (excluding up n); [reflexivity|]. apply IH. lia.
Qed.

(** Whatever the fuel, the walk never lets an excluded unit through. *)
Lemma ancestorLoop_never_false (p : Page) (cur : option NodeId) (fuel : nat) :
  ExcludedAbove up (nodes p) cur -> fst (ancestorLoop up fuel cur p) <> Ok false.
Proof.
  intros H. revert fuel.
  induction H as [e n Hn Ht Hx|e n Hn Ht Hup IH]; intros fuel;
    apply N.eqb_eq in Ht; rewrite ancestorLoop_unfold, Hn, Ht.
  - rewrite Hx. discriminate.
  - destruct (excluding up n); [discriminate|].
    destruct fuel as [|fuel]; [discriminate|]. apply IH.
Qed.

Lemma shouldSkipNode_never_false (p : Page) (t : NodeId) (fuel : nat) :
  Excluded up (nodes p) t -> fst (shouldSkipNode up fuel t p) <> Ok false.
Proof.
  intros [n [Hn Hx]]. rewrite shouldSkipNode_unfold, Hn.
  apply ancestorLoop_never_false. exact Hx.
Qed.

Lemma ancestorLoop_structure (p p' : Page) (fuel : nat) (cur : option NodeId) :
  structure_preserved (nodes p) (nodes p') ->
  fst (ancestorLoop up fuel cur p') = fst (ancestorLoop up fuel cur p).
Proof.
  intros H. revert cur. induction fuel as [|fuel IH]; intros [e|];
    rewrite ?ancestorLoop_null; try reflexivity;
    rewrite !ancestorLoop_unfold;
    (destruct (nodes p !! e) as [n|] eqn:Hn;
     [destruct (structure_preserved_lookup _ _ e n H Hn) as [n' [Hn' Hs]]
     |rewrite (structure_preserved_lookup_None _ _ e H Hn); reflexivity]);
    rewrite Hn', (excluding_same_shape n n' Hs);
    destruct Hs as (Hty & _ & _ & Hpar & _); rewrite Hty, ?Hpar;
    destruct (nodeType n =? ELEMENT_NODE); try reflexivity;
    destruct (excluding up n); try reflexivity.
  apply IH.
Qed.

Lemma shouldSkipNode_structure (p p' : Page) (fuel : nat) (t : NodeId) :
  structure_preserved (nodes p) (nodes p') ->
  fst (shouldSkipNode up fuel t p') = fst (shouldSkipNode up fuel t p).
Proof.
  intros H. rewrite !shouldSkipNode_unfold.
  destruct (nodes p !! t) as [n|] eqn:Hn.
  - destruct (structure_preserved_lookup _ _ t n H Hn) as [n' [Hn' Hs]].
    rewrite Hn'. destruct Hs as (_ & _ & _ & -> & _).
    apply ancestorLoop_structure. exact H.
  - rewrite (structure_preserved_lookup_None _ _ t H Hn). reflexivity.
Qed.

(** ** Every operation is a sequence of rewrites of eligible units *)

Lemma Rewrites_trans (Q : NodeId -> Prop) (p p' p'' : Page) :
  Rewrites up Q p p' -> Rewrites up Q p' p'' -> Rewrites up Q p p''.
Proof.
  induction 1 as [p|p t n v p' HQ Hn Hv Hx Hne Hrest IH]; intros H'; [exact H'|].
  eapply Rewrites_step; eauto.
Qed.

Lemma Rewrites_mono (Q Q' : NodeId -> Prop) (p p' : Page) :
  (forall x, Q x -> Q' x) -> Rewrites up Q p p' -> Rewrites up Q' p p'.
Proof.
  intros HQ. induction 1 as [p|p t n v p' Ht Hn Hv Hx Hne Hrest IH]; [constructor|].
  eapply Rewrites_step; eauto.
Qed.

Lemma Rewrites_structure (Q : NodeId -> Prop) (p p' : Page) :
  Rewrites up Q p p' -> structure_preserved (nodes p) (nodes p').
Proof.
  induction 1 as [p|p t n v p' Ht Hn Hv Hx Hne Hrest IH].
  - apply structure_preserved_refl.
  - eapply structure_preserved_trans; [|exact IH].
    apply structure_preserved_insert. exact Hn.
Qed.

Lemma Rewrites_frame (Q : NodeId -> Prop) (p p' : Page) :
  Rewrites up Q p p' -> forall id, ~ Q id -> nodes p' !! id = nodes p !! id.
Proof.
  induction 1 as [p|p t n v p' Ht Hn Hv Hx Hne Hrest IH]; intros id Hid; [reflexivity|].
  rewrite (IH id Hid). cbn [rewritten_at nodes].
  apply lookup_insert_ne. intros ->. exact (Hid Ht).
Qed.

Lemma Rewrites_excluded (Q : NodeId -> Prop) (p p' : Page) (t : NodeId) :
  Rewrites up Q p p' -> Excluded up (nodes p) t -> nodes p' !! t = nodes p !! t.
Proof.
  induction 1 as [p|p u n v p' Hu Hn Hv Hx Hne Hrest IH]; intros Ht; [reflexivity|].
  rewrite IH.
  - cbn [rewritten_at nodes]. apply lookup_insert_ne. intros ->. exact (Hx Ht).
  - eapply Excluded_structure; [|exact Ht].
    cbn [rewritten_at nodes]. apply structure_preserved_insert. exact Hn.
Qed.

Lemma snd_bind {A B} (m : M A) (k : A -> M B) (p : Page) :
  snd (bind m k p) =
  match fst (m p) with
  | Ok a => snd (k a (snd (m p)))
  | _ => snd (m p)
  end.
Proof. unfold bind. destruct (m p) as [[a|f|] p']; reflexivity. Qed.

Lemma checkAndReplaceInTextNode_Rewrites (fuel : nat) (t : NodeId) (p : Page) :
  Rewrites up (eq t) p (snd (checkAndReplaceInTextNode up fuel t p)).
Proof.
  destruct (checkAndReplaceInTextNode_effect fuel t p)
    as [->|(n & v & Hn & Hv & Hskip & Hne & ->)]; [constructor|].
  eapply Rewrites_step; [reflexivity|exact Hn|exact Hv| |exact Hne|constructor].
  intros Hx. exact (shouldSkipNode_never_false p t fuel Hx Hskip).
Qed.

Lemma forEach_Rewrites {A} (Q : NodeId -> Prop) (f : A -> M unit) (l : list A) :
  (forall x, In x l -> forall p, Rewrites up Q p (snd (f x p))) ->
  forall p, Rewrites up Q p (snd (forEach f l p)).
Proof.
  induction l as [|x l IH]; intros Hf p; cbn [forEach]; [constructor|].
  rewrite snd_bind.
  assert (Hx : Rewrites up Q p (snd (f x p))) by (apply Hf; left; reflexivity).
  destruct (fst (f x p)); try exact Hx.
  eapply Rewrites_trans; [exact Hx|]. apply IH. intros y Hy. apply Hf. right. exact Hy.
Qed.

End FilterFacts.

(** ** What the walker hands out *)

Lemma filterNode_accept (tw : TreeWalker) (n : Node) :
  filterNode tw n = FILTER_ACCEPT <-> N.testbit (whatToShow tw) (nodeType n - 1) = true.
Proof.
  unfold filterNode. destruct (N.testbit (whatToShow tw) (nodeType n - 1)); split;
    intros H; try reflexivity; discriminate.
Qed.

Lemma filterNode_showsb (tw : TreeWalker) (d : gmap NodeId Node) (x : NodeId) (n : Node) :
  d !! x = Some n ->
  filterNode tw n = if showsb (whatToShow tw) d x then FILTER_ACCEPT else FILTER_SKIP.
Proof. intros H. unfold showsb, filterNode. rewrite H. reflexivity. Qed.

Lemma nextNodeLoop_accepts (fuel : nat) (tw : TreeWalker) (node : NodeId)
    (result : FilterResult) (p : Page) (x : NodeId) (tw' : TreeWalker) :
  fst (nextNodeLoop fuel tw node result p) = Ok (Some x, tw') ->
  showsb (whatToShow tw) (nodes p) x = true /\ tw' = setCurrent tw x.
Proof.
  revert node result. induction fuel as [|fuel IH]; intros node result;
    cbn [nextNodeLoop]; [discriminate|].
  rewrite bind_getNode. destruct (nodes p !! node) as [n|] eqn:Hn; [|discriminate].
  destruct (match result with FILTER_REJECT => None | _ => firstChild n end) as [child|].
  - rewrite bind_getNode. destruct (nodes p !! child) as [c|] eqn:Hc; [|discriminate].
    destruct (filterNode tw c) eqn:Hf; try apply IH.
    intros [= <- <-]. split; [|reflexivity]. unfold showsb. rewrite Hc.
    apply filterNode_accept. exact Hf.
  - rewrite (bind_ReadOnly _ _ p (ReadOnly_climb fuel (root tw) (Some node))).
    destruct (fst (climb fuel (root tw) (Some node) p)) as [[sibling| |]|f|];
      try discriminate.
    + rewrite bind_getNode. destruct (nodes p !! sibling) as [s|] eqn:Hs; [|discriminate].
      destruct (filterNode tw s) eqn:Hf; try apply IH.
      intros [= <- <-]. split; [|reflexivity]. unfold showsb. rewrite Hs.
      apply filterNode_accept. exact Hf.
    + destruct (filterNode tw n) eqn:Hf; try apply IH.
      intros [= <- <-]. split; [|reflexivity]. unfold showsb. rewrite Hn.
      apply filterNode_accept. exact Hf.
Qed.

Lemma collectLoop_accepts (fuel : nat) (tw : TreeWalker) (acc : list NodeId) (p : Page)
    (l : list NodeId) :
  fst (collectLoop fuel tw acc p) = Ok l ->
  forall x, In x l -> In x acc \/ showsb (whatToShow tw) (nodes p) x = true.
Proof.
  revert tw acc. induction fuel as [|fuel IH]; intros tw acc; cbn [collectLoop];
    [discriminate|].
  rewrite (bind_ReadOnly _ _ p (ReadOnly_nextNode fuel tw)).
  destruct (fst (nextNode fuel tw p)) as [[[node|] tw']|f|] eqn:Hnext;
    cbn [fst snd]; try discriminate.
  - apply nextNodeLoop_accepts in Hnext as [Hshown ->].
    intros Hl x Hx. destruct (IH _ _ Hl x Hx) as [Hin|Hb].
    + apply in_app_or in Hin as [Hin|[<-|[]]]; [left; exact Hin|right; exact Hshown].
    + right. exact Hb.
  - intros [= <-] x Hx. left. exact Hx.
Qed.

Lemma SHOW_TEXT_shows (nt : N) : N.testbit SHOW_TEXT (nt - 1) = true <-> nt = TEXT_NODE.
Proof.
  unfold SHOW_TEXT, TEXT_NODE. split.
  - intros H. destruct (N.eq_dec (nt - 1) 2) as [E|E]; [lia|].
    exfalso. destruct (nt - 1) as [|[q|q|]]; try discriminate;
      destruct q; try discriminate; contradiction.
  - intros ->. reflexivity.
Qed.

Lemma showsb_SHOW_TEXT (d : gmap NodeId Node) (x : NodeId) :
  showsb SHOW_TEXT d x = isTextNode d x.
Proof.
  unfold showsb, isTextNode. destruct (d !! x) as [n|]; [|reflexivity].
  destruct (nodeType n =? TEXT_NODE) eqn:E.
  - apply SHOW_TEXT_shows. apply N.eqb_eq. exact E.
  - destruct (N.testbit SHOW_TEXT (nodeType n - 1)) eqn:E'; [|reflexivity].
    apply SHOW_TEXT_shows in E'. apply N.eqb_neq in E. contradiction.
Qed.

Section CoordinatorFacts.

Variable up : N -> list N.

Lemma processNodes_Rewrites (fuel : nat) (rootNode : option NodeId) (p : Page) :
  Rewrites up (fun x => isTextNode (nodes p) x = true) p
           (snd (processNodes up fuel rootNode p)).
Proof.
  destruct rootNode as [r|]; cbn [processNodes]; [|constructor].
  rewrite bind_getNode. destruct (nodes p !! r) as [n|]; [|constructor].
  destruct ((nodeType n =? ELEMENT_NODE)
            && (includes EXCLUDED_TAGS (toUpperCase up (tagName n)) || isContentEditable n));
    [constructor|].
  rewrite (bind_ReadOnly _ _ p (ReadOnly_collectLoop fuel _ [])).
  destruct (fst (collectLoop fuel (createTreeWalker r SHOW_TEXT) [] p)) as [l|f|] eqn:Hl;
    try constructor.
  apply forEach_Rewrites. intros x Hx q.
  eapply Rewrites_mono; [|apply checkAndReplaceInTextNode_Rewrites].
  intros y <-. destruct (collectLoop_accepts _ _ _ _ _ Hl x Hx) as [[]|Hs].
  rewrite <- showsb_SHOW_TEXT. exact Hs.
Qed.

Lemma observer_Rewrites (fuel : nat) (mutationsList : list MutationRecord) (p : Page) :
  Rewrites up (batch_units p mutationsList) p (snd (observer up fuel mutationsList p)).
Proof.
  unfold observer.
  assert (Hgen : forall l q,
            structure_preserved (nodes p) (nodes q) ->
            (forall m, In m l -> In m mutationsList) ->
            Rewrites up (batch_units p mutationsList) q
              (snd (forEach (fun mutation =>
                   match type mutation with
                   | childList =>
                       forEach (fun newNode => processNodes up fuel (Some newNode))
                               (addedNodes mutation)
                   | characterData => checkAndReplaceInTextNode up fuel (target mutation)
                   | attributes => ret tt
                   end) l q))).
  { induction l as [|m l IH]; intros q Hq Hl; cbn [forEach]; [constructor|].
    rewrite snd_bind.
    match goal with |- context [fst (?f q)] => set (step := f) end.
    assert (Hstep : Rewrites up (batch_units p mutationsList) q (snd (step q))).
    { subst step. cbv beta. destruct (type m) eqn:Hty.
      - assert (Hadd : forall a q', structure_preserved (nodes p) (nodes q') ->
                  Rewrites up (batch_units p mutationsList) q'
                    (snd (forEach (fun newNode => processNodes up fuel (Some newNode)) a q'))).
        { induction a as [|x a IHa]; intros q' Hq'; cbn [forEach]; [constructor|].
          rewrite snd_bind.
          assert (Hx : Rewrites up (batch_units p mutationsList) q'
                         (snd (processNodes up fuel (Some x) q'))).
          { eapply Rewrites_mono; [|apply processNodes_Rewrites].
            intros y Hy. left. rewrite <- Hy. symmetry.
            apply isTextNode_structure. exact Hq'. }
          destruct (fst (processNodes up fuel (Some x) q')); try exact Hx.
          eapply Rewrites_trans; [exact Hx|]. apply IHa.
          eapply structure_preserved_trans; [exact Hq'|].
          eapply Rewrites_structure. exact Hx. }
        apply Hadd. exact Hq.
      - eapply Rewrites_mono; [|apply checkAndReplaceInTextNode_Rewrites].
        intros y <-. right. exists m. repeat split; [|exact Hty].
        apply Hl. left. reflexivity.
      - constructor. }
    destruct (fst (step q)); try exact Hstep.
    eapply Rewrites_trans; [exact Hstep|]. apply IH.
    - eapply structure_preserved_trans; [exact Hq|].
      eapply Rewrites_structure. exact Hstep.
    - intros m' Hm'. apply Hl. right. exact Hm'. }
  apply Hgen; [apply structure_preserved_refl|auto].
Qed.

End CoordinatorFacts.

(** * The walk of the tree *)

Lemma climb_unfold (fuel : nat) (r t : NodeId) (p : Page) :
  climb fuel r (Some t) p =
  if (t =? r)%nat then (Ok AtRoot, p)
  else match nodes p !! t with
       | None => (Throw TypeError, p)
       | Some n =>
           match nextSibling n with
           | Some s => (Ok (FoundSibling s), p)
           | None =>
               match fuel with
               | O => (OutOfFuel, p)
               | S fuel' => climb fuel' r (parentNode n) p
               end
           end
       end.
Proof.
  destruct fuel; cbn [climb]; destruct (t =? r)%nat; try reflexivity;
    rewrite bind_getNode; destruct (nodes p !! t) as [n|]; try reflexivity;
    destruct (nextSibling n); reflexivity.
Qed.

Lemma nextNodeLoop_unfold (fuel : nat) (tw : TreeWalker) (node : NodeId)
    (result : FilterResult) (p : Page) :
  nextNodeLoop (S fuel) tw node result p =
  match nodes p !! node with
  | None => (Throw TypeError, p)
  | Some n =>
      let visit (x : NodeId) :=
        match nodes p !! x with
        | None => (Throw TypeError, p)
        | Some c =>
            match filterNode tw c with
            | FILTER_ACCEPT => (Ok (Some x, setCurrent tw x), p)
            | res => nextNodeLoop fuel tw x res p
            end
        end in
      match (match result with FILTER_REJECT => None | _ => firstChild n end) with
      | Some child => visit child
      | None =>
          match fst (climb fuel (root tw) (Some node) p) with
          | Ok AtRoot => (Ok (None, tw), p)
          | Ok (FoundSibling sibling) => visit sibling
          | Ok NoParent =>
              match filterNode tw n with
              | FILTER_ACCEPT => (Ok (Some node, setCurrent tw node), p)
              | res => nextNodeLoop fuel tw node res p
              end
          | Throw f => (Throw f, p)
          | OutOfFuel => (OutOfFuel, p)
          end
      end
  end.
Proof.
  cbn [nextNodeLoop]. rewrite bind_getNode.
  destruct (nodes p !! node) as [n|]; [|reflexivity]. cbv zeta.
  destruct (match result with FILTER_REJECT => None | _ => firstChild n end) as [child|].
  - rewrite bind_getNode. destruct (nodes p !! child) as [c|]; [|reflexivity].
    destruct (filterNode tw c); reflexivity.
  - rewrite (bind_ReadOnly _ _ p (ReadOnly_climb fuel (root tw) (Some node))).
    destruct (fst (climb fuel (root tw) (Some node) p)) as [[sibling| |]|f|];
      try reflexivity.
    + rewrite bind_getNode. destruct (nodes p !! sibling) as [s|]; [|reflexivity].
      destruct (filterNode tw s); reflexivity.
    + destruct (filterNode tw n); reflexivity.
Qed.

Section DocumentOrder.

Variable p : Page.
Variable tw0 : TreeWalker.

#[local] Abbreviation d := (nodes p).
#[local] Abbreviation r := (root tw0).
#[local] Abbreviation show := (whatToShow tw0).

Lemma climb_After (x : NodeId) (k : option NodeId) :
  After d r x k ->
  exists fuel0, forall fuel, (fuel0 <= fuel)%nat ->
    climb fuel r (Some x) p
    = (Ok (match k with Some s => FoundSibling s | None => AtRoot end), p).
Proof.
  induction 1 as [|x n s Hx Hn Hs|x n par k Hx Hn Hs Hpar Hup [fuel0 IH]].
  - exists O. intros fuel _. rewrite climb_unfold, Nat.eqb_refl. reflexivity.
  - exists O. intros fuel _. rewrite climb_unfold.
    replace (x =? r)%nat with false by (symmetry; apply Nat.eqb_neq; exact Hx).
    rewrite Hn, Hs. reflexivity.
  - exists (S fuel0). intros [|fuel] Hf; [lia|]. rewrite climb_unfold.
    replace (x =? r)%nat with false by (symmetry; apply Nat.eqb_neq; exact Hx).
    rewrite Hn, Hs, Hpar. apply IH. lia.
Qed.

(** From a node whose successors in document order are [l], [nextNode]
    answers the first node of [l] that the walker shows. *)
Lemma nextNodeLoop_Visit (k : option NodeId) (l : list NodeId) :
  Visit d r k l ->
  forall (x : NodeId) (cur : NodeId) (result : FilterResult),
    Next d r x k -> result <> FILTER_REJECT ->
    exists fuel0, forall fuel, (fuel0 <= fuel)%nat ->
      let tw := setCurrent tw0 cur in
      nextNodeLoop fuel tw x result p
      = (Ok (match List.filter (showsb show d) l with
             | [] => (None, tw)
             | y :: _ => (Some y, setCurrent tw y)
             end), p).
Proof.
  induction 1 as [|y k' l' Hy Hvis IH]; intros x cur result (n & Hn & Hk) Hres.
  - assert (Hc : firstChild n = None /\ After d r x None).
    { destruct (firstChild n); [discriminate|]. split; [reflexivity|exact Hk]. }
    destruct Hc as [Hc Hafter].
    destruct (climb_After x None Hafter) as [fuel0 Hclimb].
    exists (S fuel0). intros [|fuel] Hf tw; [lia|].
    rewrite nextNodeLoop_unfold, Hn. cbv zeta. rewrite Hc.
    replace (match result with FILTER_REJECT => None | _ => None end)
      with (@None NodeId) by (destruct result; reflexivity).
    cbn [setCurrent root tw]. subst tw. cbn [setCurrent root].
    rewrite Hclimb by lia. reflexivity.
  - destruct (IH y cur FILTER_SKIP Hy) as [fuel1 Hloop]; [discriminate|].
    pose proof Hy as (ny & Hny & _).
    assert (Hvisit : forall fuel, (fuel1 <= fuel)%nat ->
              let tw := setCurrent tw0 cur in
              match nodes p !! y with
              | None => (Throw TypeError, p)
              | Some c =>
                  match filterNode tw c with
                  | FILTER_ACCEPT => (Ok (Some y, setCurrent tw y), p)
                  | res => nextNodeLoop fuel tw y res p
                  end
              end
              = (Ok (match List.filter (showsb show d) (y :: l') with
                     | [] => (None, tw)
                     | z :: _ => (Some z, setCurrent tw z)
                     end), p)).
    { intros fuel Hf tw. rewrite Hny.
      rewrite (filterNode_showsb tw d y ny Hny). subst tw. cbn [setCurrent whatToShow].
      cbn [List.filter]. destruct (showsb show d y); [reflexivity|].
      apply Hloop. exact Hf. }
    destruct (firstChild n) as [c|] eqn:Hc.
    + injection Hk as ->.
      exists (S fuel1). intros [|fuel] Hf tw; [lia|].
      rewrite nextNodeLoop_unfold, Hn. cbv zeta. rewrite Hc.
      replace (match result with FILTER_REJECT => None | _ => Some c end)
        with (Some c) by (destruct result; [reflexivity|contradiction|reflexivity]).
      apply Hvisit. lia.
    + destruct (climb_After x (Some y) Hk) as [fuel0 Hclimb].
      exists (S (Nat.max fuel0 fuel1)). intros [|fuel] Hf tw; [lia|].
      rewrite nextNodeLoop_unfold, Hn. cbv zeta. rewrite Hc.
      replace (match result with FILTER_REJECT => None | _ => None end)
        with (@None NodeId) by (destruct result; reflexivity).
      subst tw. cbn [setCurrent root].
      rewrite Hclimb by lia. cbn [fst]. apply Hvisit. lia.
Qed.

Lemma Visit_filter_split (k : option NodeId) (l : list NodeId) (y : NodeId)
    (rest : list NodeId) :
  Visit d r k l -> List.filter (showsb show d) l = y :: rest ->
  exists k' l', Next d r y k' /\ Visit d r k' l'
                /\ rest = List.filter (showsb show d) l' /\ (length l' < length l)%nat.
Proof.
  induction 1 as [|x k' l' Hx Hvis IH]; cbn [List.filter]; [discriminate|].
  destruct (showsb show d x).
  - intros [= <- <-]. exists k', l'. repeat split; try assumption. simpl. lia.
  - intros Hf. destruct (IH Hf) as (k'' & l'' & H1 & H2 & H3 & H4).
    exists k'', l''. repeat split; try assumption. simpl. lia.
Qed.

(** The collecting loop gathers, in document order, the shown nodes among
    the successors of the current node. *)
Lemma collectLoop_Visit (l : list NodeId) :
  forall (k : option NodeId) (cur : NodeId),
    Next d r cur k -> Visit d r k l ->
    exists fuel0, forall fuel (acc : list NodeId), (fuel0 <= fuel)%nat ->
      collectLoop fuel (setCurrent tw0 cur) acc p
      = (Ok (acc ++ List.filter (showsb show d) l), p).
Proof.
  remember (length l) as len eqn:Hlen. revert l Hlen.
  induction len as [len IH] using lt_wf_ind. intros l Hlen k cur Hnext Hvis.
  destruct (nextNodeLoop_Visit k l Hvis cur cur FILTER_ACCEPT Hnext) as [fuel1 Hloop];
    [discriminate|].
  destruct (List.filter (showsb show d) l) as [|y rest] eqn:Hfilter.
  - exists (S fuel1). intros [|fuel] acc Hf; [lia|].
    cbn [collectLoop]. rewrite (bind_ReadOnly _ _ p (ReadOnly_nextNode fuel _)).
    unfold nextNode. cbn [currentNode setCurrent]. cbv zeta in Hloop.
    cbn [setCurrent] in Hloop. rewrite Hloop by lia. cbn [fst snd].
    rewrite app_nil_r. reflexivity.
  - destruct (Visit_filter_split k l y rest Hvis Hfilter) as (k' & l' & Hy & Hvis' & -> & Hlt).
    destruct (IH (length l')) with (l := l') (k := k') (cur := y) as [fuel2 Hrec];
      [lia|reflexivity|exact Hy|exact Hvis'|].
    exists (S (Nat.max fuel1 fuel2)). intros [|fuel] acc Hf; [lia|].
    cbn [collectLoop]. rewrite (bind_ReadOnly _ _ p (ReadOnly_nextNode fuel _)).
    unfold nextNode. cbn [currentNode setCurrent]. cbv zeta in Hloop.
    cbn [setCurrent] in Hloop. rewrite Hloop by lia. cbn [fst snd].
    cbn [setCurrent] in Hrec. rewrite Hrec by lia.
    rewrite <- app_assoc. reflexivity.
Qed.

(** The document order of a forest that the heap holds. *)
Lemma Shape_Visit (f : forest) :
  forall (parent : NodeId) (k : option NodeId) (lk : list NodeId),
    Shape d parent f -> (forall x, In x (preorder f) -> x <> r) ->
    After d r parent k -> Visit d r k lk ->
    Visit d r (entry f k) (preorder f ++ lk).
Proof.
  induction f as [|id children IHc siblings IHs];
    intros parent k lk Hshape Hr Hafter Hk; [exact Hk|].
  destruct Hshape as [(n & Hn & Hpar & Hfirst & Hnext) [Hsc Hss]].
  cbn [entry preorder app].
  assert (Hid : id <> r) by (apply Hr; left; reflexivity).
  assert (Hsib : Visit d r (entry siblings k) (preorder siblings ++ lk)).
  { apply (IHs parent); try assumption.
    intros x Hx. apply Hr. cbn [preorder]. right. apply in_or_app. right. exact Hx. }
  assert (Hafter_id : After d r id (entry siblings k)).
  { destruct siblings as [|s ? ?]; cbn [entry] in *.
    - eapply After_parent; eassumption.
    - eapply After_sibling; eassumption. }
  rewrite <- app_assoc.
  apply (Visit_node d r id (entry children (entry siblings k))).
  - exists n. split; [exact Hn|]. rewrite Hfirst.
    destruct children as [|c ? ?]; cbn [entry]; [exact Hafter_id|reflexivity].
  - apply (IHc id); try assumption.
    intros x Hx. apply Hr. cbn [preorder]. right. apply in_or_app. left. exact Hx.
Qed.

End DocumentOrder.

(** The walker started at the root of a subtree hands out, in document
    order, the nodes below the root that it shows. *)
Lemma collectLoop_Subtree (p : Page) (rootNode : NodeId) (children : forest) (show : N) :
  Subtree (nodes p) rootNode children ->
  exists fuel0, forall fuel, (fuel0 <= fuel)%nat ->
    collectLoop fuel (createTreeWalker rootNode show) [] p
    = (Ok (List.filter (showsb show (nodes p)) (preorder children)), p).
Proof.
  intros [(n & Hn & Hfirst) [Hshape Hr]].
  pose (tw0 := createTreeWalker rootNode show).
  assert (Hvis : Visit (nodes p) rootNode (entry children None) (preorder children ++ [])).
  { apply (Shape_Visit p tw0 children rootNode None []); cbn [tw0 createTreeWalker root].
    - exact Hshape.
    - intros x Hx ->. exact (Hr Hx).
    - constructor.
    - constructor. }
  rewrite app_nil_r in Hvis.
  destruct (collectLoop_Visit p tw0 (preorder children) (entry children None) rootNode)
    as [fuel0 Hloop]; cbn [tw0 createTreeWalker root].
  - exists n. split; [exact Hn|]. rewrite Hfirst.
    destruct children; cbn [entry]; [constructor|reflexivity].
  - exact Hvis.
  - exists fuel0. intros fuel Hf. apply (Hloop fuel [] Hf).
Qed.

(** ** The walk reads the structure only *)

Lemma filterNode_same_shape (tw : TreeWalker) (n n' : Node) :
  same_shape n n' -> filterNode tw n' = filterNode tw n.
Proof. intros (Hty & _). unfold filterNode. rewrite Hty. reflexivity. Qed.

Lemma climb_structure (p p' : Page) (fuel : nat) (r : NodeId) (t : option NodeId) :
  structure_preserved (nodes p) (nodes p') ->
  fst (climb fuel r t p') = fst (climb fuel r t p).
Proof.
  intros H. revert t. induction fuel as [|fuel IH]; intros [t|]; try reflexivity;
    rewrite !climb_unfold; destruct (t =? r)%nat; try reflexivity;
    (destruct (nodes p !! t) as [n|] eqn:Hn;
     [destruct (structure_preserved_lookup _ _ t n H Hn) as [n' [Hn' Hs]]
     |rewrite (structure_preserved_lookup_None _ _ t H Hn); reflexivity]);
    rewrite Hn'; destruct Hs as (_ & _ & _ & Hpar & _ & Hsib & _); rewrite Hsib, ?Hpar;
    destruct (nextSibling n); try reflexivity.
  apply IH.
Qed.

Lemma nextNodeLoop_structure (p p' : Page) (fuel : nat) (tw : TreeWalker) (node : NodeId)
    (result : FilterResult) :
  structure_preserved (nodes p) (nodes p') ->
  fst (nextNodeLoop fuel tw node result p') = fst (nextNodeLoop fuel tw node result p).
Proof.
  intros H. revert node result. induction fuel as [|fuel IH]; intros node result;
    [reflexivity|].
  assert (Hvisit : forall x,
            fst (match nodes p' !! x with
                 | None => (Throw TypeError, p')
                 | Some c =>
                     match filterNode tw c with
                     | FILTER_ACCEPT => (Ok (Some x, setCurrent tw x), p')
                     | res => nextNodeLoop fuel tw x res p'
                     end
                 end)
            = fst (match nodes p !! x with
                   | None => (Throw TypeError, p)
                   | Some c =>
                       match filterNode tw c with
                       | FILTER_ACCEPT => (Ok (Some x, setCurrent tw x), p)
                       | res => nextNodeLoop fuel tw x res p
                       end
                   end)).
  { intros x. destruct (nodes p !! x) as [c|] eqn:Hc.
    - destruct (structure_preserved_lookup _ _ x c H Hc) as [c' [Hc' Hs]].
      rewrite Hc', (filterNode_same_shape tw c c' Hs).
      destruct (filterNode tw c); try reflexivity; apply IH.
    - rewrite (structure_preserved_lookup_None _ _ x H Hc). reflexivity. }
  rewrite !nextNodeLoop_unfold. cbv zeta.
  destruct (nodes p !! node) as [n|] eqn:Hn.
  - destruct (structure_preserved_lookup _ _ node n H Hn) as [n' [Hn' Hs]].
    rewrite Hn', (filterNode_same_shape tw n n' Hs).
    destruct Hs as (_ & _ & _ & _ & Hfirst & _). rewrite Hfirst.
    destruct (match result with FILTER_REJECT => None | _ => firstChild n end) as [child|];
      [apply Hvisit|].
    rewrite (climb_structure p p' fuel (root tw) (Some node) H).
    destruct (fst (climb fuel (root tw) (Some node) p)) as [[sibling| |]|f|];
      try reflexivity; [apply Hvisit|].
    destruct (filterNode tw n); try reflexivity; apply IH.
  - rewrite (structure_preserved_lookup_None _ _ node H Hn). reflexivity.
Qed.

(** In-place changes of text values do not perturb the enumeration. *)
Lemma collectLoop_structure (p p' : Page) (fuel : nat) (tw : TreeWalker)
    (acc : list NodeId) :
  structure_preserved (nodes p) (nodes p') ->
  fst (collectLoop fuel tw acc p') = fst (collectLoop fuel tw acc p).
Proof.
  intros H. revert tw acc. induction fuel as [|fuel IH]; intros tw acc; [reflexivity|].
  cbn [collectLoop].
  rewrite (bind_ReadOnly _ _ p (ReadOnly_nextNode fuel tw)),
          (bind_ReadOnly _ _ p' (ReadOnly_nextNode fuel tw)).
  unfold nextNode. rewrite (nextNodeLoop_structure p p' fuel tw _ _ H).
  destruct (fst (nextNodeLoop fuel tw (currentNode tw) FILTER_ACCEPT p))
    as [[[node|] tw']|f|]; cbn [fst snd]; try reflexivity.
  apply IH.
Qed.

(** * Well-formed documents *)

Lemma keeps_text_refl (d : gmap NodeId Node) : keeps_text d d.
Proof.
  split; [apply structure_preserved_refl|]. intros id n n' Hn Hn' Hv. congruence.
Qed.

Lemma keeps_text_trans (d d' d'' : gmap NodeId Node) :
  keeps_text d d' -> keeps_text d' d'' -> keeps_text d d''.
Proof.
  intros [Hs Hv] [Hs' Hv']. split; [eapply structure_preserved_trans; eassumption|].
  intros id n n'' Hn Hn'' Hval.
  destruct (structure_preserved_lookup _ _ id n Hs Hn) as [n' [Hn' _]].
  eapply Hv'; [exact Hn'|exact Hn''|]. eapply Hv; eassumption.
Qed.

(** Enough fuel for every element of a list. *)
Lemma fuel_for_all {A} (P : nat -> A -> Prop) (l : list A) :
  (forall x, In x l -> exists fuel0, forall fuel, (fuel0 <= fuel)%nat -> P fuel x) ->
  exists fuel0, forall fuel, (fuel0 <= fuel)%nat -> forall x, In x l -> P fuel x.
Proof.
  induction l as [|a l IH]; intros H.
  - exists O. intros fuel _ x [].
  - destruct (H a) as [fa Ha]; [left; reflexivity|].
    destruct IH as [fl Hl]; [intros x Hx; apply H; right; exact Hx|].
    exists (Nat.max fa fl). intros fuel Hf x [<-|Hx]; [apply Ha|apply Hl]; try lia.
    exact Hx.
Qed.

Lemma forEach_ok {A} (R : Page -> Prop) (f : A -> M unit) (l : list A) :
  (forall x, In x l -> forall q, R q -> fst (f x q) = Ok tt /\ R (snd (f x q))) ->
  forall q, R q -> fst (forEach f l q) = Ok tt /\ R (snd (forEach f l q)).
Proof.
  induction l as [|x l IH]; intros Hf q Hq; cbn [forEach]; [split; [reflexivity|exact Hq]|].
  destruct (Hf x (or_introl eq_refl) q Hq) as [Hok HR].
  unfold bind. destruct (f x q) as [o q'] eqn:E. cbn [fst snd] in *. subst o.
  apply IH; [|exact HR]. intros y Hy. apply Hf. right. exact Hy.
Qed.

Section Totality.

Variable up : N -> list N.

Lemma Rewrites_keeps_text (Q : NodeId -> Prop) (p p' : Page) :
  Rewrites up Q p p' -> keeps_text (nodes p) (nodes p').
Proof.
  induction 1 as [p|p t n v p' Ht Hn Hv Hx Hne Hrest IH]; [apply keeps_text_refl|].
  eapply keeps_text_trans; [|exact IH]. split.
  - apply structure_preserved_insert. exact Hn.
  - cbn [rewritten_at nodes]. intros id m m' Hm Hm' Hval.
    destruct (decide (t = id)) as [<-|Hne'].
    + rewrite lookup_insert_eq in Hm'. injection Hm' as <-. discriminate.
    + rewrite lookup_insert_ne in Hm' by exact Hne'. congruence.
Qed.

(** On a unit that carries a string and has a finite chain of ancestors,
    [checkAndReplaceInTextNode] completes. *)
Lemma checkAndReplaceInTextNode_ok (p : Page) (t : NodeId) (n : Node) :
  nodes p !! t = Some n -> nodeValue n <> None ->
  FiniteChain (nodes p) (parentNode n) ->
  exists fuel0, forall fuel, (fuel0 <= fuel)%nat ->
    forall q, keeps_text (nodes p) (nodes q) ->
      fst (checkAndReplaceInTextNode up fuel t q) = Ok tt.
Proof.
  intros Hn Hv Hchain.
  destruct (ancestorLoop_terminates up p _ Hchain) as (fuel0 & b & Hwalk).
  exists fuel0. intros fuel Hf q [Hs Hval].
  unfold checkAndReplaceInTextNode.
  rewrite (bind_ReadOnly _ _ q (ReadOnly_shouldSkipNode up fuel t)).
  rewrite (shouldSkipNode_structure up p q fuel t Hs).
  rewrite shouldSkipNode_unfold, Hn, (Hwalk fuel Hf). cbn [fst].
  destruct b; [reflexivity|].
  rewrite bind_getNode.
  destruct (structure_preserved_lookup _ _ t n Hs Hn) as [n' [Hn' _]].
  rewrite Hn'. specialize (Hval t n n' Hn Hn' Hv).
  destruct (nodeValue n') as [v|]; [|contradiction].
  destruct (negb (jsstring_eqb (rewrite_text up v) v)); [|reflexivity].
  unfold setNodeValue. rewrite Hn'. reflexivity.
Qed.

Lemma isTextNode_lookup (d : gmap NodeId Node) (x : NodeId) :
  isTextNode d x = true -> exists n, d !! x = Some n /\ nodeType n = TEXT_NODE.
Proof.
  unfold isTextNode. destruct (d !! x) as [n|]; [|discriminate].
  intros H. apply N.eqb_eq in H. eauto.
Qed.

(** On a well-formed document the sweep of any subtree completes. *)
Lemma processNodes_ok (p : Page) (r : NodeId) :
  WellFormed (nodes p) -> nodes p !! r <> None ->
  exists fuel0, forall fuel, (fuel0 <= fuel)%nat ->
    forall q, keeps_text (nodes p) (nodes q) ->
      fst (processNodes up fuel (Some r) q) = Ok tt.
Proof.
  intros Hwf Hr. destruct (nodes p !! r) as [n|] eqn:Hn; [clear Hr|contradiction].
  destruct (Hwf r n Hn) as (_ & [children Hsub] & _).
  destruct (collectLoop_Subtree p r children SHOW_TEXT Hsub) as [fuel1 Hcollect].
  set (l := List.filter (showsb SHOW_TEXT (nodes p)) (preorder children)) in *.
  destruct (fuel_for_all
              (fun fuel x => forall q, keeps_text (nodes p) (nodes q) ->
                               fst (checkAndReplaceInTextNode up fuel x q) = Ok tt) l)
    as [fuel2 Hall].
  { intros x Hx. apply filter_In in Hx as [_ Hx]. rewrite showsb_SHOW_TEXT in Hx.
    destruct (isTextNode_lookup _ _ Hx) as (m & Hm & Hty).
    destruct (Hwf x m Hm) as (Hchain & _ & Hval).
    apply (checkAndReplaceInTextNode_ok p x m Hm (Hval Hty) Hchain). }
  exists (Nat.max fuel1 fuel2). intros fuel Hf q Hq.
  cbn [processNodes]. rewrite bind_getNode.
  destruct (structure_preserved_lookup _ _ r n (proj1 Hq) Hn) as [n' [Hn' _]].
  rewrite Hn'.
  destruct ((nodeType n' =? ELEMENT_NODE)
            && (includes EXCLUDED_TAGS (toUpperCase up (tagName n'))
                || isContentEditable n')); [reflexivity|].
  rewrite (bind_ReadOnly _ _ q (ReadOnly_collectLoop fuel _ [])).
  rewrite (collectLoop_structure p q fuel _ [] (proj1 Hq)).
  rewrite Hcollect by lia. cbn [fst].
  apply (forEach_ok (fun q' => keeps_text (nodes p) (nodes q'))); [|exact Hq].
  intros x Hx q' Hq'. split; [apply Hall; [lia|exact Hx|exact Hq']|].
  eapply keeps_text_trans; [exact Hq'|].
  eapply Rewrites_keeps_text. apply checkAndReplaceInTextNode_Rewrites.
Qed.

(** On a well-formed document and batch the callback completes, also on
    every page that the writes of earlier batches have made of [p]. *)
Lemma observer_ok_later (p : Page) (mutationsList : list MutationRecord) :
  WellFormed (nodes p) -> WellFormedBatch (nodes p) mutationsList ->
  exists fuel0, forall fuel, (fuel0 <= fuel)%nat ->
    forall q0, keeps_text (nodes p) (nodes q0) ->
      fst (observer up fuel mutationsList q0) = Ok tt.
Proof.
  intros Hwf Hbatch.
  destruct (fuel_for_all
              (fun fuel (m : MutationRecord) =>
                 (forall x, In x (addedNodes m) ->
                    forall q, keeps_text (nodes p) (nodes q) ->
                      fst (processNodes up fuel (Some x) q) = Ok tt)
                 /\ (type m = characterData ->
                     forall q, keeps_text (nodes p) (nodes q) ->
                       fst (checkAndReplaceInTextNode up fuel (target m) q) = Ok tt))
              mutationsList) as [fuel0 Hall].
  { intros m Hm. destruct (Hbatch m Hm) as [Hadded Htarget].
    destruct (fuel_for_all
                (fun fuel x => forall q, keeps_text (nodes p) (nodes q) ->
                                 fst (processNodes up fuel (Some x) q) = Ok tt)
                (addedNodes m)) as [fuel1 H1].
    { intros x Hx. apply (processNodes_ok p x Hwf). apply Hadded. exact Hx. }
    destruct (type m) eqn:Hty.
    - exists fuel1. intros fuel Hf. split; [intros x Hx; apply H1; assumption|discriminate].
    - destruct (Htarget eq_refl) as (n & Hn & Hv).
      destruct (Hwf _ n Hn) as (Hchain & _).
      destruct (checkAndReplaceInTextNode_ok p _ n Hn Hv Hchain) as [fuel2 H2].
      exists (Nat.max fuel1 fuel2). intros fuel Hf.
      split; [intros x Hx; apply H1; [lia|exact Hx]|intros _; apply H2; lia].
    - exists fuel1. intros fuel Hf. split; [intros x Hx; apply H1; assumption|discriminate]. }
  exists fuel0. intros fuel Hf q0 Hq0. unfold observer.
  apply (forEach_ok (fun q => keeps_text (nodes p) (nodes q))); [|exact Hq0].
  intros m Hm q Hq. destruct (Hall fuel Hf m Hm) as [Hadd Hchar].
  destruct (type m) eqn:Hty.
  - apply (forEach_ok (fun q' => keeps_text (nodes p) (nodes q'))); [|exact Hq].
    intros x Hx q' Hq'. split; [apply Hadd; assumption|].
    eapply keeps_text_trans; [exact Hq'|].
    eapply Rewrites_keeps_text. apply processNodes_Rewrites.
  - split; [apply Hchar; [reflexivity|exact Hq]|].
    eapply keeps_text_trans; [exact Hq|].
    eapply Rewrites_keeps_text. apply checkAndReplaceInTextNode_Rewrites.
  - split; [reflexivity|exact Hq].
Qed.

(** On a well-formed document the callback completes on every batch the
    platform can deliver. *)
Lemma observer_ok (p : Page) (mutationsList : list MutationRecord) :
  WellFormed (nodes p) -> WellFormedBatch (nodes p) mutationsList ->
  exists fuel0, forall fuel, (fuel0 <= fuel)%nat ->
    fst (observer up fuel mutationsList p) = Ok tt.
Proof.
  intros Hwf Hbatch.
  destruct (observer_ok_later p mutationsList Hwf Hbatch) as [fuel0 H].
  exists fuel0. intros fuel Hf. apply (H fuel Hf). apply keeps_text_refl.
Qed.

(** ** What the sweep achieves *)

Lemma ancestorLoop_true_sound (p : Page) (fuel : nat) (cur : option NodeId) :
  fst (ancestorLoop up fuel cur p) = Ok true -> ExcludedAbove up (nodes p) cur.
Proof.
  revert cur. induction fuel as [|fuel IH]; intros [e|];
    rewrite ?ancestorLoop_null; try discriminate;
    rewrite ancestorLoop_unfold;
    destruct (nodes p !! e) as [n|] eqn:Hn; try discriminate;
    destruct (nodeType n =? ELEMENT_NODE) eqn:Ht; try discriminate;
    apply N.eqb_eq in Ht;
    destruct (excluding up n) eqn:Hx; try discriminate;
    try (intros _; eapply ExcludedAbove_here; eassumption).
  intros H. eapply ExcludedAbove_up; [exact Hn|exact Ht|]. apply IH. exact H.
Qed.

(** The filter lets through every unit without an excluding ancestor. *)
Lemma shouldSkipNode_eligible (p : Page) (t : NodeId) (n : Node) :
  nodes p !! t = Some n -> FiniteChain (nodes p) (parentNode n) ->
  exists fuel0, forall fuel, (fuel0 <= fuel)%nat ->
    ~ Excluded up (nodes p) t ->
    shouldSkipNode up fuel t p = (Ok false, p).
Proof.
  intros Hn Hchain.
  destruct (ancestorLoop_terminates up p _ Hchain) as (fuel0 & b & Hwalk).
  exists fuel0. intros fuel Hf Hx. rewrite shouldSkipNode_unfold, Hn, (Hwalk fuel Hf).
  destruct b; [|reflexivity]. exfalso. apply Hx. exists n. split; [exact Hn|].
  apply (ancestorLoop_true_sound p fuel0). rewrite (Hwalk fuel0 (Nat.le_refl _)).
  reflexivity.
Qed.

Lemma withValue_same (n : Node) (v : jsstring) :
  nodeValue n = Some v -> withValue n v = n.
Proof. destruct n. cbn. intros ->. reflexivity. Qed.

Lemma withValue_withValue (n : Node) (v v' : jsstring) :
  withValue (withValue n v) v' = withValue n v'.
Proof. reflexivity. Qed.

Lemma checkAndReplaceInTextNode_settles (p q : Page) (fuel : nat) (x : NodeId) :
  settled up p q ->
  let q' := snd (checkAndReplaceInTextNode up fuel x q) in
  settled up p q'
  /\ (forall t, rewritten_in up p q t -> rewritten_in up p q' t)
  /\ (forall m v, nodes p !! x = Some m -> nodeValue m = Some v ->
        fst (shouldSkipNode up fuel x q) = Ok false -> rewritten_in up p q' x).
Proof.
  intros Hset. cbv zeta.
  assert (Hidem : forall m v, withValue (withValue m (rewrite_text up v))
                                (rewrite_text up (rewrite_text up v))
                              = withValue m (rewrite_text up v)).
  { intros m v. rewrite withValue_withValue.
    rewrite (proj2 (engine_idempotent up v)). reflexivity. }
  destruct (checkAndReplaceInTextNode_effect up fuel x q)
    as [Hsame|(n & v' & Hn & Hv' & Hskip & Hne & Heq)].
  - rewrite Hsame. split; [exact Hset|]. split; [auto|].
    intros m v Hm Hv Hskip. exists m, v. split; [exact Hm|]. split; [exact Hv|].
    (* nothing was written although the filter let the unit through: its value
       is a fixed point of the engine *)
    assert (Hfix : forall n w, nodes q !! x = Some n -> nodeValue n = Some w ->
                     rewrite_text up w = w).
    { intros n w Hn Hw.
      destruct (jsstring_eqb (rewrite_text up w) w) eqn:E;
        [apply jsstring_eqb_eq; exact E|].
      exfalso. revert Hsame. unfold checkAndReplaceInTextNode.
      rewrite (bind_ReadOnly _ _ q (ReadOnly_shouldSkipNode up fuel x)), Hskip.
      rewrite bind_getNode, Hn, Hw, E. cbn [negb]. unfold setNodeValue. rewrite Hn.
      cbn [snd]. intros Hq. apply (f_equal assigned) in Hq. cbn [assigned] in Hq.
      apply (f_equal (@length _)) in Hq. rewrite length_app in Hq. simpl in Hq. lia. }
    destruct (Hset x m v Hm Hv) as [Hq|Hq]; [|exact Hq].
    rewrite Hq. f_equal. rewrite (Hfix m v Hq Hv). symmetry. apply withValue_same, Hv.
  - rewrite Heq. cbn [snd].
    assert (Hx : forall m v, nodes p !! x = Some m -> nodeValue m = Some v ->
                   withValue n (rewrite_text up v') = withValue m (rewrite_text up v)).
    { intros m v Hm Hv. destruct (Hset x m v Hm Hv) as [Hq|Hq];
        rewrite Hq in Hn; injection Hn as <-.
      - rewrite Hv in Hv'. injection Hv' as <-. reflexivity.
      - cbn [withValue nodeValue] in Hv'. injection Hv' as <-. apply Hidem. }
    split; [|split].
    + intros t m v Hm Hv. cbn [nodes]. destruct (decide (x = t)) as [<-|Hne'].
      * right. rewrite lookup_insert_eq. f_equal. apply Hx; assumption.
      * rewrite lookup_insert_ne by exact Hne'. apply Hset; assumption.
    + intros t (m & v & Hm & Hv & Hq). exists m, v. split; [exact Hm|]. split; [exact Hv|].
      cbn [nodes]. destruct (decide (x = t)) as [<-|Hne'].
      * rewrite lookup_insert_eq. f_equal. apply Hx; assumption.
      * rewrite lookup_insert_ne by exact Hne'. exact Hq.
    + intros m v Hm Hv _. exists m, v. split; [exact Hm|]. split; [exact Hv|].
      cbn [nodes]. rewrite lookup_insert_eq. f_equal. apply Hx; assumption.
Qed.

Lemma forEach_settles (p : Page) (fuel : nat) (l : list NodeId) :
  forall q, settled up p q -> structure_preserved (nodes p) (nodes q) ->
    (forall x, In x l -> ~ Excluded up (nodes p) x ->
       fst (shouldSkipNode up fuel x p) = Ok false) ->
    let q' := snd (forEach (checkAndReplaceInTextNode up fuel) l q) in
    fst (forEach (checkAndReplaceInTextNode up fuel) l q) = Ok tt ->
    settled up p q'
    /\ (forall t, rewritten_in up p q t -> rewritten_in up p q' t)
    /\ (forall x m v, In x l -> nodes p !! x = Some m -> nodeValue m = Some v ->
          ~ Excluded up (nodes p) x -> rewritten_in up p q' x).
Proof.
  induction l as [|x l IH]; intros q Hset Hs Hfuel; cbv zeta; cbn [forEach].
  - intros _. split; [exact Hset|]. split; [auto|]. intros x m v [].
  - destruct (checkAndReplaceInTextNode_settles p q fuel x Hset) as (Hset' & Hkeep & Hdone).
    pose proof (Rewrites_structure up _ _ _ (checkAndReplaceInTextNode_Rewrites up fuel x q))
      as Hs'.
    unfold bind.
    destruct (checkAndReplaceInTextNode up fuel x q) as [[[]|f|] q1] eqn:E;
      cbn [fst snd] in *; try discriminate.
    intros Hok.
    destruct (IH q1 Hset') as (Hset2 & Hkeep2 & Hdone2); try assumption.
    { eapply structure_preserved_trans; eassumption. }
    { intros y Hy. apply Hfuel. right. exact Hy. }
    split; [exact Hset2|]. split; [auto|].
    intros y m v [<-|Hy] Hm Hv Hx.
    + apply Hkeep2. apply (Hdone m v Hm Hv).
      rewrite (shouldSkipNode_structure up p q fuel x Hs).
      apply Hfuel; [left; reflexivity|exact Hx].
    + apply (Hdone2 y m v); assumption.
Qed.

(** On a well-formed document the sweep of a subtree completes and leaves
    every text node below the root that has no excluding ancestor with the
    rewriting of its value. *)
Lemma processNodes_rewrites_eligible_units (p : Page) (r : NodeId) (n : Node)
    (children : forest) :
  WellFormed (nodes p) -> nodes p !! r = Some n -> Subtree (nodes p) r children ->
  (nodeType n =? ELEMENT_NODE) && excluding up n = false ->
  exists fuel0, forall fuel, (fuel0 <= fuel)%nat ->
    fst (processNodes up fuel (Some r) p) = Ok tt
    /\ forall t m v,
         In t (preorder children) -> nodes p !! t = Some m ->
         nodeType m = TEXT_NODE -> nodeValue m = Some v ->
         ~ Excluded up (nodes p) t ->
         nodes (snd (processNodes up fuel (Some r) p)) !! t
         = Some (withValue m (rewrite_text up v)).
Proof.
  intros Hwf Hn Hsub Hroot.
  destruct (processNodes_ok p r Hwf) as [fuel1 Hok]; [congruence|].
  destruct (collectLoop_Subtree p r children SHOW_TEXT Hsub) as [fuel2 Hcollect].
  set (l := List.filter (showsb SHOW_TEXT (nodes p)) (preorder children)) in *.
  destruct (fuel_for_all
              (fun fuel x => ~ Excluded up (nodes p) x ->
                             fst (shouldSkipNode up fuel x p) = Ok false) l)
    as [fuel3 Hskip].
  { intros x Hx. apply filter_In in Hx as [_ Hx]. rewrite showsb_SHOW_TEXT in Hx.
    destruct (isTextNode_lookup _ _ Hx) as (m & Hm & Hty).
    destruct (Hwf x m Hm) as (Hchain & _).
    destruct (shouldSkipNode_eligible p x m Hm Hchain) as [fuel0 H0].
    exists fuel0. intros fuel Hf Hex. rewrite (H0 fuel Hf Hex). reflexivity. }
  exists (Nat.max fuel1 (Nat.max fuel2 fuel3)). intros fuel Hf.
  assert (Hrun : fst (processNodes up fuel (Some r) p) = Ok tt).
  { apply Hok; [lia|apply keeps_text_refl]. }
  split; [exact Hrun|].
  revert Hrun. cbn [processNodes]. rewrite bind_getNode, Hn.
  unfold excluding in Hroot. rewrite Hroot.
  rewrite (bind_ReadOnly _ _ p (ReadOnly_collectLoop fuel _ [])).
  rewrite Hcollect by lia. cbn [fst]. fold l. intros Hrun t m v Ht Hm Hty Hv Hx.
  destruct (forEach_settles p fuel l p) as (_ & _ & Hdone); try assumption.
  - intros t' m' v' Hm' Hv'. left. exact Hm'.
  - apply structure_preserved_refl.
  - intros x Hxl. apply Hskip; [lia|exact Hxl].
  - destruct (Hdone t m v) as (m' & v' & Hm' & Hv' & Hq); try assumption.
    + apply filter_In. split; [exact Ht|]. rewrite showsb_SHOW_TEXT.
      unfold isTextNode. rewrite Hm. apply N.eqb_eq. exact Hty.
    + rewrite Hm in Hm'. injection Hm' as <-. rewrite Hv in Hv'. injection Hv' as <-.
      exact Hq.
Qed.

(** ** The coordinator settles *)

Lemma Rewrites_fixed_at (Q : NodeId -> Prop) (p p' : Page) (t : NodeId) :
  Rewrites up Q p p' -> fixed_at up p t -> fixed_at up p' t.
Proof.
  induction 1 as [p|p u n v p' Hu Hn Hv Hx Hne Hrest IH]; intros Hfix; [exact Hfix|].
  apply IH. destruct Hfix as (m & w & Hm & Hw & Hfixed).
  exists m, w. split; [|split; assumption].
  cbn [rewritten_at nodes]. rewrite lookup_insert_ne; [exact Hm|].
  intros ->. rewrite Hn in Hm. injection Hm as <-. rewrite Hv in Hw.
  injection Hw as <-. exact (Hne Hfixed).
Qed.

(** The units assigned during a run hold fixed points of the engine at its
    end. *)
Lemma Rewrites_assigned (Q : NodeId -> Prop) (p p' : Page) :
  Rewrites up Q p p' ->
  exists writes, assigned p' = assigned p ++ writes
                 /\ forall w, In w writes -> fixed_at up p' (fst w).
Proof.
  induction 1 as [p|p t n v p' Ht Hn Hv Hx Hne Hrest (writes & Hlog & Hfix)].
  - exists []. split; [rewrite app_nil_r; reflexivity|]. intros w [].
  - exists ((t, rewrite_text up v) :: writes). split.
    + rewrite Hlog. cbn [rewritten_at assigned]. rewrite <- app_assoc. reflexivity.
    + intros w [<-|Hw]; [|apply Hfix; exact Hw]. cbn [fst].
      apply (Rewrites_fixed_at Q _ _ t Hrest).
      exists (withValue n (rewrite_text up v)), (rewrite_text up v).
      split; [cbn [rewritten_at nodes]; apply lookup_insert_eq|].
      split; [reflexivity|]. apply engine_idempotent.
Qed.

Lemma checkAndReplaceInTextNode_fixed (fuel : nat) (t : NodeId) (p : Page) :
  fixed_at up p t -> snd (checkAndReplaceInTextNode up fuel t p) = p.
Proof.
  intros (n & w & Hn & Hw & Hfixed).
  destruct (checkAndReplaceInTextNode_effect up fuel t p)
    as [Hsame|(n' & v' & Hn' & Hv' & _ & Hne & _)]; [exact Hsame|].
  exfalso. rewrite Hn in Hn'. injection Hn' as <-. rewrite Hw in Hv'.
  injection Hv' as <-. exact (Hne Hfixed).
Qed.

Lemma observer_notifications_fixed (fuel : nat) (writes : list (NodeId * jsstring))
    (p : Page) :
  (forall w, In w writes -> fixed_at up p (fst w)) ->
  snd (observer up fuel (notifications writes) p) = p.
Proof.
  unfold observer. induction writes as [|w writes IH]; intros Hfix; [reflexivity|].
  cbn [notifications map forEach type target]. rewrite snd_bind.
  rewrite (checkAndReplaceInTextNode_fixed fuel (fst w) p) by (apply Hfix; left; reflexivity).
  destruct (fst (checkAndReplaceInTextNode up fuel (fst w) p)); try reflexivity.
  apply IH. intros w' Hw'. apply Hfix. right. exact Hw'.
Qed.

(** No feedback loop: the records that report the assignments made by a
    sweep or by the callback, handed back to the callback, cause no further
    assignment. *)
Lemma own_notifications_change_nothing (fuel fuel' : nat) (p : Page) :
  (forall rootNode,
     let p' := snd (processNodes up fuel rootNode p) in
     exists writes, assigned p' = assigned p ++ writes
                    /\ snd (observer up fuel' (notifications writes) p') = p')
  /\ (forall mutationsList,
        let p' := snd (observer up fuel mutationsList p) in
        exists writes, assigned p' = assigned p ++ writes
                       /\ snd (observer up fuel' (notifications writes) p') = p').
Proof.
  split.
  - intros rootNode p'.
    destruct (Rewrites_assigned _ p p' (processNodes_Rewrites up fuel rootNode p))
      as (writes & Hlog & Hfix).
    exists writes. split; [exact Hlog|]. apply observer_notifications_fixed. exact Hfix.
  - intros mutationsList p'.
    destruct (Rewrites_assigned _ p p' (observer_Rewrites up fuel mutationsList p))
      as (writes & Hlog & Hfix).
    exists writes. split; [exact Hlog|]. apply observer_notifications_fixed. exact Hfix.
Qed.

End Totality.

(** * Main results *)

Section MainResults.

Variable up : N -> list N.

(** C1. The rewrite engine returns its input unchanged when the input holds
    no case-insensitive occurrence of "Gulf of America"; otherwise it returns
    a different string, in which the leftmost occurrence is replaced by
    "Gulf of Mexico" and the text after that occurrence is rewritten in the
    same way, so that every non-overlapping occurrence is replaced, wherever
    it stands in the input. *)
Theorem rewrite_text_replaces_every_occurrence (s : jsstring) :
  ((forall i, ~ occurs_at s i) -> rewrite_text up s = s)
  /\ (forall i, occurs_at s i -> (forall j, (j < i)%nat -> ~ occurs_at s j) ->
        rewrite_text up s
        = firstn i s ++ TEXT_TO_REPLACE_WITH
            ++ rewrite_text up (skipn (i + length TEXT_TO_FIND) s))
  /\ ((exists i, occurs_at s i) -> rewrite_text up s <> s)
  /\ Rewritten s (rewrite_text up s).
Proof.
  pose proof (rewrite_text_Rewritten up s) as Hrw.
  split; [|split; [|split]].
  - intros Hno. eapply Rewritten_functional; [exact Hrw|]. constructor. exact Hno.
  - intros i Hocc Hmin. eapply Rewritten_functional; [exact Hrw|].
    apply Rewritten_hit; [exact Hocc|exact Hmin|]. apply rewrite_text_Rewritten.
  - intros Hocc Heq. pose proof (Rewritten_shrinks s _ Hrw Hocc) as Hlt.
    rewrite Heq in Hlt. lia.
  - exact Hrw.
Qed.

(** C3. The rewrite engine is idempotent: its output holds no
    case-insensitive occurrence of "Gulf of America", neither inside a copy of
    the replacement, nor across the border between a copy and the text around
    it, nor in the text it left alone; so rewriting the output again changes
    nothing. *)
Theorem rewrite_text_idempotent (s : jsstring) :
  (forall i, ~ occurs_at (rewrite_text up s) i)
  /\ rewrite_text up (rewrite_text up s) = rewrite_text up s.
Proof.
  apply engine_idempotent.
Qed.

(** C9. The eligibility filter terminates: on a node whose chain of
    ancestors is finite, [shouldSkipNode] answers a boolean once it has fuel
    for the steps of the walk, and it answers [false] with any fuel when the
    node has no parent. *)
Theorem shouldSkipNode_terminates (p : Page) (t : NodeId) (n : Node) :
  nodes p !! t = Some n ->
  FiniteChain (nodes p) (parentNode n) ->
  (exists fuel0 b, forall fuel, (fuel0 <= fuel)%nat ->
     shouldSkipNode up fuel t p = (Ok b, p))
  /\ (parentNode n = None ->
      forall fuel, shouldSkipNode up fuel t p = (Ok false, p)).
Proof.
  intros Hn Hchain. split.
  - destruct (ancestorLoop_terminates up p _ Hchain) as (fuel0 & b & Hwalk).
    exists fuel0, b. intros fuel Hf. rewrite shouldSkipNode_unfold, Hn. apply Hwalk, Hf.
  - intros Hpar fuel. rewrite shouldSkipNode_unfold, Hn, Hpar. apply ancestorLoop_null.
Qed.

(** C10. [processNodes] on a null or undefined root returns at once: with
    any fuel and on any page, even one whose heap is empty, it completes and
    leaves the page as it is; so does the initial run when the document has
    no body. *)
Theorem processNodes_null_is_noop (fuel : nat) (p : Page) :
  processNodes up fuel None p = (Ok tt, p)
  /\ initialRun up fuel None p = (Ok tt, p).
Proof. split; reflexivity. Qed.

(** C4. [checkAndReplaceInTextNode] assigns [nodeValue] exactly when the
    filter lets the unit through and the rewritten string differs from the
    value the unit holds; in every other case the page, with its trace of
    assignments, is left as it is.  In particular the notification that a
    write causes leads to no further write. *)
Theorem checkAndReplaceInTextNode_writes_only_changes (fuel : nat) (t : NodeId) (p : Page) :
  let p' := snd (checkAndReplaceInTextNode up fuel t p) in
  (p' = p
   \/ exists n v, nodes p !! t = Some n /\ nodeValue n = Some v
                  /\ rewrite_text up v <> v /\ p' = rewritten_at up p t n v)
  /\ (forall n v, nodes p !! t = Some n -> nodeValue n = Some v ->
        rewrite_text up v = v -> p' = p)
  /\ (forall n v, nodes p !! t = Some n -> nodeValue n = Some v ->
        fst (shouldSkipNode up fuel t p) = Ok false -> rewrite_text up v <> v ->
        checkAndReplaceInTextNode up fuel t p = (Ok tt, rewritten_at up p t n v))
  /\ snd (checkAndReplaceInTextNode up fuel t p') = p'
  /\ snd (observer up fuel [mkMutationRecord characterData t []] p') = p'.
Proof.
  cbv zeta.
  assert (Hagain : snd (checkAndReplaceInTextNode up fuel t
                          (snd (checkAndReplaceInTextNode up fuel t p)))
                   = snd (checkAndReplaceInTextNode up fuel t p)).
  { destruct (checkAndReplaceInTextNode_effect up fuel t p)
      as [Hsame|(n & v & Hn & Hv & Hskip & Hne & Heq)].
    - rewrite Hsame. exact Hsame.
    - rewrite Heq. cbn [snd].
      destruct (checkAndReplaceInTextNode_effect up fuel t
                  (mkPage (<[t := withValue n (rewrite_text up v)]> (nodes p))
                          (assigned p ++ [(t, rewrite_text up v)])))
        as [Hsame|(n' & v' & Hn' & Hv' & _ & Hne' & _)]; [exact Hsame|].
      exfalso. cbn [nodes] in Hn'. rewrite lookup_insert_eq in Hn'.
      injection Hn' as <-. cbn [withValue nodeValue] in Hv'. injection Hv' as <-.
      apply Hne'. apply engine_idempotent. }
  split; [|split; [|split; [|split]]].
  - destruct (checkAndReplaceInTextNode_effect up fuel t p)
      as [Hsame|(n & v & Hn & Hv & Hskip & Hne & Heq)]; [left; exact Hsame|].
    right. exists n, v. rewrite Heq. repeat split; assumption.
  - intros n v Hn Hv Hfix.
    destruct (checkAndReplaceInTextNode_effect up fuel t p)
      as [Hsame|(n' & v' & Hn' & Hv' & _ & Hne & _)]; [exact Hsame|].
    exfalso. rewrite Hn in Hn'. injection Hn' as <-. rewrite Hv in Hv'.
    injection Hv' as <-. exact (Hne Hfix).
  - intros n v Hn Hv Hskip Hne. unfold checkAndReplaceInTextNode.
    rewrite (bind_ReadOnly _ _ p (ReadOnly_shouldSkipNode up fuel t)), Hskip.
    rewrite bind_getNode, Hn, Hv.
    replace (jsstring_eqb (rewrite_text up v) v) with false.
    + cbn [negb]. unfold setNodeValue. rewrite Hn. reflexivity.
    + symmetry. destruct (jsstring_eqb (rewrite_text up v) v) eqn:E; [|reflexivity].
      apply jsstring_eqb_eq in E. contradiction.
  - exact Hagain.
  - unfold observer. cbn [forEach type target]. rewrite snd_bind.
    destruct (fst (checkAndReplaceInTextNode up fuel t _)); exact Hagain.
Qed.

(** C2. A unit with an excluding ancestor element (a tag of the exclusion
    set, compared in upper case, or [isContentEditable]) reached through the
    chain of its ancestor elements is never rewritten: the walk never answers
    [false] for it, it answers [true] as soon as it has fuel to reach the
    first excluding ancestor, whatever lies above that ancestor (at an
    excluding element it answers [true] at once, with any fuel), and the
    single-unit handler, the sweep of any root, the initial run and the
    callback on any batch all leave the unit as it was.  (In a document tree
    every ancestor element is reached through elements, see
    [excluding_ancestor_ExcludedAbove].) *)
Theorem excluded_units_are_never_rewritten (fuel : nat) (p : Page) (t : NodeId) :
  Excluded up (nodes p) t ->
  fst (shouldSkipNode up fuel t p) <> Ok false
  /\ (exists fuel0, forall fuel', (fuel0 <= fuel')%nat ->
        shouldSkipNode up fuel' t p = (Ok true, p))
  /\ (forall e n fuel',
        nodes p !! e = Some n -> nodeType n = ELEMENT_NODE -> excluding up n = true ->
        ancestorLoop up fuel' (Some e) p = (Ok true, p))
  /\ snd (checkAndReplaceInTextNode up fuel t p) = p
  /\ (forall rootNode,
        nodes (snd (processNodes up fuel rootNode p)) !! t = nodes p !! t)
  /\ (forall body,
        nodes (snd (initialRun up fuel body p)) !! t = nodes p !! t)
  /\ (forall mutationsList,
        nodes (snd (observer up fuel mutationsList p)) !! t = nodes p !! t).
Proof.
  intros Hx. split; [|split; [|split; [|split; [|split; [|split]]]]].
  - apply shouldSkipNode_never_false. exact Hx.
  - destruct Hx as [n [Hn Hab]].
    destruct (ancestorLoop_excluded up p _ Hab) as [fuel0 Hwalk].
    exists fuel0. intros fuel' Hf. rewrite shouldSkipNode_unfold, Hn. apply Hwalk, Hf.
  - intros e n fuel' Hn Hty Hex. apply N.eqb_eq in Hty.
    rewrite ancestorLoop_unfold, Hn, Hty, Hex. reflexivity.
  - destruct (checkAndReplaceInTextNode_effect up fuel t p)
      as [Hsame|(n & v & _ & _ & Hskip & _)]; [exact Hsame|].
    exfalso. exact (shouldSkipNode_never_false up p t fuel Hx Hskip).
  - intros rootNode. eapply Rewrites_excluded; [apply processNodes_Rewrites|exact Hx].
  - intros [b|]; [|reflexivity]. cbn [initialRun].
    eapply Rewrites_excluded; [apply processNodes_Rewrites|exact Hx].
  - intros mutationsList.
    eapply Rewrites_excluded; [apply observer_Rewrites|exact Hx].
Qed.

Lemma Rewrites_writes_within (Q : NodeId -> Prop) (p p' : Page) :
  Rewrites up Q p p' ->
  writes_within Q (nodes p) (nodes p') /\ dom (nodes p') = dom (nodes p).
Proof.
  intros H. pose proof (Rewrites_structure up Q p p' H) as Hs.
  split; [split; [exact Hs|apply (Rewrites_frame up Q p p' H)]|].
  apply structure_preserved_dom. exact Hs.
Qed.

(** No operation writes the structure: after the sweep of any root, the
    initial run, the callback on any batch, or the single-unit handler, the
    document has the same nodes with the same types, tags, editability flags,
    attributes and parent, child and sibling links.  The sweeps leave every
    node that is not a text node as it was; the callback leaves every node as
    it was that is neither a text node nor the target of a [characterData]
    record, and the single-unit handler every node other than its unit. *)
Lemma operations_write_values_only (fuel : nat) (p : Page) :
  (forall rootNode,
     let p' := snd (processNodes up fuel rootNode p) in
     writes_within (fun x => isTextNode (nodes p) x = true) (nodes p) (nodes p')
     /\ dom (nodes p') = dom (nodes p))
  /\ (forall body,
        let p' := snd (initialRun up fuel body p) in
        writes_within (fun x => isTextNode (nodes p) x = true) (nodes p) (nodes p')
        /\ dom (nodes p') = dom (nodes p))
  /\ (forall mutationsList,
        let p' := snd (observer up fuel mutationsList p) in
        writes_within (batch_units p mutationsList) (nodes p) (nodes p')
        /\ dom (nodes p') = dom (nodes p))
  /\ (forall t,
        let p' := snd (checkAndReplaceInTextNode up fuel t p) in
        writes_within (eq t) (nodes p) (nodes p')
        /\ dom (nodes p') = dom (nodes p)).
Proof.
  split; [|split; [|split]].
  - intros rootNode. apply Rewrites_writes_within, processNodes_Rewrites.
  - intros [b|]; cbn [initialRun].
    + apply Rewrites_writes_within, processNodes_Rewrites.
    + apply Rewrites_writes_within. constructor.
  - intros mutationsList. apply Rewrites_writes_within, observer_Rewrites.
  - intros t. apply Rewrites_writes_within, checkAndReplaceInTextNode_Rewrites.
Qed.

(** C8. The handler does not look at the type of its unit.  A node that is
    not a text node, as a comment, that holds a string in which the phrase
    occurs and has no excluding ancestor is rewritten when a [characterData]
    record names it as its target: the handler, and the callback on that
    record, assign the rewritten value, so the value of a node that is no
    text node has changed. *)
Theorem characterData_target_is_rewritten_whatever_its_type (fuel : nat) (p : Page)
    (t : NodeId) (n : Node) (v : jsstring) (added : list NodeId) :
  nodes p !! t = Some n -> nodeType n <> TEXT_NODE -> nodeValue n = Some v ->
  fst (shouldSkipNode up fuel t p) = Ok false -> rewrite_text up v <> v ->
  let p' := snd (observer up fuel [mkMutationRecord characterData t added] p) in
  isTextNode (nodes p) t = false
  /\ checkAndReplaceInTextNode up fuel t p = (Ok tt, rewritten_at up p t n v)
  /\ observer up fuel [mkMutationRecord characterData t added] p
     = (Ok tt, rewritten_at up p t n v)
  /\ nodes p' !! t = Some (withValue n (rewrite_text up v))
  /\ nodes p' !! t <> nodes p !! t
  /\ assigned p' = assigned p ++ [(t, rewrite_text up v)].
Proof.
  intros Hn Hty Hv Hskip Hne. cbv zeta.
  pose proof (checkAndReplaceInTextNode_writes up fuel t p n v Hn Hv Hskip Hne) as Hrun.
  assert (Hobs : observer up fuel [mkMutationRecord characterData t added] p
                 = (Ok tt, rewritten_at up p t n v)).
  { unfold observer. cbn [forEach type target]. unfold bind. rewrite Hrun. reflexivity. }
  split; [|split; [exact Hrun|split; [exact Hobs|]]].
  - unfold isTextNode. rewrite Hn. apply N.eqb_neq. exact Hty.
  - rewrite Hobs. cbn [snd rewritten_at nodes assigned]. rewrite lookup_insert_eq, Hn.
    split; [reflexivity|]. split; [|reflexivity].
    intros Heq. injection Heq as Heq. apply (f_equal nodeValue) in Heq.
    cbn [withValue nodeValue] in Heq. rewrite Hv in Heq. injection Heq as Heq.
    exact (Hne Heq).
Qed.

Lemma forEach_app {A} (f : A -> M unit) (l1 l2 : list A) (p : Page) :
  forEach f (l1 ++ l2) p = bind (forEach f l1) (fun _ => forEach f l2) p.
Proof.
  revert p. induction l1 as [|x l1 IH]; intros p; cbn [forEach app].
  - reflexivity.
  - unfold bind in *. destruct (f x p) as [[[]|e|] q]; [apply IH|reflexivity|reflexivity].
Qed.

Lemma collectLoop_childless_root (fuel : nat) (p : Page) (t : NodeId) (n : Node) (show : N) :
  nodes p !! t = Some n -> firstChild n = None ->
  fst (collectLoop fuel (createTreeWalker t show) [] p) = Ok []
  \/ fst (collectLoop fuel (createTreeWalker t show) [] p) = OutOfFuel.
Proof.
  intros Hn Hc. destruct fuel as [|[|fuel]]; [right; reflexivity|right; reflexivity|].
  left. cbn [collectLoop].
  rewrite (bind_ReadOnly _ _ p (ReadOnly_nextNode (S fuel) _)).
  unfold nextNode. cbn [createTreeWalker currentNode].
  rewrite nextNodeLoop_unfold, Hn. cbv zeta. rewrite Hc. cbn [root].
  rewrite climb_unfold, Nat.eqb_refl. reflexivity.
Qed.

(** C5 (the defect). A node without children that is handed to the sweep,
    as every text node delivered on its own in a child-addition record is, is
    never rewritten: the walker never hands out its root, so the list of nodes
    to modify is empty and the page stays as it is, whatever the node holds. *)
Theorem added_text_node_is_not_swept (fuel : nat) (p : Page) (t : NodeId) (n : Node) :
  nodes p !! t = Some n -> firstChild n = None ->
  snd (processNodes up fuel (Some t) p) = p
  /\ (forall tgt, snd (observer up fuel [mkMutationRecord childList tgt [t]] p) = p).
Proof.
  intros Hn Hc.
  assert (Hsweep : snd (processNodes up fuel (Some t) p) = p).
  { cbn [processNodes]. rewrite bind_getNode, Hn.
    destruct ((nodeType n =? ELEMENT_NODE)
              && (includes EXCLUDED_TAGS (toUpperCase up (tagName n))
                  || isContentEditable n)); [reflexivity|].
    rewrite (bind_ReadOnly _ _ p (ReadOnly_collectLoop fuel _ [])).
    destruct (collectLoop_childless_root fuel p t n SHOW_TEXT Hn Hc) as [-> | ->];
      reflexivity. }
  split; [exact Hsweep|]. intros tgt.
  unfold observer. cbn [forEach type addedNodes]. rewrite !snd_bind.
  destruct (fst (bind _ _ p)); try rewrite snd_bind;
    destruct (fst (processNodes up fuel (Some t) p)); cbn [ret snd]; exact Hsweep.
Qed.


(** C7. The sweep has two phases.  Unless the root is an excluded element,
    [processNodes] first runs the walker to its end and only then applies
    [checkAndReplaceInTextNode] to the collected nodes, in the order of the
    collection.  The enumeration leaves the page as it is.  On a root whose
    subtree is a tree it collects, with enough fuel, exactly the text nodes
    below the root in document order.  It reads the structure only: a page
    that differs in text values alone gives the same enumeration.  And the
    second phase does apply the filter and the engine to every collected
    node: on a well-formed document, with enough fuel, the sweep completes,
    and then a text node below the root holds the rewriting of its value when
    it has no excluding ancestor and its old value when it has one. *)
Theorem processNodes_collects_then_rewrites (fuel : nat) (p : Page) (r : NodeId) (n : Node) :
  nodes p !! r = Some n ->
  processNodes up fuel (Some r) p
  = (if (nodeType n =? ELEMENT_NODE) && excluding up n then (Ok tt, p)
     else match fst (collectLoop fuel (createTreeWalker r SHOW_TEXT) [] p) with
          | Ok nodesToModify =>
              forEach (checkAndReplaceInTextNode up fuel) nodesToModify p
          | Throw f => (Throw f, p)
          | OutOfFuel => (OutOfFuel, p)
          end)
  /\ (forall fuel' tw acc q, snd (collectLoop fuel' tw acc q) = q)
  /\ (forall children, Subtree (nodes p) r children ->
        exists fuel0, forall fuel', (fuel0 <= fuel')%nat ->
          fst (collectLoop fuel' (createTreeWalker r SHOW_TEXT) [] p)
          = Ok (List.filter (isTextNode (nodes p)) (preorder children)))
  /\ (forall fuel' tw acc q,
        structure_preserved (nodes p) (nodes q) ->
        fst (collectLoop fuel' tw acc q) = fst (collectLoop fuel' tw acc p))
  /\ (forall children,
        WellFormed (nodes p) -> Subtree (nodes p) r children ->
        (nodeType n =? ELEMENT_NODE) && excluding up n = false ->
        exists fuel0, forall fuel', (fuel0 <= fuel')%nat ->
          let p' := snd (processNodes up fuel' (Some r) p) in
          fst (processNodes up fuel' (Some r) p) = Ok tt
          /\ forall t m v,
               In t (List.filter (isTextNode (nodes p)) (preorder children)) ->
               nodes p !! t = Some m -> nodeValue m = Some v ->
               (~ Excluded up (nodes p) t ->
                nodes p' !! t = Some (withValue m (rewrite_text up v)))
               /\ (Excluded up (nodes p) t -> nodes p' !! t = Some m)).
Proof.
  intros Hn. split; [|split; [|split; [|split]]].
  - cbn [processNodes]. rewrite bind_getNode, Hn. unfold excluding.
    destruct ((nodeType n =? ELEMENT_NODE)
              && (includes EXCLUDED_TAGS (toUpperCase up (tagName n))
                  || isContentEditable n)); [reflexivity|].
    apply bind_ReadOnly. apply ReadOnly_collectLoop.
  - intros fuel' tw acc q. apply ReadOnly_collectLoop.
  - intros children Hsub.
    destruct (collectLoop_Subtree p r children SHOW_TEXT Hsub) as [fuel0 Hcollect].
    exists fuel0. intros fuel' Hf. rewrite (Hcollect fuel' Hf). cbn [fst].
    f_equal. apply filter_ext. intros x. apply showsb_SHOW_TEXT.
  - intros fuel' tw acc q Hs. apply collectLoop_structure. exact Hs.
  - intros children Hwf Hsub Hroot.
    destruct (processNodes_rewrites_eligible_units up p r n children Hwf Hn Hsub Hroot)
      as [fuel0 H].
    exists fuel0. intros fuel' Hf. destruct (H fuel' Hf) as [Hok Hpost].
    cbv zeta. split; [exact Hok|]. intros t m v Ht Hm Hv.
    apply filter_In in Ht as [Ht Htext].
    split.
    + intros Hx. apply (Hpost t m v Ht Hm); [|exact Hv|exact Hx].
      unfold isTextNode in Htext. rewrite Hm in Htext. apply N.eqb_eq. exact Htext.
    + intros Hx. rewrite <- Hm.
      exact (Rewrites_excluded up _ _ _ t (processNodes_Rewrites up fuel' (Some r) p) Hx).
Qed.

End MainResults.

(** * The results on example documents *)

Lemma rewrite_text_replaces_every_occurrence_witness :
  rewrite_text identity_table (str "Gulf Stream") = str "Gulf Stream"
  /\ rewrite_text identity_table (str "The gulf of AMERICA, the Gulf of America.")
     = str "The Gulf of Mexico, the Gulf of Mexico."
  /\ rewrite_text identity_table (str "GULF OF AMERICA") <> str "GULF OF AMERICA".
Proof.
  split; [|split].
  - apply (rewrite_text_replaces_every_occurrence identity_table (str "Gulf Stream")).
    intros i. unfold occurs_at.
    do 12 (destruct i as [|i]; [vm_compute; discriminate|]).
    rewrite skipn_all2 by (simpl; lia). vm_compute. discriminate.
  - destruct (rewrite_text_replaces_every_occurrence identity_table
                (str "The gulf of AMERICA, the Gulf of America.")) as (_ & Hhit & _).
    rewrite (Hhit 4%nat).
    + vm_compute. reflexivity.
    + vm_compute. reflexivity.
    + intros j Hj. unfold occurs_at.
      do 4 (destruct j as [|j]; [vm_compute; discriminate|]). lia.
  - apply (rewrite_text_replaces_every_occurrence identity_table (str "GULF OF AMERICA")).
    exists 0%nat. vm_compute. reflexivity.
Defined.

Lemma code_unit_is_excluded : Excluded identity_table code_nodes 5%nat.
Proof.
  exists (text "Gulf of America" (Some 4%nat) None). split; [reflexivity|].
  cbn [text parentNode].
  eapply ExcludedAbove_up; [reflexivity|reflexivity|]. cbn [element parentNode].
  eapply ExcludedAbove_up; [reflexivity|reflexivity|]. cbn [element parentNode].
  eapply ExcludedAbove_here; [reflexivity|reflexivity|]. vm_compute. reflexivity.
Qed.

Lemma excluded_units_are_never_rewritten_witness :
  Excluded identity_table code_nodes 5%nat
  /\ fst (shouldSkipNode identity_table 10 5%nat code_page) <> Ok false
  /\ snd (checkAndReplaceInTextNode identity_table 10 5%nat code_page) = code_page
  /\ nodes (snd (processNodes identity_table 10 (Some 1%nat) code_page)) !! 5%nat
     = nodes code_page !! 5%nat.
Proof.
  pose proof (excluded_units_are_never_rewritten identity_table 10 code_page 5%nat
                code_unit_is_excluded) as (H1 & _ & _ & H3 & H4 & _).
  split; [exact code_unit_is_excluded|].
  split; [exact H1|]. split; [exact H3|]. apply H4.
Defined.

Lemma checkAndReplaceInTextNode_writes_only_changes_witness :
  checkAndReplaceInTextNode identity_table 10 3%nat small_page
  = (Ok tt, rewritten_at identity_table small_page 3%nat
              (text "Gulf of America" (Some 2%nat) None) (str "Gulf of America")).
Proof.
  pose proof (checkAndReplaceInTextNode_writes_only_changes identity_table 10 3%nat
                small_page) as (_ & _ & H & _).
  apply H.
  - reflexivity.
  - reflexivity.
  - vm_compute. reflexivity.
  - vm_compute. discriminate.
Defined.

Lemma added_text_node_is_not_swept_witness :
  isTextNode bare_text_nodes 2%nat = true
  /\ fst (shouldSkipNode identity_table 10 2%nat bare_text_page) = Ok false
  /\ occurs_at (str "Gulf of America") 0
  /\ snd (observer identity_table 10 [mkMutationRecord childList 1%nat [2%nat]]
            bare_text_page) = bare_text_page.
Proof.
  split; [vm_compute; reflexivity|]. split; [vm_compute; reflexivity|].
  split; [vm_compute; reflexivity|].
  apply (added_text_node_is_not_swept identity_table 10 bare_text_page 2%nat
           (text "Gulf of America" (Some 1%nat) None)); reflexivity.
Defined.

Ltac lookup_cases H :=
  match type of H with
  | (<[?k := _]> _) !! ?id = Some _ =>
      let E := fresh "E" in
      destruct (decide (id = k)) as [E|E];
      [subst id; rewrite lookup_insert_eq in H; injection H as <-
      |rewrite lookup_insert_ne in H by congruence; lookup_cases H]
  | ∅ !! _ = Some _ => rewrite lookup_empty in H; discriminate H
  end.

Ltac finite_chain :=
  repeat (eapply FiniteChain_step; [reflexivity|cbn [element text parentNode]]);
  apply FiniteChain_end.

Ltac shape :=
  cbn [Shape entry];
  repeat match goal with
         | |- _ /\ _ => split
         | |- True => exact I
         | |- exists n, _ !! _ = Some n /\ _ => eexists; split; [reflexivity|]
         | |- _ = _ => reflexivity
         end.

Lemma small_nodes_WellFormed : WellFormed small_nodes.
Proof.
  intros id n H. unfold small_nodes in H. lookup_cases H.
  - split; [finite_chain|]. split; [|discriminate].
    exists (Tree 2%nat (Tree 3%nat Leafless Leafless) Leafless).
    split; [|split]; [shape|shape|]. simpl. lia.
  - split; [finite_chain|]. split; [|discriminate].
    exists (Tree 3%nat Leafless Leafless).
    split; [|split]; [shape|shape|]. simpl. lia.
  - split; [finite_chain|]. split; [|discriminate].
    exists Leafless.
    split; [|split]; [shape|shape|]. simpl. lia.
Qed.


Lemma gulf_nodes_Subtree : Subtree gulf_nodes 1%nat gulf_children.
Proof.
  unfold gulf_children. split; [|split]; [shape|shape|]. simpl. lia.
Qed.

Lemma gulf_nodes_WellFormed : WellFormed gulf_nodes.
Proof.
  intros id n H. unfold gulf_nodes in H. lookup_cases H.
  - split; [finite_chain|]. split; [|discriminate].
    exists gulf_children. exact gulf_nodes_Subtree.
  - split; [finite_chain|]. split; [|discriminate].
    exists (Tree 3%nat Leafless
              (Tree 4%nat (Tree 5%nat Leafless Leafless) (Tree 6%nat Leafless Leafless))).
    split; [|split]; [shape|shape|]. simpl. lia.
  - split; [finite_chain|]. split; [|discriminate].
    exists Leafless. split; [|split]; [shape|shape|]. simpl. lia.
  - split; [finite_chain|]. split; [|discriminate].
    exists (Tree 5%nat Leafless Leafless). split; [|split]; [shape|shape|]. simpl. lia.
  - split; [finite_chain|]. split; [|discriminate].
    exists Leafless. split; [|split]; [shape|shape|]. simpl. lia.
  - split; [finite_chain|]. split; [|discriminate].
    exists Leafless. split; [|split]; [shape|shape|]. simpl. lia.
  - split; [finite_chain|]. split; [|discriminate].
    exists (Tree 8%nat Leafless Leafless). split; [|split]; [shape|shape|]. simpl. lia.
  - split; [finite_chain|]. split; [|discriminate].
    exists Leafless. split; [|split]; [shape|shape|]. simpl. lia.
Qed.

Lemma gulf_script_is_excluded : Excluded identity_table gulf_nodes 8%nat.
Proof.
  exists (text "var x = 'Gulf of America';" (Some 7%nat) None). split; [reflexivity|].
  cbn [text parentNode].
  eapply ExcludedAbove_here; [reflexivity|reflexivity|]. vm_compute. reflexivity.
Qed.

Lemma gulf_unit_is_eligible : ~ Excluded identity_table gulf_nodes 5%nat.
Proof.
  intro Hx. apply (shouldSkipNode_never_false identity_table gulf_page 5%nat 10 Hx).
  vm_compute. reflexivity.
Qed.

Lemma processNodes_collects_then_rewrites_witness :
  Subtree gulf_nodes 1%nat gulf_children
  /\ (exists fuel0, forall fuel', (fuel0 <= fuel')%nat ->
        fst (collectLoop fuel' (createTreeWalker 1%nat SHOW_TEXT) [] gulf_page)
        = Ok [3%nat; 5%nat; 6%nat; 8%nat])
  /\ (exists fuel0, forall fuel', (fuel0 <= fuel')%nat ->
        let p' := snd (processNodes identity_table fuel' (Some 1%nat) gulf_page) in
        fst (processNodes identity_table fuel' (Some 1%nat) gulf_page) = Ok tt
        /\ nodes p' !! 5%nat
           = Some (withValue (text "Gulf of America" (Some 4%nat) None)
                     (rewrite_text identity_table (str "Gulf of America")))
        /\ nodes p' !! 8%nat
           = Some (text "var x = 'Gulf of America';" (Some 7%nat) None)).
Proof.
  split; [exact gulf_nodes_Subtree|].
  pose proof (processNodes_collects_then_rewrites identity_table 10 gulf_page 1%nat
                (element "BODY" false None (Some 2%nat) None) eq_refl)
    as (_ & _ & Hcollect & _ & Hsweep).
  split; [exact (Hcollect gulf_children gulf_nodes_Subtree)|].
  destruct (Hsweep gulf_children gulf_nodes_WellFormed gulf_nodes_Subtree)
    as [fuel0 H]; [vm_compute; reflexivity|].
  exists fuel0. intros fuel' Hf. destruct (H fuel' Hf) as [Hok Hpost].
  cbv zeta. split; [exact Hok|]. split.
  - apply (Hpost 5%nat (text "Gulf of America" (Some 4%nat) None)
             (str "Gulf of America")); [vm_compute; auto|reflexivity|reflexivity|].
    exact gulf_unit_is_eligible.
  - apply (Hpost 8%nat (text "var x = 'Gulf of America';" (Some 7%nat) None)
             (str "var x = 'Gulf of America';")); [vm_compute; auto|reflexivity|reflexivity|].
    exact gulf_script_is_excluded.
Defined.

Lemma characterData_target_is_rewritten_whatever_its_type_witness :
  isTextNode comment_nodes 2%nat = false
  /\ observer identity_table 10 [mkMutationRecord characterData 2%nat []] comment_page
     = (Ok tt, rewritten_at identity_table comment_page 2%nat
                 (comment "Gulf of America" (Some 1%nat) None) (str "Gulf of America"))
  /\ nodes (snd (observer identity_table 10 [mkMutationRecord characterData 2%nat []]
                   comment_page)) !! 2%nat
     = Some (withValue (comment "Gulf of America" (Some 1%nat) None)
               (rewrite_text identity_table (str "Gulf of America"))).
Proof.
  destruct (characterData_target_is_rewritten_whatever_its_type identity_table 10
              comment_page 2%nat (comment "Gulf of America" (Some 1%nat) None)
              (str "Gulf of America") []) as (H1 & _ & H3 & H4 & _).
  - reflexivity.
  - discriminate.
  - reflexivity.
  - vm_compute. reflexivity.
  - vm_compute. discriminate.
  - split; [exact H1|]. split; [exact H3|exact H4].
Defined.

(** The comment of the example after the callback: it reads
    [<!--Gulf of Mexico-->]. *)
Example comment_page_rewritten :
  nodes (snd (observer identity_table 10 [mkMutationRecord characterData 2%nat []]
                comment_page)) !! 2%nat
  = Some (comment "Gulf of Mexico" (Some 1%nat) None).
Proof. vm_compute. reflexivity. Qed.

Lemma shouldSkipNode_terminates_witness :
  (exists fuel0 b, forall fuel, (fuel0 <= fuel)%nat ->
     shouldSkipNode identity_table fuel 3%nat small_page = (Ok b, small_page))
  /\ forall fuel, shouldSkipNode identity_table fuel 1%nat small_page = (Ok false, small_page).
Proof.
  split.
  - apply (shouldSkipNode_terminates identity_table small_page 3%nat
             (text "Gulf of America" (Some 2%nat) None)); [reflexivity|].
    cbn [text parentNode]. finite_chain.
  - apply (shouldSkipNode_terminates identity_table small_page 1%nat
             (element "BODY" false None (Some 2%nat) None)); [reflexivity| |reflexivity].
    cbn [element parentNode]. finite_chain.
Defined.

(** The end-to-end example of the specification: the paragraph is rewritten,
    the script is not. *)
Example gulf_page_swept :
  let p' := snd (initialRun identity_table 20 (Some 1%nat) gulf_page) in
  fst (initialRun identity_table 20 (Some 1%nat) gulf_page) = Ok tt
  /\ (nodes p' !! 5%nat) = Some (text "Gulf of Mexico" (Some 4%nat) None)
  /\ (nodes p' !! 8%nat) = nodes gulf_page !! 8%nat
  /\ assigned p' = [(5%nat, str "Gulf of Mexico")].
Proof. vm_compute. repeat split; reflexivity. Qed.

Example rewrite_text_examples :
  rewrite_text identity_table (str "gulf of america") = str "Gulf of Mexico"
  /\ rewrite_text identity_table (str "GULF OF AMERICA") = str "Gulf of Mexico"
  /\ rewrite_text identity_table (str "Gulf of AmericaGulf of America")
     = str "Gulf of MexicoGulf of Mexico"
  /\ rewrite_text identity_table (str "Gulf of Americ") = str "Gulf of Americ".
Proof. vm_compute. repeat split; reflexivity. Qed.

(** * More on the rewrite engine *)

Lemma backslash_isSyntaxCharacter (c : N) :
  (c =? 92) = true -> isSyntaxCharacter c = true.
Proof. intros H. apply N.eqb_eq in H. subst c. reflexivity. Qed.

Lemma parsePattern_escapeRegExp (s : jsstring) :
  parsePattern (escapeRegExp s) = Some s.
Proof.
  induction s as [|c s IH]; [reflexivity|].
  unfold escapeRegExp in *. cbn [flat_map].
  destruct (isSyntaxCharacter c) eqn:Hc.
  - cbn [app parsePattern]. rewrite N.eqb_refl, Hc, IH. reflexivity.
  - cbn [app parsePattern].
    destruct (c =? 92) eqn:Hb.
    + rewrite (backslash_isSyntaxCharacter c Hb) in Hc. discriminate.
    + rewrite Hc, IH. reflexivity.
Qed.

Lemma matcher_refl (up : N -> list N) (rer : RegExp) (s rest : jsstring) :
  matcher up rer s (s ++ rest) = true.
Proof.
  induction s as [|c s IH]; [reflexivity|].
  cbn [matcher app]. rewrite N.eqb_refl, IH. reflexivity.
Qed.

(** X1. The escaping of line 8 makes every phrase a literal pattern: for
    every phrase, also one that holds pattern syntax, and for every choice of
    the flags [g] and [i], [new RegExp] accepts the escaped phrase and the
    compiled pattern is the phrase itself, character by character.  So a
    global pattern whose [lastIndex] stands where the phrase starts matches
    the phrase there, and a pattern that is not global, which searches from
    the start whatever its [lastIndex] holds, matches a phrase at the start
    of the input. *)
Theorem escaped_phrase_compiles_to_itself (up : N -> list N) (phrase : jsstring)
    (g i : bool) :
  RegExp_new (escapeRegExp phrase) g i = Some (mkRegExp phrase g i)
  /\ (forall before after,
        RegExpBuiltinExec up (mkRegExp phrase true i) (before ++ phrase ++ after)
                          (length before)
        = Some (length before, (length before + length phrase)%nat))
  /\ (forall after lastIndex,
        RegExpBuiltinExec up (mkRegExp phrase false i) (phrase ++ after) lastIndex
        = Some (0%nat, length phrase)).
Proof.
  split; [|split].
  - unfold RegExp_new. rewrite parsePattern_escapeRegExp. reflexivity.
  - intros before after. unfold RegExpBuiltinExec. cbn [global]. cbv zeta.
    replace (length (before ++ phrase ++ after) <? length before)%nat with false
      by (symmetry; apply Nat.ltb_ge; rewrite length_app; lia).
    rewrite skipn_app, skipn_all, Nat.sub_diag, skipn_O. cbn [app].
    destruct (phrase ++ after) as [|c rest] eqn:E; cbn [execScan pattern];
      rewrite <- E, matcher_refl; reflexivity.
  - intros after lastIndex. unfold RegExpBuiltinExec. cbn [global]. cbv zeta.
    rewrite skipn_O.
    destruct (phrase ++ after) as [|c rest] eqn:E; cbn [execScan pattern length Nat.ltb Nat.leb];
      rewrite <- E, matcher_refl; reflexivity.
Qed.

(** X2. The engine does not depend on the Unicode tables of the platform:
    a code unit from 128 on never stands in a match, so every match is made
    of ASCII code units only and two platforms rewrite every string alike. *)
Theorem rewrite_text_is_ascii_only (up up' : N -> list N) (s : jsstring) :
  rewrite_text up s = rewrite_text up' s
  /\ forall x,
       matcher up SEARCH_REGEX (pattern SEARCH_REGEX) x = true ->
       Forall (fun c => c < 128) (firstn (length TEXT_TO_FIND) x).
Proof.
  split.
  - eapply Rewritten_functional; apply rewrite_text_Rewritten.
  - intros x. change (pattern SEARCH_REGEX) with TEXT_TO_FIND.
    rewrite (matcher_ci_prefix up _ _ TEXT_TO_FIND_ascii).
    generalize TEXT_TO_FIND_ascii. generalize TEXT_TO_FIND. intros ph Hph. revert x.
    induction Hph as [|a ph Ha Hph IH]; intros x; [constructor|].
    destruct x as [|c x]; [discriminate|]. cbn [ci_prefix length firstn].
    intros H. apply andb_true_iff in H as [Hl Hrest]. constructor; [|apply IH, Hrest].
    unfold same_letter in Hl. apply N.eqb_eq in Hl.
    destruct (N.lt_ge_cases c 128) as [Hc|Hc]; [exact Hc|].
    rewrite (ascii_upper_ge c Hc) in Hl. pose proof (ascii_upper_lt a Ha). lia.
Qed.

Lemma engine_count (up : N -> list N) (s' t : jsstring) :
  Rewritten s' t ->
  forall (s : jsstring) (k : nat),
    s' = skipn k s -> (k <= length s)%nat ->
    length s' = (length t + length (matchLoop up SEARCH_REGEX s k))%nat.
Proof.
  induction 1 as [s' Hno|s' i t Hocc Hmin Hrest IH]; intros s k Hs Hk.
  - rewrite (matchLoop_step up SEARCH_REGEX _ _ eq_refl), (RegExpBuiltinExec_first_occurrence up s k Hk), <- Hs.
    destruct (first_occurrence s') as [i|] eqn:E.
    { exfalso. apply first_occurrence_Some in E as [E _]. exact (Hno i E). }
    cbn [option_map length]. lia.
  - rewrite (matchLoop_step up SEARCH_REGEX _ _ eq_refl), (RegExpBuiltinExec_first_occurrence up s k Hk), <- Hs.
    rewrite (first_occurrence_complete s' i Hocc Hmin). cbn [option_map].
    pose proof (occurs_at_bound s' i Hocc) as Hb.
    assert (Hlen : length TEXT_TO_FIND = 15%nat) by reflexivity.
    replace (k + i + length TEXT_TO_FIND =? k + i)%nat with false
      by (symmetry; apply Nat.eqb_neq; lia).
    assert (IHeq := IH s (k + i + length TEXT_TO_FIND)%nat).
    rewrite length_skipn in IHeq. cbn [length].
    rewrite !length_app, length_firstn.
    change (length TEXT_TO_REPLACE_WITH) with 14%nat.
    rewrite Hs, length_skipn in Hb.
    assert (Hrec : (length s' - (i + length TEXT_TO_FIND)
                    = length t + length (matchLoop up SEARCH_REGEX s
                                           (k + i + length TEXT_TO_FIND)))%nat).
    { apply IHeq; [rewrite Hs, skipn_skipn; f_equal; lia|lia]. }
    rewrite Hs, length_skipn in Hrec |- *. lia.
Qed.

(** X3. Rewriting never lengthens a text: the result is shorter than the
    input by one code unit for each match that the replace loop finds. *)
Theorem rewrite_text_length (up : N -> list N) (s : jsstring) :
  length s
  = (length (rewrite_text up s) + length (matchLoop up SEARCH_REGEX s 0))%nat.
Proof.
  apply (engine_count up s (rewrite_text up s) (rewrite_text_Rewritten up s) s 0%nat);
    [reflexivity|lia].
Qed.

(** * More on the eligibility filter *)

Lemma StringToCodePoints_ascii (s : jsstring) :
  Forall (fun c => c < 128) s -> StringToCodePoints s = s.
Proof.
  induction 1 as [|u rest Hu Hrest IH]; [reflexivity|].
  cbn [StringToCodePoints]. destruct rest as [|t rest']; [reflexivity|].
  replace (is_lead_surrogate u) with false; [cbn [andb]; rewrite IH; reflexivity|].
  symmetry. unfold is_lead_surrogate. apply andb_false_iff. left. apply N.leb_gt. lia.
Qed.

Lemma toUpperCase_ascii (up : N -> list N) (s : jsstring) :
  Forall (fun c => c < 128) s -> toUpperCase up s = map ascii_upper s.
Proof.
  intros Hs. unfold toUpperCase. rewrite (StringToCodePoints_ascii s Hs).
  induction Hs as [|c s Hc Hs IH]; [reflexivity|].
  unfold toUppercase, CodePointsToString in *. cbn [flat_map map].
  replace (c <? 128) with true by (symmetry; apply N.ltb_lt; exact Hc).
  cbn [app flat_map]. rewrite IH. unfold UTF16EncodeCodePoint.
  pose proof (ascii_upper_lt c Hc).
  replace (ascii_upper c <=? 65535) with true by (symmetry; apply N.leb_le; lia).
  reflexivity.
Qed.

Lemma includes_In (arr : list jsstring) (x : jsstring) :
  includes arr x = true <-> In x arr.
Proof.
  induction arr as [|y arr IH]; cbn [includes In]; [split; [discriminate|tauto]|].
  split.
  - intros H. apply orb_true_iff in H as [H|H].
    + left. apply jsstring_eqb_eq. exact H.
    + right. apply IH. exact H.
  - intros [H|H]; apply orb_true_iff.
    + left. apply jsstring_eqb_eq. exact H.
    + right. apply IH. exact H.
Qed.

(** X6. The comparison of tag names ignores the case of the ASCII letters
    and nothing else: an element whose tag name is ASCII is in the exclusion
    set exactly when its name, with a-z turned to A-Z, is one of the ten names
    of [EXCLUDED_TAGS], on every platform. *)
Theorem excluded_tags_ignore_ascii_case (up : N -> list N) (n : Node) :
  Forall (fun c => c < 128) (tagName n) ->
  (includes EXCLUDED_TAGS (toUpperCase up (tagName n)) = true
   <-> In (map ascii_upper (tagName n)) EXCLUDED_TAGS)
  /\ excluding up n
     = includes EXCLUDED_TAGS (map ascii_upper (tagName n)) || isContentEditable n.
Proof.
  intros Hs. unfold excluding. rewrite (toUpperCase_ascii up _ Hs).
  split; [apply includes_In|reflexivity].
Qed.

Section MoreOnTheFilter.

Variable up : N -> list N.

Lemma ancestorLoop_false_sound (p : Page) (fuel : nat) (cur : option NodeId) :
  fst (ancestorLoop up fuel cur p) = Ok false -> ~ ExcludedAbove up (nodes p) cur.
Proof.
  intros H Hx. exact (ancestorLoop_never_false up p cur fuel Hx H).
Qed.

(** X4. The filter is exact.  Whatever the fuel, an answer [true] means that
    some element on the chain of ancestor elements is in the exclusion set or
    editable, and an answer [false] means that none is; and on a finite chain
    of ancestors the filter does answer, [true] for a unit with such an
    ancestor and [false] for a unit without. *)
Theorem shouldSkipNode_is_exact (p : Page) (t : NodeId) (n : Node) :
  nodes p !! t = Some n ->
  (forall fuel, fst (shouldSkipNode up fuel t p) = Ok true -> Excluded up (nodes p) t)
  /\ (forall fuel, fst (shouldSkipNode up fuel t p) = Ok false ->
        ~ Excluded up (nodes p) t)
  /\ (FiniteChain (nodes p) (parentNode n) ->
      exists fuel0, forall fuel, (fuel0 <= fuel)%nat ->
        (Excluded up (nodes p) t -> shouldSkipNode up fuel t p = (Ok true, p))
        /\ (~ Excluded up (nodes p) t -> shouldSkipNode up fuel t p = (Ok false, p))).
Proof.
  intros Hn. split; [|split].
  - intros fuel H. exists n. split; [exact Hn|].
    rewrite shouldSkipNode_unfold, Hn in H. eapply ancestorLoop_true_sound. exact H.
  - intros fuel H Hx. exact (shouldSkipNode_never_false up p t fuel Hx H).
  - intros Hchain.
    destruct (ancestorLoop_terminates up p _ Hchain) as (fuel0 & b & Hwalk).
    exists fuel0. intros fuel Hf.
    assert (Hrun : shouldSkipNode up fuel t p = (Ok b, p)).
    { rewrite shouldSkipNode_unfold, Hn. apply Hwalk, Hf. }
    rewrite Hrun. split; intros Hx; destruct b; try reflexivity; exfalso.
    + apply (shouldSkipNode_never_false up p t fuel Hx). rewrite Hrun. reflexivity.
    + apply Hx. exists n. split; [exact Hn|].
      apply (ancestorLoop_true_sound up p fuel). rewrite (Hwalk fuel Hf). reflexivity.
Qed.

(** X5. The filter looks at the structure of the document only: it leaves
    the page as it is, and on two pages that differ in text values alone it
    gives the same answer, with the same fuel. *)
Theorem shouldSkipNode_ignores_text_values (fuel : nat) (t : NodeId) (p q : Page) :
  snd (shouldSkipNode up fuel t p) = p
  /\ (structure_preserved (nodes p) (nodes q) ->
      fst (shouldSkipNode up fuel t q) = fst (shouldSkipNode up fuel t p)).
Proof.
  split; [apply ReadOnly_shouldSkipNode|apply shouldSkipNode_structure].
Qed.

(** X7. The single-unit handler faults only on a node without character
    data that the filter lets through: there it throws a [TypeError] and
    leaves the page as it is.  When the filter answers [true] the handler
    completes without reading the value, and on a node that carries a string
    it completes whenever the filter answers. *)
Theorem checkAndReplaceInTextNode_faults (fuel : nat) (t : NodeId) (p : Page) (n : Node) :
  nodes p !! t = Some n ->
  (fst (shouldSkipNode up fuel t p) = Ok true ->
   checkAndReplaceInTextNode up fuel t p = (Ok tt, p))
  /\ (fst (shouldSkipNode up fuel t p) = Ok false -> nodeValue n = None ->
      checkAndReplaceInTextNode up fuel t p = (Throw TypeError, p))
  /\ (forall b, fst (shouldSkipNode up fuel t p) = Ok b -> nodeValue n <> None ->
      fst (checkAndReplaceInTextNode up fuel t p) = Ok tt)
  /\ (fst (checkAndReplaceInTextNode up fuel t p) <> Ok tt ->
      snd (checkAndReplaceInTextNode up fuel t p) = p).
Proof.
  intros Hn. unfold checkAndReplaceInTextNode.
  rewrite (bind_ReadOnly _ _ p (ReadOnly_shouldSkipNode up fuel t)).
  split; [|split; [|split]].
  - intros ->. reflexivity.
  - intros -> Hv. rewrite bind_getNode, Hn, Hv. reflexivity.
  - intros b -> Hv. destruct b; [reflexivity|].
    rewrite bind_getNode, Hn. destruct (nodeValue n) as [v|]; [|contradiction].
    destruct (negb (jsstring_eqb (rewrite_text up v) v)); [|reflexivity].
    unfold setNodeValue. rewrite Hn. reflexivity.
  - destruct (fst (shouldSkipNode up fuel t p)) as [[|]|f|]; try reflexivity.
    rewrite bind_getNode, Hn. destruct (nodeValue n) as [v|]; [|reflexivity].
    destruct (negb (jsstring_eqb (rewrite_text up v) v)); [|reflexivity].
    unfold setNodeValue. rewrite Hn. cbn [fst]. intros H. contradiction.
Qed.

(** X8. After the single-unit handler has run on a unit that the filter lets
    through, the unit holds the rewriting of its value, which holds no
    occurrence of the phrase any more, and every other node is as it was. *)
Theorem checkAndReplaceInTextNode_clears_the_phrase (fuel : nat) (t : NodeId) (p : Page)
    (n : Node) (v : jsstring) :
  nodes p !! t = Some n -> nodeValue n = Some v ->
  fst (shouldSkipNode up fuel t p) = Ok false ->
  let p' := snd (checkAndReplaceInTextNode up fuel t p) in
  fst (checkAndReplaceInTextNode up fuel t p) = Ok tt
  /\ nodes p' !! t = Some (withValue n (rewrite_text up v))
  /\ (forall i, ~ occurs_at (rewrite_text up v) i)
  /\ (forall u, u <> t -> nodes p' !! u = nodes p !! u).
Proof.
  intros Hn Hv Hskip. cbv zeta. unfold checkAndReplaceInTextNode.
  rewrite (bind_ReadOnly _ _ p (ReadOnly_shouldSkipNode up fuel t)), Hskip.
  rewrite bind_getNode, Hn, Hv.
  split; [|split; [|split]].
  - destruct (negb (jsstring_eqb (rewrite_text up v) v)); [|reflexivity].
    unfold setNodeValue. rewrite Hn. reflexivity.
  - destruct (jsstring_eqb (rewrite_text up v) v) eqn:E; cbn [negb].
    + apply jsstring_eqb_eq in E. cbn [ret snd]. rewrite E, Hn. f_equal.
      symmetry. apply withValue_same. exact Hv.
    + unfold setNodeValue. rewrite Hn. cbn [snd nodes]. apply lookup_insert_eq.
  - apply engine_idempotent.
  - intros u Hu. destruct (negb (jsstring_eqb (rewrite_text up v) v)); [|reflexivity].
    unfold setNodeValue. rewrite Hn. cbn [snd nodes]. apply lookup_insert_ne. congruence.
Qed.

End MoreOnTheFilter.

(** * More on the sweep *)

(** Fuel that was enough stays enough. *)
Lemma climb_more_fuel (p : Page) (r : NodeId) (fuel fuel' : nat) (t : option NodeId)
    (c : Climb) :
  fst (climb fuel r t p) = Ok c -> (fuel <= fuel')%nat ->
  fst (climb fuel' r t p) = Ok c.
Proof.
  revert fuel' t. induction fuel as [|fuel IH]; intros fuel' [t|] H Hf;
    try (destruct fuel'; exact H);
    rewrite climb_unfold in H |- *; destruct (t =? r)%nat; try exact H;
    destruct (nodes p !! t) as [n|]; try exact H;
    destruct (nextSibling n); try exact H; try discriminate.
  destruct fuel' as [|fuel']; [lia|]. apply IH; [exact H|lia].
Qed.

Lemma nextNodeLoop_more_fuel (p : Page) (tw : TreeWalker) (fuel fuel' : nat)
    (node : NodeId) (result : FilterResult) (r : option NodeId * TreeWalker) :
  fst (nextNodeLoop fuel tw node result p) = Ok r -> (fuel <= fuel')%nat ->
  fst (nextNodeLoop fuel' tw node result p) = Ok r.
Proof.
  revert fuel' node result. induction fuel as [|fuel IH]; intros fuel' node result H Hf;
    [discriminate|].
  destruct fuel' as [|fuel']; [lia|].
  rewrite nextNodeLoop_unfold in H |- *. cbv zeta in *.
  assert (Hvisit : forall x,
            fst (match nodes p !! x with
                 | None => (Throw TypeError, p)
                 | Some c =>
                     match filterNode tw c with
                     | FILTER_ACCEPT => (Ok (Some x, setCurrent tw x), p)
                     | res => nextNodeLoop fuel tw x res p
                     end
                 end) = Ok r ->
            fst (match nodes p !! x with
                 | None => (Throw TypeError, p)
                 | Some c =>
                     match filterNode tw c with
                     | FILTER_ACCEPT => (Ok (Some x, setCurrent tw x), p)
                     | res => nextNodeLoop fuel' tw x res p
                     end
                 end) = Ok r).
  { intros x. destruct (nodes p !! x) as [c|]; [|exact (fun H => H)].
    destruct (filterNode tw c); try exact (fun H => H); intros Hx; apply IH;
      try exact Hx; lia. }
  destruct (nodes p !! node) as [n|]; [|exact H].
  destruct (match result with FILTER_REJECT => None | _ => firstChild n end) as [child|];
    [apply Hvisit; exact H|].
  destruct (fst (climb fuel (root tw) (Some node) p)) as [c|f|] eqn:Hc; try discriminate.
  rewrite (climb_more_fuel p (root tw) fuel fuel' (Some node) c Hc) by lia.
  destruct c as [sibling| |]; [apply Hvisit; exact H|exact H|].
  destruct (filterNode tw n); try exact H; apply IH; try exact H; lia.
Qed.

Lemma collectLoop_more_fuel (p : Page) (fuel fuel' : nat) (tw : TreeWalker)
    (acc l : list NodeId) :
  fst (collectLoop fuel tw acc p) = Ok l -> (fuel <= fuel')%nat ->
  fst (collectLoop fuel' tw acc p) = Ok l.
Proof.
  revert fuel' tw acc. induction fuel as [|fuel IH]; intros fuel' tw acc H Hf;
    [discriminate|].
  destruct fuel' as [|fuel']; [lia|]. cbn [collectLoop] in H |- *.
  rewrite (bind_ReadOnly _ _ p (ReadOnly_nextNode fuel tw)) in H.
  rewrite (bind_ReadOnly _ _ p (ReadOnly_nextNode fuel' tw)).
  unfold nextNode in *.
  destruct (fst (nextNodeLoop fuel tw (currentNode tw) FILTER_ACCEPT p))
    as [r|f|] eqn:Hr; try discriminate.
  rewrite (nextNodeLoop_more_fuel p tw fuel fuel' _ _ r Hr) by lia.
  destruct (fst r); [|exact H]. apply IH; [exact H|lia].
Qed.

(** Whatever fuel lets the enumeration end, it yields the text nodes below
    the root. *)
Lemma collectLoop_Subtree_any_fuel (p : Page) (r : NodeId) (children : forest)
    (fuel : nat) (l : list NodeId) :
  Subtree (nodes p) r children ->
  fst (collectLoop fuel (createTreeWalker r SHOW_TEXT) [] p) = Ok l ->
  l = List.filter (isTextNode (nodes p)) (preorder children).
Proof.
  intros Hsub Hl.
  destruct (collectLoop_Subtree p r children SHOW_TEXT Hsub) as [fuel0 Hcollect].
  pose proof (collectLoop_more_fuel p fuel (Nat.max fuel fuel0) _ _ l Hl
                (Nat.le_max_l _ _)) as Hbig.
  rewrite (Hcollect (Nat.max fuel fuel0) (Nat.le_max_r _ _)) in Hbig.
  cbn [fst] in Hbig. injection Hbig as <-.
  apply filter_ext. intros x. apply showsb_SHOW_TEXT.
Qed.

Section MoreOnTheSweep.

Variable up : N -> list N.

(** X9. On a well-formed document the sweep of a root that is not an
    excluded element completes, with enough fuel, and then every text node
    below the root that has no excluding ancestor holds the rewriting of its
    value, in which the phrase occurs no more. *)
Theorem processNodes_rewrites_every_eligible_unit (p : Page) (r : NodeId) (n : Node)
    (children : forest) :
  WellFormed (nodes p) -> nodes p !! r = Some n -> Subtree (nodes p) r children ->
  (nodeType n =? ELEMENT_NODE) && excluding up n = false ->
  exists fuel0, forall fuel, (fuel0 <= fuel)%nat ->
    fst (processNodes up fuel (Some r) p) = Ok tt
    /\ forall t m v,
         In t (preorder children) -> nodes p !! t = Some m ->
         nodeType m = TEXT_NODE -> nodeValue m = Some v ->
         ~ Excluded up (nodes p) t ->
         nodes (snd (processNodes up fuel (Some r) p)) !! t
         = Some (withValue m (rewrite_text up v))
         /\ forall i, ~ occurs_at (rewrite_text up v) i.
Proof.
  intros Hwf Hn Hsub Hroot.
  destruct (processNodes_rewrites_eligible_units up p r n children Hwf Hn Hsub Hroot)
    as [fuel0 H].
  exists fuel0. intros fuel Hf. destruct (H fuel Hf) as [Hok Hpost].
  split; [exact Hok|]. intros t m v Ht Hm Hty Hv Hx.
  split; [apply Hpost; assumption|apply engine_idempotent].
Qed.

(** X11. The sweep is scoped to the subtree of its root: with any fuel, a
    node that does not lie below the root, or that is no text node, is after
    the sweep as it was before. *)
Theorem processNodes_stays_in_the_subtree (fuel : nat) (p : Page) (r : NodeId)
    (children : forest) :
  Subtree (nodes p) r children ->
  forall id,
    ~ (In id (preorder children) /\ isTextNode (nodes p) id = true) ->
    nodes (snd (processNodes up fuel (Some r) p)) !! id = nodes p !! id.
Proof.
  intros Hsub id Hid.
  assert (Hrw : Rewrites up (fun x => In x (preorder children)
                                      /\ isTextNode (nodes p) x = true) p
                  (snd (processNodes up fuel (Some r) p))).
  { cbn [processNodes]. rewrite bind_getNode.
    destruct (nodes p !! r) as [n|]; [|constructor].
    destruct ((nodeType n =? ELEMENT_NODE)
              && (includes EXCLUDED_TAGS (toUpperCase up (tagName n))
                  || isContentEditable n)); [constructor|].
    rewrite (bind_ReadOnly _ _ p (ReadOnly_collectLoop fuel _ [])).
    destruct (fst (collectLoop fuel (createTreeWalker r SHOW_TEXT) [] p))
      as [l|f|] eqn:Hl; try constructor.
    apply forEach_Rewrites. intros x Hx q.
    eapply Rewrites_mono; [|apply checkAndReplaceInTextNode_Rewrites].
    intros y <-. rewrite (collectLoop_Subtree_any_fuel p r children fuel l Hsub Hl) in Hx.
    apply filter_In in Hx. exact Hx. }
  exact (Rewrites_frame up _ _ _ Hrw id Hid).
Qed.

Lemma Shape_excluded_below (d : gmap NodeId Node) (f : forest) :
  forall parent,
    Shape d parent f -> ExcludedAbove up d (Some parent) ->
    (forall x m, In x (preorder f) -> d !! x = Some m ->
                 firstChild m <> None -> nodeType m = ELEMENT_NODE) ->
    forall t, In t (preorder f) -> Excluded up d t.
Proof.
  induction f as [|id children IHc siblings IHs]; intros parent Hshape Hx Hel t Ht;
    [destruct Ht|].
  destruct Hshape as [(n & Hn & Hpar & Hfirst & Hnext) [Hsc Hss]].
  cbn [preorder] in Ht. destruct Ht as [<-|Ht].
  - exists n. split; [exact Hn|]. rewrite Hpar. exact Hx.
  - apply in_app_or in Ht as [Ht|Ht].
    + apply (IHc id); try assumption.
      * eapply ExcludedAbove_up; [exact Hn| |rewrite Hpar; exact Hx].
        apply (Hel id n); [left; reflexivity|exact Hn|].
        rewrite Hfirst. destruct children; [destruct Ht|discriminate].
      * intros x m Hin. apply Hel. cbn [preorder]. right. apply in_or_app. left. exact Hin.
    + apply (IHs parent); try assumption.
      intros x m Hin. apply Hel. cbn [preorder]. right. apply in_or_app. right. exact Hin.
Qed.

(** X12. The early return of the sweep on an excluded root loses nothing.
    When the root is an element of the exclusion set or editable, the sweep
    returns at once; and in a tree whose inner nodes are elements every node
    below that root has the root as an excluding ancestor, so the filter would
    have let none of them through. *)
Theorem processNodes_root_guard_agrees_with_filter (fuel : nat) (p : Page) (r : NodeId)
    (n : Node) (children : forest) :
  nodes p !! r = Some n -> Subtree (nodes p) r children ->
  nodeType n = ELEMENT_NODE -> excluding up n = true ->
  (forall x m, In x (preorder children) -> nodes p !! x = Some m ->
               firstChild m <> None -> nodeType m = ELEMENT_NODE) ->
  processNodes up fuel (Some r) p = (Ok tt, p)
  /\ forall t, In t (preorder children) ->
       Excluded up (nodes p) t
       /\ fst (shouldSkipNode up fuel t p) <> Ok false
       /\ snd (checkAndReplaceInTextNode up fuel t p) = p.
Proof.
  intros Hn [_ [Hshape _]] Hty Hex Hel. split.
  - cbn [processNodes]. rewrite bind_getNode, Hn.
    apply N.eqb_eq in Hty. unfold excluding in Hex. rewrite Hty, Hex. reflexivity.
  - intros t Ht.
    assert (Hx : Excluded up (nodes p) t).
    { apply (Shape_excluded_below (nodes p) children r); try assumption.
      eapply ExcludedAbove_here; eassumption. }
    split; [exact Hx|]. split; [apply shouldSkipNode_never_false; exact Hx|].
    destruct (checkAndReplaceInTextNode_effect up fuel t p)
      as [Hsame|(m & v & _ & _ & Hskip & _)]; [exact Hsame|].
    exfalso. exact (shouldSkipNode_never_false up p t fuel Hx Hskip).
Qed.

End MoreOnTheSweep.

Section SweepTwice.

Variable up : N -> list N.

Lemma Rewrites_keeps_null (Q : NodeId -> Prop) (p p' : Page) (t : NodeId) (n : Node) :
  Rewrites up Q p p' -> nodes p !! t = Some n -> nodeValue n = None ->
  nodes p' !! t = Some n.
Proof.
  induction 1 as [p|p u m v p' Hu Hm Hv Hx Hne Hrest IH]; intros Hn Hnull; [exact Hn|].
  apply IH; [|exact Hnull]. cbn [rewritten_at nodes].
  rewrite lookup_insert_ne; [exact Hn|]. intros ->. congruence.
Qed.

Lemma rewritten_at_differs (p : Page) (t : NodeId) (n : Node) (v : jsstring) :
  rewritten_at up p t n v <> p.
Proof.
  intros H. apply (f_equal assigned) in H. cbn [rewritten_at assigned] in H.
  apply (f_equal (@length _)) in H. rewrite length_app in H. simpl in H. lia.
Qed.

(** The outcome of the handler is the same before and after other rewrites. *)
Lemma checkAndReplaceInTextNode_outcome_Rewrites (Q : NodeId -> Prop) (fuel : nat)
    (x : NodeId) (q q' : Page) :
  Rewrites up Q q q' ->
  fst (checkAndReplaceInTextNode up fuel x q')
  = fst (checkAndReplaceInTextNode up fuel x q).
Proof.
  intros Hrw. pose proof (Rewrites_keeps_text up Q q q' Hrw) as [Hs Hval].
  unfold checkAndReplaceInTextNode.
  rewrite (bind_ReadOnly _ _ q (ReadOnly_shouldSkipNode up fuel x)),
          (bind_ReadOnly _ _ q' (ReadOnly_shouldSkipNode up fuel x)).
  rewrite (shouldSkipNode_structure up q q' fuel x Hs).
  destruct (fst (shouldSkipNode up fuel x q)) as [[|]|f|]; try reflexivity.
  rewrite !bind_getNode. destruct (nodes q !! x) as [n|] eqn:Hn.
  - destruct (structure_preserved_lookup _ _ x n Hs Hn) as [n' [Hn' _]]. rewrite Hn'.
    destruct (nodeValue n) as [v|] eqn:Hv.
    + assert (Hv' : nodeValue n' <> None) by (apply (Hval x n n' Hn Hn'); congruence).
      destruct (nodeValue n') as [v'|]; [|contradiction].
      destruct (negb (jsstring_eqb (rewrite_text up v') v'));
        destruct (negb (jsstring_eqb (rewrite_text up v) v));
        unfold setNodeValue; rewrite ?Hn, ?Hn'; reflexivity.
    + rewrite (Rewrites_keeps_null Q q q' x n Hrw Hn Hv) in Hn'. injection Hn' as <-.
      rewrite Hv. reflexivity.
  - rewrite (structure_preserved_lookup_None _ _ x Hs Hn). reflexivity.
Qed.

(** A unit on which the handler has nothing to do stays so through other
    rewrites. *)
Lemma checkAndReplaceInTextNode_stable_Rewrites (Q : NodeId -> Prop) (fuel : nat)
    (x : NodeId) (q q' : Page) :
  snd (checkAndReplaceInTextNode up fuel x q) = q -> Rewrites up Q q q' ->
  snd (checkAndReplaceInTextNode up fuel x q') = q'.
Proof.
  intros Hstable Hrw.
  destruct (checkAndReplaceInTextNode_effect up fuel x q')
    as [Hsame|(n' & v' & Hn' & Hv' & Hskip' & Hne' & _)]; [exact Hsame|].
  exfalso. pose proof (Rewrites_structure up Q q q' Hrw) as Hs.
  rewrite (shouldSkipNode_structure up q q' fuel x Hs) in Hskip'.
  destruct (nodes q !! x) as [n|] eqn:Hn.
  - destruct (nodeValue n) as [v|] eqn:Hv.
    + destruct (jsstring_eqb (rewrite_text up v) v) eqn:E.
      * apply jsstring_eqb_eq in E.
        destruct (Rewrites_fixed_at up Q q q' x Hrw) as (m & w & Hm & Hw & Hfix).
        { exists n, v. repeat split; assumption. }
        rewrite Hn' in Hm. injection Hm as <-. rewrite Hv' in Hw. injection Hw as <-.
        exact (Hne' Hfix).
      * assert (Hne : rewrite_text up v <> v).
        { intros Heq. rewrite Heq, jsstring_eqb_refl in E. discriminate. }
        rewrite (checkAndReplaceInTextNode_writes up fuel x q n v Hn Hv Hskip' Hne)
          in Hstable.
        exact (rewritten_at_differs q x n v Hstable).
    + rewrite (Rewrites_keeps_null Q q q' x n Hrw Hn Hv) in Hn'. injection Hn' as <-.
      congruence.
  - rewrite (structure_preserved_lookup_None _ _ x Hs Hn) in Hn'. discriminate.
Qed.

Lemma checkAndReplaceInTextNode_again (fuel : nat) (x : NodeId) (p : Page) :
  snd (checkAndReplaceInTextNode up fuel x (snd (checkAndReplaceInTextNode up fuel x p)))
  = snd (checkAndReplaceInTextNode up fuel x p).
Proof.
  destruct (checkAndReplaceInTextNode_effect up fuel x p)
    as [Hsame|(n & v & Hn & Hv & Hskip & Hne & Heq)].
  - rewrite Hsame. exact Hsame.
  - rewrite Heq. cbn [snd].
    destruct (checkAndReplaceInTextNode_effect up fuel x
                (mkPage (<[x := withValue n (rewrite_text up v)]> (nodes p))
                        (assigned p ++ [(x, rewrite_text up v)])))
      as [Hsame|(n' & v' & Hn' & Hv' & _ & Hne' & _)]; [exact Hsame|].
    exfalso. cbn [nodes] in Hn'. rewrite lookup_insert_eq in Hn'.
    injection Hn' as <-. cbn [withValue nodeValue] in Hv'. injection Hv' as <-.
    apply Hne'. apply engine_idempotent.
Qed.

Lemma forEach_checkAndReplace_twice (fuel : nat) (l : list NodeId) :
  forall p,
    forEach (checkAndReplaceInTextNode up fuel) l
            (snd (forEach (checkAndReplaceInTextNode up fuel) l p))
    = forEach (checkAndReplaceInTextNode up fuel) l p.
Proof.
  induction l as [|x l IH]; intros p; cbn [forEach]; [reflexivity|].
  pose proof (checkAndReplaceInTextNode_Rewrites up fuel x p) as Hrw1.
  pose proof (checkAndReplaceInTextNode_again fuel x p) as Hagain.
  unfold bind at 2 3.
  destruct (checkAndReplaceInTextNode up fuel x p) as [[[]|f|] p1] eqn:E;
    cbn [fst snd] in *.
  - assert (Hrw2 : Rewrites up (fun _ => True) p1
                     (snd (forEach (checkAndReplaceInTextNode up fuel) l p1))).
    { apply forEach_Rewrites. intros y _ q.
      eapply Rewrites_mono; [|apply checkAndReplaceInTextNode_Rewrites]. auto. }
    set (p' := snd (forEach (checkAndReplaceInTextNode up fuel) l p1)) in *.
    assert (Hout : fst (checkAndReplaceInTextNode up fuel x p') = Ok tt).
    { rewrite (checkAndReplaceInTextNode_outcome_Rewrites (fun _ => True) fuel x p p').
      - rewrite E. reflexivity.
      - eapply Rewrites_trans; [|exact Hrw2].
        eapply Rewrites_mono; [|exact Hrw1]. auto. }
    pose proof (checkAndReplaceInTextNode_stable_Rewrites (fun _ => True) fuel x p1 p'
                  Hagain Hrw2)
      as Hst.
    unfold bind. destruct (checkAndReplaceInTextNode up fuel x p') as [o q] eqn:E'.
    cbn [fst snd] in *. subst o q. subst p'. rewrite IH.
    destruct (forEach (checkAndReplaceInTextNode up fuel) l p1); reflexivity.
  - assert (p1 = p) as ->.
    { destruct (checkAndReplaceInTextNode_effect up fuel x p)
        as [Hsame|(n & v & _ & _ & _ & _ & Heq)]; rewrite E in *;
        [exact Hsame|discriminate]. }
    unfold bind. rewrite E. reflexivity.
  - assert (p1 = p) as ->.
    { destruct (checkAndReplaceInTextNode_effect up fuel x p)
        as [Hsame|(n & v & _ & _ & _ & _ & Heq)]; rewrite E in *;
        [exact Hsame|discriminate]. }
    unfold bind. rewrite E. reflexivity.
Qed.

(** X10. A second sweep changes nothing: sweeping the same root again, with
    the same fuel, ends as the first sweep did and leaves every node and the
    trace of assignments as the first sweep left them. *)
Theorem processNodes_twice (fuel : nat) (rootNode : option NodeId) (p : Page) :
  processNodes up fuel rootNode (snd (processNodes up fuel rootNode p))
  = processNodes up fuel rootNode p.
Proof.
  destruct rootNode as [r|]; [|reflexivity].
  pose proof (Rewrites_structure up _ _ _ (processNodes_Rewrites up fuel (Some r) p))
    as Hs.
  revert Hs. cbn [processNodes]. rewrite !bind_getNode.
  destruct (nodes p !! r) as [n|] eqn:Hn; [|cbn [snd]; rewrite Hn; reflexivity].
  destruct ((nodeType n =? ELEMENT_NODE)
            && (includes EXCLUDED_TAGS (toUpperCase up (tagName n))
                || isContentEditable n)) eqn:Hguard.
  { cbn [ret snd]. rewrite Hn, Hguard. reflexivity. }
  rewrite (bind_ReadOnly _ _ p (ReadOnly_collectLoop fuel _ [])).
  destruct (fst (collectLoop fuel (createTreeWalker r SHOW_TEXT) [] p))
    as [l|f|] eqn:Hl.
  - intros Hs.
    destruct (structure_preserved_lookup _ _ r n Hs Hn)
      as [n' [Hn' (Hty & Htag & Hed & _)]].
    rewrite Hn', Hty, Htag, Hed, Hguard.
    rewrite (bind_ReadOnly _ _ _ (ReadOnly_collectLoop fuel _ [])).
    rewrite (collectLoop_structure p _ fuel _ [] Hs), Hl.
    apply forEach_checkAndReplace_twice.
  - intros _. cbn [snd]. rewrite Hn, Hguard.
    rewrite (bind_ReadOnly _ _ p (ReadOnly_collectLoop fuel _ [])), Hl. reflexivity.
  - intros _. cbn [snd]. rewrite Hn, Hguard.
    rewrite (bind_ReadOnly _ _ p (ReadOnly_collectLoop fuel _ [])), Hl. reflexivity.
Qed.

End SweepTwice.

(** * More on the callback *)

Section MoreOnTheCallback.

Variable up : N -> list N.

Lemma observer_settled_targets (fuel : nat) (batch : list MutationRecord) (p : Page) :
  (forall m, In m batch -> type m = characterData /\ fixed_at up p (target m)) ->
  snd (observer up fuel batch p) = p.
Proof.
  unfold observer. induction batch as [|m batch IH]; intros Hfix; [reflexivity|].
  cbn [forEach]. destruct (Hfix m (or_introl eq_refl)) as [Hty Hm]. rewrite Hty.
  rewrite snd_bind.
  rewrite (checkAndReplaceInTextNode_fixed up fuel (target m) p Hm).
  destruct (fst (checkAndReplaceInTextNode up fuel (target m) p)); try reflexivity.
  apply IH. intros m' Hm'. apply Hfix. right. exact Hm'.
Qed.

Lemma Rewrites_settles_writes (Q : NodeId -> Prop) (p p' : Page) :
  Rewrites up Q p p' ->
  exists writes,
    assigned p' = assigned p ++ writes
    /\ forall fuel batch,
         (forall m, In m batch ->
                    type m = characterData /\ In (target m) (map fst writes)) ->
         snd (observer up fuel batch p') = p'.
Proof.
  intros H. destruct (Rewrites_assigned up Q p p' H) as (writes & Hlog & Hfix).
  exists writes. split; [exact Hlog|]. intros fuel batch Hbatch.
  apply observer_settled_targets. intros m Hm. destruct (Hbatch m Hm) as [Hty Hin].
  split; [exact Hty|]. apply in_map_iff in Hin as (w & <- & Hw). apply Hfix, Hw.
Qed.

(** X13. No feedback loop.  The assignments made by a sweep, by the callback
    or by the single-unit handler are appended to the trace, and a later batch
    made of [characterData] records for units assigned in that run, in any
    number and order, makes the callback assign nothing: the page stays as the
    run left it. *)
Theorem own_notifications_settle (fuel : nat) (p : Page) :
  (forall rootNode,
     let p' := snd (processNodes up fuel rootNode p) in
     exists writes,
       assigned p' = assigned p ++ writes
       /\ forall fuel' batch,
            (forall m, In m batch ->
                       type m = characterData /\ In (target m) (map fst writes)) ->
            snd (observer up fuel' batch p') = p')
  /\ (forall mutationsList,
        let p' := snd (observer up fuel mutationsList p) in
        exists writes,
          assigned p' = assigned p ++ writes
          /\ forall fuel' batch,
               (forall m, In m batch ->
                          type m = characterData /\ In (target m) (map fst writes)) ->
               snd (observer up fuel' batch p') = p')
  /\ (forall t,
        let p' := snd (checkAndReplaceInTextNode up fuel t p) in
        exists writes,
          assigned p' = assigned p ++ writes
          /\ forall fuel' batch,
               (forall m, In m batch ->
                          type m = characterData /\ In (target m) (map fst writes)) ->
               snd (observer up fuel' batch p') = p').
Proof.
  split; [|split].
  - intros rootNode. eapply Rewrites_settles_writes. apply processNodes_Rewrites.
  - intros mutationsList. eapply Rewrites_settles_writes. apply observer_Rewrites.
  - intros t. eapply Rewrites_settles_writes. apply checkAndReplaceInTextNode_Rewrites.
Qed.

Lemma checkAndReplaceInTextNode_Ok_filter (fuel : nat) (x : NodeId) (q : Page) :
  fst (checkAndReplaceInTextNode up fuel x q) = Ok tt ->
  exists b, fst (shouldSkipNode up fuel x q) = Ok b.
Proof.
  unfold checkAndReplaceInTextNode.
  rewrite (bind_ReadOnly _ _ q (ReadOnly_shouldSkipNode up fuel x)).
  destruct (fst (shouldSkipNode up fuel x q)) as [b|f|]; try discriminate. eauto.
Qed.

Lemma shouldSkipNode_true_sound (fuel : nat) (x : NodeId) (q : Page) :
  fst (shouldSkipNode up fuel x q) = Ok true -> Excluded up (nodes q) x.
Proof.
  rewrite shouldSkipNode_unfold. destruct (nodes q !! x) as [n|] eqn:Hn; [|discriminate].
  intros H. exists n. split; [exact Hn|]. eapply ancestorLoop_true_sound. exact H.
Qed.

(** One call of the handler, seen from the page [p] the run started on. *)
Lemma checkAndReplaceInTextNode_step (p q : Page) (fuel : nat) (x : NodeId) :
  settled up p q -> structure_preserved (nodes p) (nodes q) ->
  let q' := snd (checkAndReplaceInTextNode up fuel x q) in
  (settled up p q' /\ structure_preserved (nodes p) (nodes q'))
  /\ (forall t, rewritten_in up p q t -> rewritten_in up p q' t)
  /\ (fst (checkAndReplaceInTextNode up fuel x q) = Ok tt ->
      forall m v, nodes p !! x = Some m -> nodeValue m = Some v ->
                  ~ Excluded up (nodes p) x -> rewritten_in up p q' x).
Proof.
  intros Hset Hs. cbv zeta.
  destruct (checkAndReplaceInTextNode_settles up p q fuel x Hset) as (Hset' & Hkeep & Hdone).
  split; [split; [exact Hset'|]|split; [exact Hkeep|]].
  - eapply structure_preserved_trans; [exact Hs|].
    eapply Rewrites_structure. apply checkAndReplaceInTextNode_Rewrites.
  - intros Hok m v Hm Hv Hx. apply (Hdone m v Hm Hv).
    destruct (checkAndReplaceInTextNode_Ok_filter fuel x q Hok) as [[|] Hb]; [|exact Hb].
    exfalso. apply Hx. apply (Excluded_structure up (nodes q) (nodes p));
      [apply structure_preserved_sym; exact Hs|].
    apply (shouldSkipNode_true_sound fuel). exact Hb.
Qed.

Lemma forEach_checkAndReplace_post (p : Page) (fuel : nat) (l : list NodeId) :
  forall q,
    settled up p q -> structure_preserved (nodes p) (nodes q) ->
    fst (forEach (checkAndReplaceInTextNode up fuel) l q) = Ok tt ->
    let q' := snd (forEach (checkAndReplaceInTextNode up fuel) l q) in
    (settled up p q' /\ structure_preserved (nodes p) (nodes q'))
    /\ (forall t, rewritten_in up p q t -> rewritten_in up p q' t)
    /\ (forall x m v, In x l -> nodes p !! x = Some m -> nodeValue m = Some v ->
          ~ Excluded up (nodes p) x -> rewritten_in up p q' x).
Proof.
  induction l as [|x l IH]; intros q Hset Hs; cbv zeta; cbn [forEach].
  - intros _. split; [split; assumption|]. split; [auto|]. intros x m v [].
  - destruct (checkAndReplaceInTextNode_step p q fuel x Hset Hs)
      as ([Hset1 Hs1] & Hkeep1 & Hdone1).
    unfold bind.
    destruct (checkAndReplaceInTextNode up fuel x q) as [[[]|f|] q1] eqn:E;
      cbn [fst snd] in *; try discriminate.
    intros Hok. destruct (IH q1 Hset1 Hs1 Hok) as (Hinv & Hkeep & Hdone).
    split; [exact Hinv|]. split; [auto|].
    intros y m v [<-|Hy] Hm Hv Hx.
    + apply Hkeep. apply (Hdone1 eq_refl m v Hm Hv Hx).
    + apply (Hdone y m v); assumption.
Qed.

Lemma processNodes_post (p q : Page) (fuel : nat) (x : NodeId) :
  settled up p q -> structure_preserved (nodes p) (nodes q) ->
  fst (processNodes up fuel (Some x) q) = Ok tt ->
  let q' := snd (processNodes up fuel (Some x) q) in
  (settled up p q' /\ structure_preserved (nodes p) (nodes q'))
  /\ (forall t, rewritten_in up p q t -> rewritten_in up p q' t)
  /\ (forall nx children t m v,
        nodes p !! x = Some nx ->
        (nodeType nx =? ELEMENT_NODE) && excluding up nx = false ->
        Subtree (nodes p) x children -> In t (preorder children) ->
        nodes p !! t = Some m -> nodeType m = TEXT_NODE -> nodeValue m = Some v ->
        ~ Excluded up (nodes p) t -> rewritten_in up p q' t).
Proof.
  intros Hset Hs. cbv zeta. cbn [processNodes]. rewrite bind_getNode.
  destruct (nodes q !! x) as [n'|] eqn:Hn'; [|discriminate].
  destruct ((nodeType n' =? ELEMENT_NODE)
            && (includes EXCLUDED_TAGS (toUpperCase up (tagName n'))
                || isContentEditable n')) eqn:Hguard.
  - intros _. cbn [ret snd]. split; [split; assumption|]. split; [auto|].
    intros nx children t m v Hnx Hroot. exfalso.
    destruct (structure_preserved_lookup _ _ x nx Hs Hnx) as [n2 [Hn2 (Hty & Htag & Hed & _)]].
    rewrite Hn' in Hn2. injection Hn2 as <-.
    unfold excluding in Hroot. rewrite <- Hty, <- Htag, <- Hed, Hguard in Hroot.
    discriminate.
  - rewrite (bind_ReadOnly _ _ q (ReadOnly_collectLoop fuel _ [])).
    rewrite (collectLoop_structure p q fuel _ [] Hs).
    destruct (fst (collectLoop fuel (createTreeWalker x SHOW_TEXT) [] p))
      as [l|f|] eqn:Hl; try discriminate.
    intros Hok. destruct (forEach_checkAndReplace_post p fuel l q Hset Hs Hok)
      as (Hinv & Hkeep & Hdone).
    split; [exact Hinv|]. split; [exact Hkeep|].
    intros nx children t m v Hnx Hroot Hsub Ht Hm Hty Hv Hx.
    apply (Hdone t m v); try assumption.
    rewrite (collectLoop_Subtree_any_fuel p x children fuel l Hsub Hl).
    apply filter_In. split; [exact Ht|]. unfold isTextNode. rewrite Hm.
    apply N.eqb_eq. exact Hty.
Qed.

Lemma forEach_processNodes_post (p : Page) (fuel : nat) (added : list NodeId) :
  forall q,
    settled up p q -> structure_preserved (nodes p) (nodes q) ->
    fst (forEach (fun newNode => processNodes up fuel (Some newNode)) added q) = Ok tt ->
    let q' := snd (forEach (fun newNode => processNodes up fuel (Some newNode)) added q) in
    (settled up p q' /\ structure_preserved (nodes p) (nodes q'))
    /\ (forall t, rewritten_in up p q t -> rewritten_in up p q' t)
    /\ (forall x nx children t m v,
          In x added -> nodes p !! x = Some nx ->
          (nodeType nx =? ELEMENT_NODE) && excluding up nx = false ->
          Subtree (nodes p) x children -> In t (preorder children) ->
          nodes p !! t = Some m -> nodeType m = TEXT_NODE -> nodeValue m = Some v ->
          ~ Excluded up (nodes p) t -> rewritten_in up p q' t).
Proof.
  induction added as [|x added IH]; intros q Hset Hs; cbv zeta; cbn [forEach].
  - intros _. split; [split; assumption|]. split; [auto|]. intros x nx c t m v [].
  - unfold bind.
    destruct (processNodes up fuel (Some x) q) as [[[]|f|] q1] eqn:E; try discriminate.
    intros Hok.
    destruct (processNodes_post p q fuel x Hset Hs) as ([Hset1 Hs1] & Hkeep1 & Hdone1);
      [rewrite E; reflexivity|]. rewrite E in *. cbn [snd] in *.
    destruct (IH q1 Hset1 Hs1 Hok) as (Hinv & Hkeep & Hdone).
    split; [exact Hinv|]. split; [auto|].
    intros y ny c t m v [<-|Hy] Hny Hroot Hsub Ht Hm Hty Hv Hx.
    + apply Hkeep. eapply Hdone1; eassumption.
    + eapply Hdone; eassumption.
Qed.

Lemma rewritten_in_lookup (p q : Page) (t : NodeId) (m : Node) (v : jsstring) :
  rewritten_in up p q t -> nodes p !! t = Some m -> nodeValue m = Some v ->
  nodes q !! t = Some (withValue m (rewrite_text up v)).
Proof.
  intros (m' & v' & Hm' & Hv' & Hq) Hm Hv.
  rewrite Hm in Hm'. injection Hm' as <-. rewrite Hv in Hv'. injection Hv' as <-.
  exact Hq.
Qed.

(** X14. What a completed call of the callback has done.  Every text node
    that lies below a node added by a [childList] record of the batch (the
    added node not being an excluded element), and every target of a
    [characterData] record, holds the rewriting of the value it had when the
    call began, provided that it has no excluding ancestor. *)
Theorem observer_rewrites_what_changed (fuel : nat) (mutationsList : list MutationRecord)
    (p : Page) :
  fst (observer up fuel mutationsList p) = Ok tt ->
  let p' := snd (observer up fuel mutationsList p) in
  (forall mutation x nx children t m v,
     In mutation mutationsList -> type mutation = childList ->
     In x (addedNodes mutation) -> nodes p !! x = Some nx ->
     (nodeType nx =? ELEMENT_NODE) && excluding up nx = false ->
     Subtree (nodes p) x children -> In t (preorder children) ->
     nodes p !! t = Some m -> nodeType m = TEXT_NODE -> nodeValue m = Some v ->
     ~ Excluded up (nodes p) t ->
     nodes p' !! t = Some (withValue m (rewrite_text up v)))
  /\ (forall mutation m v,
        In mutation mutationsList -> type mutation = characterData ->
        nodes p !! target mutation = Some m -> nodeValue m = Some v ->
        ~ Excluded up (nodes p) (target mutation) ->
        nodes p' !! target mutation = Some (withValue m (rewrite_text up v))).
Proof.
  unfold observer.
  assert (Hgen : forall l q,
            settled up p q -> structure_preserved (nodes p) (nodes q) ->
            fst (forEach (fun mutation =>
                   match type mutation with
                   | childList =>
                       forEach (fun newNode => processNodes up fuel (Some newNode))
                               (addedNodes mutation)
                   | characterData => checkAndReplaceInTextNode up fuel (target mutation)
                   | attributes => ret tt
                   end) l q) = Ok tt ->
            let q' := snd (forEach (fun mutation =>
                   match type mutation with
                   | childList =>
                       forEach (fun newNode => processNodes up fuel (Some newNode))
                               (addedNodes mutation)
                   | characterData => checkAndReplaceInTextNode up fuel (target mutation)
                   | attributes => ret tt
                   end) l q) in
            (settled up p q' /\ structure_preserved (nodes p) (nodes q'))
            /\ (forall t, rewritten_in up p q t -> rewritten_in up p q' t)
            /\ (forall mutation x nx children t m v,
                  In mutation l -> type mutation = childList ->
                  In x (addedNodes mutation) -> nodes p !! x = Some nx ->
                  (nodeType nx =? ELEMENT_NODE) && excluding up nx = false ->
                  Subtree (nodes p) x children -> In t (preorder children) ->
                  nodes p !! t = Some m -> nodeType m = TEXT_NODE ->
                  nodeValue m = Some v -> ~ Excluded up (nodes p) t ->
                  rewritten_in up p q' t)
            /\ (forall mutation m v,
                  In mutation l -> type mutation = characterData ->
                  nodes p !! target mutation = Some m -> nodeValue m = Some v ->
                  ~ Excluded up (nodes p) (target mutation) ->
                  rewritten_in up p q' (target mutation))).
  { induction l as [|mu l IH]; intros q Hset Hs; cbv zeta; cbn [forEach].
    - intros _. split; [split; assumption|]. split; [auto|].
      split; [intros mutation x nx c t m v []|intros mutation m v []].
    - unfold bind.
      match goal with |- context [fst (let (_, _) := ?step in _)] =>
        destruct step as [[[]|f|] q1] eqn:E end; try discriminate.
      intros Hok.
      assert (Hstep : (settled up p q1 /\ structure_preserved (nodes p) (nodes q1))
                      /\ (forall t, rewritten_in up p q t -> rewritten_in up p q1 t)
                      /\ (type mu = childList ->
                          forall x nx children t m v,
                            In x (addedNodes mu) -> nodes p !! x = Some nx ->
                            (nodeType nx =? ELEMENT_NODE) && excluding up nx = false ->
                            Subtree (nodes p) x children -> In t (preorder children) ->
                            nodes p !! t = Some m -> nodeType m = TEXT_NODE ->
                            nodeValue m = Some v -> ~ Excluded up (nodes p) t ->
                            rewritten_in up p q1 t)
                      /\ (type mu = characterData ->
                          forall m v,
                            nodes p !! target mu = Some m -> nodeValue m = Some v ->
                            ~ Excluded up (nodes p) (target mu) ->
                            rewritten_in up p q1 (target mu))).
      { destruct (type mu) eqn:Hty.
        - destruct (forEach_processNodes_post p fuel (addedNodes mu) q Hset Hs)
            as (Hinv & Hkeep & Hdone); [rewrite E; reflexivity|].
          rewrite E in *. cbn [snd] in *.
          split; [exact Hinv|]. split; [exact Hkeep|]. split; [|discriminate].
          intros _. exact Hdone.
        - destruct (checkAndReplaceInTextNode_step p q fuel (target mu) Hset Hs)
            as (Hinv & Hkeep & Hdone). rewrite E in *. cbn [fst snd] in *.
          split; [exact Hinv|]. split; [exact Hkeep|]. split; [discriminate|].
          intros _. exact (Hdone eq_refl).
        - cbn [ret] in E. injection E as <-.
          split; [split; assumption|]. split; [auto|]. split; discriminate. }
      destruct Hstep as ([Hset1 Hs1] & Hkeep1 & Hadd1 & Hchar1).
      destruct (IH q1 Hset1 Hs1 Hok) as (Hinv & Hkeep & Hadd & Hchar).
      split; [exact Hinv|]. split; [auto|]. split.
      + intros mutation x nx c t m v [<-|Hin] Hty; intros.
        * apply Hkeep. eapply Hadd1; eassumption.
        * eapply Hadd; eassumption.
      + intros mutation m v [<-|Hin] Hty; intros.
        * apply Hkeep. eapply Hchar1; eassumption.
        * eapply Hchar; eassumption. }
  intros Hok. cbv zeta.
  destruct (Hgen mutationsList p) as (_ & _ & Hadd & Hchar); try assumption.
  - intros t m v Hm Hv. left. exact Hm.
  - apply structure_preserved_refl.
  - split.
    + intros. eapply rewritten_in_lookup; [eapply Hadd|..]; eassumption.
    + intros. eapply rewritten_in_lookup; [eapply Hchar|..]; eassumption.
Qed.

End MoreOnTheCallback.

(** * The start of the script *)

Section StartFacts.

Variable up : N -> list N.

Lemma invokeListeners_listeners (fuel : nat) (ls : list Listener) (h : Host) :
  listeners (snd (invokeListeners up fuel ls h)) = listeners h.
Proof.
  revert h. induction ls as [|l ls IH]; intro h; [reflexivity|].
  cbn [invokeListeners].
  assert (Hl : listeners (snd (runListener up fuel l h)) = listeners h).
  { destruct l; cbn [runListener]; destruct (body h); reflexivity. }
  destruct (runListener up fuel l h) as [[[]|e|] h']; cbn [snd] in *;
    try rewrite IH; exact Hl.
Qed.

Lemma invokeListeners_body (fuel : nat) (ls : list Listener) (h : Host) :
  body (snd (invokeListeners up fuel ls h)) = body h.
Proof.
  revert h. induction ls as [|l ls IH]; intro h; [reflexivity|].
  cbn [invokeListeners].
  assert (Hl : body (snd (runListener up fuel l h)) = body h).
  { destruct l; cbn [runListener]; destruct (body h) eqn:E; cbn [onPage observe snd body];
      congruence. }
  destruct (runListener up fuel l h) as [[[]|e|] h']; cbn [snd] in *;
    try rewrite IH; exact Hl.
Qed.

Lemma contentScript_without_body (fuel : nat) (h : Host) :
  body h = None ->
  contentScript up fuel h
  = (Ok tt, mkHost (page h) None (listeners h ++ [sweepWhenLoaded; observeWhenLoaded])
                   (observed h)).
Proof.
  intro Hb. unfold contentScript. rewrite Hb.
  unfold addEventListener, startObserver. cbn [body]. rewrite Hb.
  unfold addEventListener. cbn [fst snd page body listeners observed].
  rewrite <- app_assoc. reflexivity.
Qed.

(** X17. Without a body the script touches neither the page nor the
    observer: it registers its two listeners.  When the document is then
    loaded with a body and the sweep of that body completes, the dispatch
    ends in the state in which the script would have ended, had it found
    that document at its start. *)
Theorem deferred_start_is_direct_start (fuel fuel' : nat) (h : Host) (p : Page)
    (b : NodeId) :
  body h = None -> listeners h = [] ->
  let h1 := snd (contentScript up fuel h) in
  fst (contentScript up fuel h) = Ok tt
  /\ page h1 = page h /\ observed h1 = observed h
  /\ listeners h1 = [sweepWhenLoaded; observeWhenLoaded]
  /\ (fst (processNodes up fuel' (Some b) p) = Ok tt ->
      DOMContentLoaded up fuel' (parsed h1 p (Some b))
      = contentScript up fuel' (mkHost p (Some b) [] (observed h))).
Proof.
  intros Hb Hl. cbv zeta. rewrite (contentScript_without_body fuel h Hb).
  cbn [fst snd page body listeners observed]. rewrite Hl. cbn [app].
  do 4 (split; [reflexivity|]).
  intros Hok. unfold DOMContentLoaded, parsed. cbn [listeners page body observed].
  cbn [invokeListeners runListener body]. unfold contentScript, onPage.
  cbn [page body listeners observed].
  destruct (processNodes up fuel' (Some b) p) as [o q]. cbn [fst snd] in *. subst o.
  unfold startObserver, observe. cbn [fst snd page body listeners observed]. reflexivity.
Qed.

(** X19. When the document is loaded and still has no body, both listeners
    return without doing anything, and they are gone: the script has not
    swept, observes nothing and will not be invoked again. *)
Theorem no_body_when_loaded_is_inert (fuel fuel' : nat) (h : Host) (p : Page) :
  body h = None -> listeners h = [] ->
  DOMContentLoaded up fuel' (parsed (snd (contentScript up fuel h)) p None)
  = (Ok tt, mkHost p None [] (observed h)).
Proof.
  intros Hb Hl. rewrite (contentScript_without_body fuel h Hb).
  cbn [snd]. unfold DOMContentLoaded, parsed. cbn [listeners page body observed].
  rewrite Hl. reflexivity.
Qed.

(** X20. The listeners run once: whatever listeners are registered and
    whatever they do, after a dispatch that came to its end none is left,
    and a second dispatch changes nothing. *)
Theorem listeners_run_once (fuel fuel' : nat) (h : Host) :
  let h' := snd (DOMContentLoaded up fuel h) in
  listeners h' = [] /\ body h' = body h
  /\ DOMContentLoaded up fuel' h' = (Ok tt, h').
Proof.
  cbv zeta. unfold DOMContentLoaded at 1 2 3.
  assert (Hl := invokeListeners_listeners fuel (listeners h)
                  (mkHost (page h) (body h) [] (observed h))).
  assert (Hb := invokeListeners_body fuel (listeners h)
                  (mkHost (page h) (body h) [] (observed h))).
  cbn [listeners body] in Hl, Hb.
  split; [exact Hl|]. split; [exact Hb|].
  unfold DOMContentLoaded.
  destruct (snd (invokeListeners up fuel (listeners h) _)) as [q bd ls ob].
  cbn [listeners] in *. subst ls. reflexivity.
Qed.

(** X21. The observer never watches more than the body: started on a host
    that observes nothing, the script and the dispatch that follows it leave
    at most one registration, that of the body of the time, with the three
    options set. *)
Theorem at_most_the_body_is_observed (fuel fuel' : nat) (h : Host) (p : Page)
    (b : option NodeId) :
  observed h = [] -> listeners h = [] ->
  let h1 := snd (contentScript up fuel h) in
  (observed h1 = [] \/ exists r, body h = Some r /\ observed h1 = [(r, observerOptions)])
  /\ (body h = None ->
      let h2 := snd (DOMContentLoaded up fuel' (parsed h1 p b)) in
      observed h2 = [] \/ exists r, b = Some r /\ observed h2 = [(r, observerOptions)]).
Proof.
  intros Ho Hl. cbv zeta. split.
  - destruct (body h) as [r|] eqn:Hb.
    + unfold contentScript. rewrite Hb. unfold onPage. destruct (processNodes up fuel (Some r) (page h)) as [[[]|e|] q];
        cbn [fst snd]; [|left; exact Ho|left; exact Ho].
      right. exists r. split; [reflexivity|].
      unfold startObserver. cbn [body]. rewrite Hb.
      cbn [observe snd observed]. rewrite Ho. reflexivity.
    + left. rewrite (contentScript_without_body fuel h Hb). exact Ho.
  - intro Hb. rewrite (contentScript_without_body fuel h Hb).
    cbn [fst snd page body listeners observed]. rewrite Hl, Ho. cbn [app]. unfold DOMContentLoaded, parsed. cbn [listeners page body observed].
    destruct b as [r|].
    + cbn [invokeListeners runListener body]. unfold onPage. cbn [page body listeners observed].
      destruct (processNodes up fuel' (Some r) p) as [[[]|e|] q];
        cbn [fst snd body observe observed registered invokeListeners page listeners].
      * right. exists r. split; reflexivity.
      * right. exists r. split; reflexivity.
      * left. reflexivity.
    + left. reflexivity.
Qed.

(** X22. On a well-formed document whose body is not an excluded element
    the script, with enough fuel, completes; then every text node below the
    body that has no excluding ancestor holds the rewriting of its value, and
    the body is observed. *)
Theorem contentScript_sweeps_and_observes (h : Host) (b : NodeId) (n : Node)
    (children : forest) :
  body h = Some b -> WellFormed (nodes (page h)) -> nodes (page h) !! b = Some n ->
  Subtree (nodes (page h)) b children ->
  (nodeType n =? ELEMENT_NODE) && excluding up n = false ->
  exists fuel0, forall fuel, (fuel0 <= fuel)%nat ->
    let h' := snd (contentScript up fuel h) in
    fst (contentScript up fuel h) = Ok tt
    /\ observed h' = registered b observerOptions (observed h)
    /\ listeners h' = listeners h
    /\ forall t m v,
         In t (preorder children) -> nodes (page h) !! t = Some m ->
         nodeType m = TEXT_NODE -> nodeValue m = Some v ->
         ~ Excluded up (nodes (page h)) t ->
         nodes (page h') !! t = Some (withValue m (rewrite_text up v)).
Proof.
  intros Hb Hwf Hn Hsub Hroot.
  destruct (processNodes_rewrites_eligible_units up (page h) b n children
              Hwf Hn Hsub Hroot) as [fuel0 H].
  exists fuel0. intros fuel Hf. destruct (H fuel Hf) as [Hok Hpost]. cbv zeta.
  unfold contentScript, onPage. rewrite Hb.
  destruct (processNodes up fuel (Some b) (page h)) as [o q]. cbn [fst snd] in *.
  subst o. unfold startObserver, observe. cbn [fst snd page body listeners observed].
  repeat split. exact Hpost.
Qed.

End StartFacts.

(** * What the callback reads of a record *)

Section RecordFacts.

Variable up : N -> list N.

Lemma observer_cons (fuel : nat) (m : MutationRecord) (l : list MutationRecord)
    (p : Page) :
  observer up fuel (m :: l) p
  = match observer up fuel [m] p with
    | (Ok _, p1) => observer up fuel l p1
    | (Throw f, p1) => (Throw f, p1)
    | (OutOfFuel, p1) => (OutOfFuel, p1)
    end.
Proof.
  change (m :: l) with ([m] ++ l). unfold observer. rewrite forEach_app.
  unfold bind. destruct (forEach _ [m] p) as [[[]|e|] q]; reflexivity.
Qed.

(** X23. The callback reads the type of a record, the added nodes of a
    child list record and the target of a character data record, and nothing
    else: two batches whose records agree on these have the same outcome and
    leave the same page. *)
Theorem observer_reads_what_the_type_names (fuel : nat)
    (mutationsList mutationsList' : list MutationRecord) (p : Page) :
  Forall2 (fun m m' =>
             type m = type m'
             /\ (type m = childList -> addedNodes m = addedNodes m')
             /\ (type m = characterData -> target m = target m'))
          mutationsList mutationsList' ->
  observer up fuel mutationsList p = observer up fuel mutationsList' p.
Proof.
  intros H. revert p.
  induction H as [|m m' l l' (Hty & Hadd & Htg) _ IH]; intro p; [reflexivity|].
  rewrite (observer_cons fuel m l), (observer_cons fuel m' l').
  assert (Hone : observer up fuel [m] p = observer up fuel [m'] p).
  { unfold observer. cbn [forEach]. rewrite <- Hty.
    destruct (type m); [rewrite (Hadd eq_refl)|rewrite (Htg eq_refl)|]; reflexivity. }
  rewrite <- Hone. destruct (observer up fuel [m] p) as [[[]|e|] q];
    [apply IH|reflexivity|reflexivity].
Qed.

(** X24. A record of a change of attributes and a child list record that
    adds no node, as that of a removal, are passed over: the batch without
    such a record has the same outcome and leaves the same page. *)
Theorem observer_passes_over_other_records (fuel : nat) (m : MutationRecord)
    (before after : list MutationRecord) (p : Page) :
  type m = attributes \/ (type m = childList /\ addedNodes m = []) ->
  observer up fuel (before ++ m :: after) p = observer up fuel (before ++ after) p.
Proof.
  intros Hm. unfold observer. rewrite !forEach_app. unfold bind.
  destruct (forEach _ before p) as [[[]|e|] q]; [|reflexivity|reflexivity].
  cbn [forEach]. unfold bind.
  destruct Hm as [Hm|[Hm Hadd]]; rewrite Hm; [|rewrite Hadd]; reflexivity.
Qed.

End RecordFacts.

(** * Further results on example documents *)

Lemma small_unit_is_eligible : ~ Excluded identity_table small_nodes 3%nat.
Proof.
  intro Hx. apply (shouldSkipNode_never_false identity_table small_page 3%nat 10 Hx).
  vm_compute. reflexivity.
Qed.

Lemma small_nodes_Subtree :
  Subtree small_nodes 1%nat (Tree 2%nat (Tree 3%nat Leafless Leafless) Leafless).
Proof. split; [|split]; [shape|shape|]. simpl. lia. Qed.

Lemma rewrite_text_is_ascii_only_witness :
  rewrite_text identity_table (str "gulf of america")
  = rewrite_text doubling_table (str "gulf of america")
  /\ Forall (fun c => c < 128) (firstn (length TEXT_TO_FIND) (str "GULF of america!")).
Proof.
  destruct (rewrite_text_is_ascii_only identity_table doubling_table
              (str "gulf of america")) as [H1 _].
  split; [exact H1|].
  apply (rewrite_text_is_ascii_only identity_table identity_table []).
  vm_compute. reflexivity.
Defined.

Lemma excluded_tags_ignore_ascii_case_witness :
  excluding identity_table (element "TextArea" false None None None)
  = includes EXCLUDED_TAGS (map ascii_upper (str "TextArea")) || false.
Proof.
  apply (excluded_tags_ignore_ascii_case identity_table
           (element "TextArea" false None None None)).
  cbn [element tagName]. unfold str. cbn.
  repeat (constructor; [reflexivity|]). constructor.
Defined.

Lemma shouldSkipNode_is_exact_witness :
  exists fuel0, forall fuel, (fuel0 <= fuel)%nat ->
    shouldSkipNode identity_table fuel 5%nat code_page = (Ok true, code_page).
Proof.
  destruct (shouldSkipNode_is_exact identity_table code_page 5%nat
              (text "Gulf of America" (Some 4%nat) None) eq_refl) as (_ & _ & H).
  destruct H as [fuel0 H]; [cbn [text parentNode]; finite_chain|].
  exists fuel0. intros fuel Hf. apply (H fuel Hf). exact code_unit_is_excluded.
Defined.

Lemma shouldSkipNode_ignores_text_values_witness :
  fst (shouldSkipNode identity_table 10 3%nat
         (snd (processNodes identity_table 10 (Some 1%nat) small_page)))
  = fst (shouldSkipNode identity_table 10 3%nat small_page).
Proof.
  apply (shouldSkipNode_ignores_text_values identity_table 10 3%nat small_page).
  eapply Rewrites_structure. apply processNodes_Rewrites.
Defined.

Lemma checkAndReplaceInTextNode_faults_witness :
  checkAndReplaceInTextNode identity_table 10 2%nat small_page
  = (Throw TypeError, small_page).
Proof.
  destruct (checkAndReplaceInTextNode_faults identity_table 10 2%nat small_page
              (element "P" false (Some 1%nat) (Some 3%nat) None) eq_refl)
    as (_ & H & _).
  apply H; [vm_compute; reflexivity|reflexivity].
Defined.

Lemma checkAndReplaceInTextNode_clears_the_phrase_witness :
  nodes (snd (checkAndReplaceInTextNode identity_table 10 3%nat small_page)) !! 3%nat
  = Some (withValue (text "Gulf of America" (Some 2%nat) None)
            (rewrite_text identity_table (str "Gulf of America"))).
Proof.
  apply (checkAndReplaceInTextNode_clears_the_phrase identity_table 10 3%nat small_page
           (text "Gulf of America" (Some 2%nat) None) (str "Gulf of America")).
  - reflexivity.
  - reflexivity.
  - vm_compute. reflexivity.
Defined.

Lemma processNodes_rewrites_every_eligible_unit_witness :
  exists fuel0, forall fuel, (fuel0 <= fuel)%nat ->
    fst (processNodes identity_table fuel (Some 1%nat) small_page) = Ok tt
    /\ nodes (snd (processNodes identity_table fuel (Some 1%nat) small_page)) !! 3%nat
       = Some (withValue (text "Gulf of America" (Some 2%nat) None)
                 (rewrite_text identity_table (str "Gulf of America"))).
Proof.
  destruct (processNodes_rewrites_every_eligible_unit identity_table small_page 1%nat
              (element "BODY" false None (Some 2%nat) None)
              (Tree 2%nat (Tree 3%nat Leafless Leafless) Leafless)
              small_nodes_WellFormed eq_refl small_nodes_Subtree)
    as [fuel0 H]; [vm_compute; reflexivity|].
  exists fuel0. intros fuel Hf. destruct (H fuel Hf) as [Hok Hpost].
  split; [exact Hok|].
  apply (Hpost 3%nat (text "Gulf of America" (Some 2%nat) None) (str "Gulf of America")).
  - cbn. auto.
  - reflexivity.
  - reflexivity.
  - reflexivity.
  - exact small_unit_is_eligible.
Defined.

Lemma gulf_paragraph_Subtree :
  Subtree gulf_nodes 2%nat
    (Tree 3%nat Leafless
       (Tree 4%nat (Tree 5%nat Leafless Leafless) (Tree 6%nat Leafless Leafless))).
Proof. split; [|split]; [shape|shape|]. simpl. lia. Qed.

Lemma processNodes_stays_in_the_subtree_witness :
  nodes (snd (processNodes identity_table 20 (Some 2%nat) gulf_page)) !! 8%nat
  = nodes gulf_page !! 8%nat.
Proof.
  apply (processNodes_stays_in_the_subtree identity_table 20 gulf_page 2%nat _
           gulf_paragraph_Subtree).
  intros [H _]. cbn in H. intuition discriminate.
Defined.

Lemma code_element_Subtree :
  Subtree code_nodes 2%nat
    (Tree 3%nat (Tree 4%nat (Tree 5%nat Leafless Leafless) Leafless) Leafless).
Proof. split; [|split]; [shape|shape|]. simpl. lia. Qed.

Lemma processNodes_root_guard_agrees_with_filter_witness :
  processNodes identity_table 10 (Some 2%nat) code_page = (Ok tt, code_page)
  /\ snd (checkAndReplaceInTextNode identity_table 10 5%nat code_page) = code_page.
Proof.
  destruct (processNodes_root_guard_agrees_with_filter identity_table 10 code_page 2%nat
              (element "code" false (Some 1%nat) (Some 3%nat) None) _
              eq_refl code_element_Subtree eq_refl) as [H1 H2].
  - vm_compute. reflexivity.
  - intros x m Hx Hm Hc. cbn in Hx.
    destruct Hx as [<-|[<-|[<-|[]]]]; cbn in Hm; injection Hm as <-;
      first [reflexivity|exfalso; apply Hc; reflexivity].
  - split; [exact H1|]. apply (H2 5%nat). cbn. auto.
Defined.

Lemma own_notifications_settle_witness :
  snd (observer identity_table 10 [mkMutationRecord characterData 5%nat []]
         (snd (processNodes identity_table 20 (Some 1%nat) gulf_page)))
  = snd (processNodes identity_table 20 (Some 1%nat) gulf_page).
Proof.
  destruct (own_notifications_settle identity_table 20 gulf_page) as (H & _ & _).
  destruct (H (Some 1%nat)) as (writes & Hw & Hsettle).
  apply Hsettle. intros m [<-|[]]. split; [reflexivity|]. cbn [target].
  vm_compute in Hw. rewrite <- Hw. left. reflexivity.
Defined.

Lemma observer_rewrites_what_changed_witness :
  nodes (snd (observer identity_table 10 [mkMutationRecord childList 1%nat [2%nat]]
                small_page)) !! 3%nat
  = Some (withValue (text "Gulf of America" (Some 2%nat) None)
            (rewrite_text identity_table (str "Gulf of America"))).
Proof.
  destruct (observer_rewrites_what_changed identity_table 10
              [mkMutationRecord childList 1%nat [2%nat]] small_page) as [H _];
    [vm_compute; reflexivity|].
  apply (H (mkMutationRecord childList 1%nat [2%nat]) 2%nat
           (element "P" false (Some 1%nat) (Some 3%nat) None)
           (Tree 3%nat Leafless Leafless) 3%nat
           (text "Gulf of America" (Some 2%nat) None) (str "Gulf of America")).
  - left. reflexivity.
  - reflexivity.
  - left. reflexivity.
  - reflexivity.
  - vm_compute. reflexivity.
  - split; [|split]; [shape|shape|]. simpl. lia.
  - cbn. auto.
  - reflexivity.
  - reflexivity.
  - reflexivity.
  - exact small_unit_is_eligible.
Defined.

Lemma deferred_start_is_direct_start_witness :
  DOMContentLoaded identity_table 10
    (parsed (snd (contentScript identity_table 0 (mkHost (mkPage ∅ []) None [] [])))
            small_page (Some 1%nat))
  = contentScript identity_table 10 (mkHost small_page (Some 1%nat) [] []).
Proof.
  destruct (deferred_start_is_direct_start identity_table 0 10
              (mkHost (mkPage ∅ []) None [] []) small_page 1%nat eq_refl eq_refl)
    as (_ & _ & _ & _ & H).
  apply H. vm_compute. reflexivity.
Defined.

Lemma no_body_when_loaded_is_inert_witness :
  DOMContentLoaded identity_table 10
    (parsed (snd (contentScript identity_table 0 (mkHost (mkPage ∅ []) None [] [])))
            (mkPage ∅ []) None)
  = (Ok tt, mkHost (mkPage ∅ []) None [] []).
Proof.
  apply (no_body_when_loaded_is_inert identity_table 0 10
           (mkHost (mkPage ∅ []) None [] []) (mkPage ∅ [])); reflexivity.
Defined.

Lemma at_most_the_body_is_observed_witness :
  observed (snd (contentScript identity_table 10 (mkHost small_page (Some 1%nat) [] [])))
  = []
  \/ exists r, Some 1%nat = Some r
       /\ observed (snd (contentScript identity_table 10
                           (mkHost small_page (Some 1%nat) [] [])))
          = [(r, observerOptions)].
Proof.
  apply (at_most_the_body_is_observed identity_table 10 10
           (mkHost small_page (Some 1%nat) [] []) small_page None); reflexivity.
Defined.

Lemma contentScript_sweeps_and_observes_witness :
  exists fuel0, forall fuel, (fuel0 <= fuel)%nat ->
    let h' := snd (contentScript identity_table fuel
                     (mkHost small_page (Some 1%nat) [] [])) in
    observed h' = [(1%nat, observerOptions)]
    /\ nodes (page h') !! 3%nat
       = Some (withValue (text "Gulf of America" (Some 2%nat) None)
                 (rewrite_text identity_table (str "Gulf of America"))).
Proof.
  destruct (contentScript_sweeps_and_observes identity_table
              (mkHost small_page (Some 1%nat) [] []) 1%nat
              (element "BODY" false None (Some 2%nat) None)
              (Tree 2%nat (Tree 3%nat Leafless Leafless) Leafless)
              eq_refl small_nodes_WellFormed eq_refl small_nodes_Subtree)
    as [fuel0 H]; [vm_compute; reflexivity|].
  exists fuel0. intros fuel Hf. destruct (H fuel Hf) as (_ & Hobs & _ & Hpost).
  split; [exact Hobs|].
  apply (Hpost 3%nat (text "Gulf of America" (Some 2%nat) None) (str "Gulf of America")).
  - cbn. auto.
  - reflexivity.
  - reflexivity.
  - reflexivity.
  - exact small_unit_is_eligible.
Defined.

Lemma observer_reads_what_the_type_names_witness :
  observer identity_table 10
    [mkMutationRecord childList 1%nat [2%nat]; mkMutationRecord characterData 3%nat []]
    small_page
  = observer identity_table 10
      [mkMutationRecord childList 2%nat [2%nat];
       mkMutationRecord characterData 3%nat [1%nat]]
      small_page.
Proof.
  apply (observer_reads_what_the_type_names identity_table 10).
  repeat constructor; cbn [type]; discriminate.
Defined.

Lemma observer_passes_over_other_records_witness :
  observer identity_table 10
    [mkMutationRecord attributes 3%nat []; mkMutationRecord characterData 3%nat []]
    small_page
  = observer identity_table 10 [mkMutationRecord characterData 3%nat []] small_page.
Proof.
  apply (observer_passes_over_other_records identity_table 10
           (mkMutationRecord attributes 3%nat []) []
           [mkMutationRecord characterData 3%nat []] small_page).
  left. reflexivity.
Defined.
